(** * Soft Q-learning and DDPO objectives of the trl trainers

    A shallow embedding of [trl/trainer/soft_q_learning_trainer.py], of the
    DDPO loss checked by [tests/test_ddpo_trainer.py], of the configuration
    class of [trl/trainer/ddpo_config.py] and of the image logger of
    [examples/scripts/stable_diffusion_tuning.py].

    Conventions of the embedding.
    - A tensor element is a real number ([R]): rounding, infinities and NaN
      of the tensor framework are not part of the model.
    - A tensor of rank 1, 2, 3 is a list, a list of rows, a list of rows of
      rows.  Element-wise operations are written with [zip_with]; they agree
      with the tensor framework whenever the operands have the same shape,
      and the theorems carry the shape hypotheses they need.
    - A Python exception is the [Raise] outcome of a [result].
    - Integer indices are [Z]: a negative index counts from the end, as in
      Python. *)

From Stdlib Require Import Reals Lra ZArith String.
From stdpp Require Import base list strings gmap.

Set Default Proof Using "Type".

(** ** Python outcomes *)

Inductive py_error : Type :=
  | ValueError
  | TypeError
  | IndexError
  | NotImplementedError
  | AttributeError
  | ZeroDivisionError
  | RuntimeError.

Inductive result (A : Type) : Type :=
  | Ok (a : A)
  | Raise (e : py_error).
Arguments Ok {A} a.
Arguments Raise {A} e.

#[global] Instance result_ret : MRet result := fun A a => Ok a.
#[global] Instance result_bind : MBind result := fun A B k m =>
  match m with
  | Ok a => k a
  | Raise e => Raise e
  end.

Fixpoint rmapM {A B : Type} (f : A -> result B) (l : list A) : result (list B) :=
  match l with
  | [] => Ok []
  | x :: l' => y ← f x ; ys ← rmapM f l' ; Ok (y :: ys)
  end.

(** [x[i]] on a dimension of size [n]: [0 <= i < n] is position [i],
    [-n <= i < 0] is position [i + n], anything else is an [IndexError]. *)
Definition py_index (n : nat) (i : Z) : result nat :=
  if bool_decide (0 <= i < Z.of_nat n)%Z then Ok (Z.to_nat i)
  else if bool_decide (- Z.of_nat n <= i < 0)%Z then Ok (Z.to_nat (i + Z.of_nat n))
  else Raise IndexError.

(** ** Python dicts, in insertion order *)

Section dict.
Context {K A : Type} `{EqDecision K}.

Definition dict : Type := list (K * A).

Fixpoint dict_get (k : K) (d : dict) : option A :=
  match d with
  | [] => None
  | (k', v) :: d' => if bool_decide (k = k') then Some v else dict_get k d'
  end.

(** [d[k] = v]: an existing key keeps its place, a new key goes last. *)
Fixpoint dict_set (k : K) (v : A) (d : dict) : dict :=
  match d with
  | [] => [(k, v)]
  | (k', v') :: d' =>
      if bool_decide (k = k') then (k', v) :: d' else (k', v') :: dict_set k v d'
  end.

Fixpoint dict_remove (k : K) (d : dict) : dict :=
  match d with
  | [] => []
  | (k', v') :: d' =>
      if bool_decide (k = k') then d' else (k', v') :: dict_remove k d'
  end.

(** [merged.update(d)] *)
Definition dict_update (merged d : dict) : dict :=
  foldl (fun m kv => dict_set kv.1 kv.2 m) merged d.

(** [unionize_dicts] *)
Definition unionize_dicts (dict_list : list dict) : dict :=
  foldl dict_update [] dict_list.
End dict.
Arguments dict : clear implicits.

(** [add_prefix_to_dict_keys_inplace]: the keys are listed first, then each
    one is popped and stored again under the prefixed name.  The mutated
    dict is returned. *)
Definition add_prefix_to_dict_keys_inplace {A : Type}
    (d : dict string A) (prefix : string) (keys_to_exclude : option (list string))
    : dict string A :=
  foldl
    (fun d key =>
       if match keys_to_exclude with
          | Some ex => bool_decide (key ∈ ex)
          | None => false
          end
       then d
       else match dict_get key d with
            | Some v => dict_set (prefix +:+ key) v (dict_remove key d)
            | None => d
            end)
    d (fst <$> d).

(** The test [keys_to_exclude is not None and key in keys_to_exclude] of
    [add_prefix_to_dict_keys_inplace]. *)
Definition excluded (keys_to_exclude : option (list string)) (key : string) : bool :=
  match keys_to_exclude with
  | Some ex => bool_decide (key ∈ ex)
  | None => false
  end.

(** ** Tensors over the reals *)

Abbreviation vec := (list R) (only parsing).
Abbreviation mat := (list (list R)) (only parsing).
Abbreviation ten3 := (list (list (list R))) (only parsing).

Definition Rsum (l : list R) : R := foldr Rplus 0%R l.

(** [x.logsumexp(dim=-1)] on one vocabulary row. *)
Definition logsumexp (row : list R) : R := ln (Rsum (exp <$> row)).

Definition logsumexp_last (x : ten3) : mat :=
  (fun rows : list (list R) => logsumexp <$> rows) <$> x.

Definition zeros_like (x : mat) : mat :=
  (fun row : list R => (fun _ => 0%R) <$> row) <$> x.

Definition sub2 (x y : mat) : mat := zip_with (zip_with Rminus) x y.
Definition add2 (x y : mat) : mat := zip_with (zip_with Rplus) x y.
Definition scale2 (c : R) (x : mat) : mat :=
  (fun row : list R => Rmult c <$> row) <$> x.

(** [F.mse_loss(x, y, reduction="none")] *)
Definition mse_loss (x y : mat) : mat :=
  zip_with (zip_with (fun a b => ((a - b) * (a - b))%R)) x y.

(** [x.detach()]: the same values, cut from the gradient graph. *)
Definition detach (x : mat) : mat := x.

(** Shape of a rank-3 tensor read off the nested lists. *)
Definition shape3 (x : ten3) : list nat :=
  [length x; length (default [] (head x)); length (default [] (head x ≫= head))].

Definition shaped2 {A : Type} (B T : nat) (x : list (list A)) : Prop :=
  length x = B ∧ Forall (fun row => length row = T) x.

Definition shaped3 (B T V : nat) (x : ten3) : Prop :=
  length x = B ∧ Forall (shaped2 T V) x.

(** [flattened_tensor[torch.arange(n), flattened_index]]: the [k]-th index
    selects in the [k]-th row. *)
Fixpoint gather_rows (rows : list (list R)) (index : list Z) : result (list R) :=
  match index with
  | [] => Ok []
  | a :: index' =>
      match rows with
      | [] => Raise IndexError
      | row :: rows' =>
          j ← py_index (length row) a ;
          rest ← gather_rows rows' index' ;
          Ok (default 0%R (row !! j) :: rest)
      end
  end.

(** [gather_2d_on_last_dim(tensor, index, shape=index.shape)] *)
Definition gather_2d_on_last_dim (tensor : ten3) (index : list (list Z)) : result mat :=
  let flattened_tensor := concat tensor in
  let flattened_index := concat index in
  flattened_gathered_tensor ← gather_rows flattened_tensor flattened_index ;
  Ok (reshape (length <$> index) flattened_gathered_tensor).

(** [x[torch.arange(len(idx)), idx]] *)
Fixpoint index_get_rows (x : mat) (idx : list Z) : result vec :=
  match idx with
  | [] => Ok []
  | i :: idx' =>
      match x with
      | [] => Raise IndexError
      | row :: x' =>
          j ← py_index (length row) i ;
          rest ← index_get_rows x' idx' ;
          Ok (default 0%R (row !! j) :: rest)
      end
  end.

(** [x[torch.arange(len(idx)), idx] = vals], with one value per index: row
    [b] receives [vals[b]] at column [idx[b]]; the rows past [len(idx)] are
    left as they are. *)
Fixpoint index_put_rows (x : mat) (idx : list Z) (vals : vec) : result mat :=
  match idx with
  | [] => Ok x
  | i :: idx' =>
      match x, vals with
      | [], _ => Raise IndexError
      | _ :: _, [] => Raise RuntimeError
      | row :: x', v :: vals' =>
          j ← py_index (length row) i ;
          rest ← index_put_rows x' idx' vals' ;
          Ok (<[j := v]> row :: rest)
      end
  end.

(** [dst[:, :-1] = src] for [src] with one column less than [dst]. *)
Definition assign_but_last (dst src : mat) : mat :=
  zip_with (fun d s => take (length d - 1) s ++ drop (length d - 1) d) dst src.

(** [x[:, 1:]] and [x[:, :-1]] *)
Definition cols_from_1 (x : mat) : mat := drop 1 <$> x.
Definition cols_but_last (x : mat) : mat :=
  (fun row : list R => take (length row - 1) row) <$> x.

(** [rewards.view(-1, 1) - V_]: the reward of a row against each of its columns. *)
Definition rewards_minus (rewards : vec) (V_ : mat) : mat :=
  zip_with (fun r (row : list R) => (fun v => (r - v)%R) <$> row) rewards V_.

(** ** Masked reductions *)

(** [x.mean()] *)
Definition Rmean (l : list R) : R := (Rsum l / INR (length l))%R.

(** Modelled from the spec: the mask of [mask_and_reduce] and of
    [masked_reverse_cumsum] ([trl/core.py], not among the sources).
    Position [t] of a row is valid iff [t < len]; the others are zeroed. *)
Definition mask_row (row : list R) (len : Z) : list R :=
  imap (fun t x => if bool_decide (Z.of_nat t < len)%Z then x else 0%R) row.

(** Modelled from the spec: the reduction of [mask_and_reduce] over the
    time axis of one row, a sum when [sum_over_timesteps] and otherwise,
    when [average_across_timesteps], the sum over [max(len, 1)].  The spec
    leaves the setting with neither flag open; it is read as the sum. *)
Definition reduce_row (average_across_timesteps sum_over_timesteps : bool)
    (row : list R) (len : Z) : R :=
  let masked := mask_row row len in
  if sum_over_timesteps then Rsum masked
  else if average_across_timesteps then (Rsum masked / IZR (Z.max len 1))%R
  else Rsum masked.

(** Modelled from the spec: [mask_and_reduce] is imported from [trl/core.py],
    which is not among the sources.  The spec (4.2): mask by
    [t < sequence_length[i]], zero the invalid positions, sum over time (or
    average, dividing by [max(sequence_length, 1)]), then average over the
    batch.  The two flag settings the loss dispatcher uses are the ones the
    spec describes. *)
Definition mask_and_reduce (sequence : mat) (sequence_length : list Z)
    (average_across_timesteps sum_over_timesteps : bool) : R :=
  Rmean (zip_with (reduce_row average_across_timesteps sum_over_timesteps)
           sequence sequence_length).

(** Modelled from the spec: one row of [masked_reverse_cumsum]. *)
Definition masked_reverse_cumsum_row (row : list R) (len : Z) : list R :=
  imap (fun t (_ : R) => Rsum (drop t (mask_row row len))) row.

(** Modelled from the spec: [masked_reverse_cumsum] is imported from
    [trl/core.py], which is not among the sources.  The spec (4.2): at each
    valid position [t] the sum of the row over [[t, lengths[i])], zero beyond
    the end. *)
Definition masked_reverse_cumsum (sequence : mat) (lengths : list Z) : mat :=
  zip_with masked_reverse_cumsum_row sequence lengths.

(** ** Large-margin classification loss *)

(** [x[indices] = v] with [indices = (batch_indices, sequence_indices,
    index.flatten())]: position [(b, t)] of [index] selects in [x[b][t]]. *)
Fixpoint index_put_last (x : ten3) (index : list (list Z)) (v : R) : result ten3 :=
  match index with
  | [] => Ok x
  | irow :: index' =>
      match x with
      | [] => Raise IndexError
      | xrow :: x' =>
          r ← index_put_rows xrow irow (replicate (length irow) v) ;
          rest ← index_put_last x' index' v ;
          Ok (r :: rest)
      end
  end.

(** [x[indices].view(index.shape)] *)
Fixpoint index_get_last (x : ten3) (index : list (list Z)) : result mat :=
  match index with
  | [] => Ok []
  | irow :: index' =>
      match x with
      | [] => Raise IndexError
      | xrow :: x' =>
          r ← index_get_rows xrow irow ;
          rest ← index_get_last x' index' ;
          Ok (r :: rest)
      end
  end.

(** [row.max()]; the reduction is only reached on a non-empty row. *)
Definition max_row (row : list R) : R :=
  match row with
  | [] => 0%R
  | x :: row' => foldl Rmax x row'
  end.

Definition add3 (x y : ten3) : ten3 := zip_with (zip_with (zip_with Rplus)) x y.

Definition max_last (x : ten3) : mat :=
  (fun rows : list (list R) => max_row <$> rows) <$> x.

Definition large_margin_classification_loss
    (logits : ten3) (expert_actions : list (list Z)) (margin_constant : R)
    : result (mat * dict string mat) :=
  let margin :=
    (fun rows : list (list R) =>
       (fun row : list R => (fun _ => (margin_constant * 1)%R) <$> row) <$> rows)
      <$> logits in
  margin ← index_put_last margin expert_actions 0%R ;
  picked ← index_get_last logits expert_actions ;
  let raw_losses := sub2 (max_last (add3 logits margin)) picked in
  Ok (raw_losses, [("loss"%string, raw_losses)]).

(** The formula of the spec at one position: the maximum over the actions
    [a] of [logits[a] + margin_constant * 1[a <> expert]], minus the logit of
    the expert action.  [expert] is a position of the row. *)
Definition margin_formula (row : list R) (expert : nat) (margin_constant : R) : R :=
  (max_row (imap (fun a x =>
                    x + margin_constant * (if bool_decide (a ≠ expert) then 1 else 0))
              row)
   - default 0 (row !! expert))%R.

(** ** The soft Q-learning losses *)

Section soft_q_losses.
Local Open Scope string_scope.

(** [entropy_from_logits] is imported from [trl/core.py], which is not
    among the sources; it only feeds the logged quantities ["H"], ["H_"]. *)
Variable entropy_from_logits : ten3 -> mat.

(** [sequence_length - 1], the column of the last step of each row. *)
Definition terminal_index (sequence_length : list Z) : list Z :=
  (fun n => (n - 1)%Z) <$> sequence_length.

(** V0: the squared difference of the current and the target [V]. *)
Definition soft_q_loss_with_sparse_rewards_0
    (logits logits_ : ten3) (actions : list (list Z)) (rewards : vec)
    (sequence_length : list Z) : result (mat * dict string mat) :=
  let V := logsumexp_last logits in
  let V_ := logsumexp_last logits_ in
  let raw_losses := mse_loss V V_ in
  Ok (raw_losses, [("V", V); ("V_", V_)]).

(** V1: the target [Q_] is the target [V] shifted by one step, with the
    reward written at the terminal column. *)
Definition soft_q_loss_with_sparse_rewards_1
    (logits logits_ : ten3) (actions : list (list Z)) (rewards : vec)
    (sequence_length : list Z) : result (mat * dict string mat) :=
  Q ← gather_2d_on_last_dim logits actions ;
  let V_ := logsumexp_last logits_ in
  let Q_ := zeros_like Q in
  let Q_ := assign_but_last Q_ (cols_from_1 V_) in
  Q_ ← index_put_rows Q_ (terminal_index sequence_length) rewards ;
  let raw_losses := mse_loss Q Q_ in
  Ok (raw_losses,
      [("Q", Q); ("V", logsumexp_last logits); ("Q_", Q_); ("V_", V_)]).

(** V2: the same in advantage space.  The argument [_recover_mle] of the
    source is never read and is left out. *)
Definition soft_q_loss_with_sparse_rewards_2
    (logits logits_ : ten3) (actions : list (list Z)) (rewards : vec)
    (sequence_length : list Z) : result (mat * dict string mat) :=
  Q ← gather_2d_on_last_dim logits actions ;
  let V := logsumexp_last logits in
  let A := sub2 Q V in
  let Q_ := zeros_like Q in
  let A_ := zeros_like Q in
  let V_ := logsumexp_last logits_ in
  let Q_ := assign_but_last Q_ (cols_from_1 V_) in
  let A_ := assign_but_last A_ (sub2 (cols_from_1 V_) (cols_but_last V_)) in
  terminal_V_ ← index_get_rows V_ (terminal_index sequence_length) ;
  Q_ ← index_put_rows Q_ (terminal_index sequence_length) rewards ;
  A_ ← index_put_rows A_ (terminal_index sequence_length)
         (zip_with Rminus rewards terminal_V_) ;
  let raw_losses := mse_loss A A_ in
  Ok (raw_losses,
      [("Q", Q); ("V", V); ("A", A); ("Q_", Q_); ("V_", V_); ("A_", A_);
       ("H", entropy_from_logits logits); ("H_", entropy_from_logits logits_)]).

(** V3: the reverse cumulative sum of the advantages against
    [reward - V_]. *)
Definition soft_q_loss_with_sparse_rewards_3
    (logits logits_ : ten3) (actions : list (list Z)) (rewards : vec)
    (sequence_length : list Z) (freeze_future_steps : bool)
    : result (mat * dict string mat) :=
  Q ← gather_2d_on_last_dim logits actions ;
  let V := logsumexp_last logits in
  let A := sub2 Q V in
  let V_ := logsumexp_last logits_ in
  let A2 := masked_reverse_cumsum A sequence_length in
  let A2 := if freeze_future_steps then add2 (detach (sub2 A2 A)) A else A2 in
  let raw_losses := mse_loss A2 (rewards_minus rewards V_) in
  Ok (raw_losses, [("Q", Q); ("V", V); ("A", A); ("V_", V_)]).

(** [coefficient * x + (1 - coefficient) * y] *)
Definition mix2 (coefficient : R) (x y : mat) : mat :=
  add2 (scale2 coefficient x) (scale2 (1 - coefficient) y).

Definition soft_q_loss_with_sparse_rewards_2_2_reversed
    (logits logits_ : ten3) (actions : list (list Z)) (rewards : vec)
    (sequence_length : list Z)
    (coefficient margin_constant margin_coefficient : option R)
    : result (mat * dict string mat) :=
  '(raw_losses_2, quantities_to_log_2) ←
    soft_q_loss_with_sparse_rewards_2 logits logits_ actions rewards sequence_length ;
  let quantities_to_log_2 :=
    add_prefix_to_dict_keys_inplace quantities_to_log_2 "0/" None in
  '(raw_losses, quantities_to_log) ←
    match coefficient with
    | Some coefficient =>
        '(raw_losses_2_r, quantities_to_log_2_r) ←
          soft_q_loss_with_sparse_rewards_2
            logits_ logits actions rewards sequence_length ;
        let raw_losses := mix2 coefficient raw_losses_2 raw_losses_2_r in
        let quantities_to_log_2_r :=
          add_prefix_to_dict_keys_inplace quantities_to_log_2_r "1/" None in
        Ok (raw_losses, unionize_dicts [quantities_to_log_2; quantities_to_log_2_r])
    | None => Ok (raw_losses_2, quantities_to_log_2)
    end ;
  match margin_constant, margin_coefficient with
  | Some margin_constant, Some margin_coefficient =>
      '(raw_losses_margin, quantities_to_log_margin) ←
        large_margin_classification_loss logits actions margin_constant ;
      let raw_losses := add2 raw_losses (scale2 margin_coefficient raw_losses_margin) in
      let quantities_to_log_margin :=
        add_prefix_to_dict_keys_inplace quantities_to_log_margin "margin/" None in
      Ok (raw_losses, unionize_dicts [quantities_to_log; quantities_to_log_margin])
  | _, _ => Ok (raw_losses, quantities_to_log)
  end.

Definition soft_q_loss_with_sparse_rewards_3_3_reversed
    (logits logits_ : ten3) (actions : list (list Z)) (rewards : vec)
    (sequence_length : list Z) (coefficient : option R)
    : result (mat * dict string mat) :=
  '(raw_losses_3, quantities_to_log_3) ←
    soft_q_loss_with_sparse_rewards_3
      logits logits_ actions rewards sequence_length false ;
  let quantities_to_log_3 :=
    add_prefix_to_dict_keys_inplace quantities_to_log_3 "0/" None in
  match coefficient with
  | Some coefficient =>
      '(raw_losses_3_r, quantities_to_log_3_r) ←
        soft_q_loss_with_sparse_rewards_3
          logits_ logits actions rewards sequence_length false ;
      let raw_losses := mix2 coefficient raw_losses_3 raw_losses_3_r in
      let quantities_to_log_3_r :=
        add_prefix_to_dict_keys_inplace quantities_to_log_3_r "1/" None in
      Ok (raw_losses, unionize_dicts [quantities_to_log_3; quantities_to_log_3_r])
  | None => Ok (raw_losses_3, quantities_to_log_3)
  end.

(** [(x + y) / 2] *)
Definition half_sum2 (x y : mat) : mat :=
  (fun row : list R => (fun v => (v / 2)%R) <$> row) <$> add2 x y.

Definition soft_q_loss_with_sparse_rewards_2_2_reversed_3_3_reversed
    (logits logits_ : ten3) (actions : list (list Z)) (rewards : vec)
    (sequence_length : list Z) (coefficient : option R)
    : result (mat * dict string mat) :=
  '(raw_losses_2, quantities_to_log_2) ←
    soft_q_loss_with_sparse_rewards_2_2_reversed
      logits logits_ actions rewards sequence_length coefficient None None ;
  '(raw_losses_3, quantities_to_log_3) ←
    soft_q_loss_with_sparse_rewards_3_3_reversed
      logits logits_ actions rewards sequence_length coefficient ;
  let raw_losses := half_sum2 raw_losses_2 raw_losses_3 in
  let quantities_to_log_2 :=
    add_prefix_to_dict_keys_inplace quantities_to_log_2 "v2/" None in
  let quantities_to_log_3 :=
    add_prefix_to_dict_keys_inplace quantities_to_log_3 "v3/" None in
  Ok (raw_losses, unionize_dicts [quantities_to_log_2; quantities_to_log_3]).

(** The [rewards] argument as the dispatcher inspects it: something that
    is not a tensor, or a tensor with its shape and, when it has rank 1,
    its entries. *)
Inductive py_rewards : Type :=
  | RewardsNotTensor
  | RewardsTensor (shape : list nat) (data : vec).

Definition implementations : list string :=
  ["v0"; "v1"; "v2"; "v3"; "v2_v2r"; "v3_v3r"; "v2_v2r_v3_v3r"].

Definition sql_loss_func : Type :=
  ten3 -> ten3 -> list (list Z) -> vec -> list Z -> result (mat * dict string mat).

(** The chain of [if]/[elif] statements that binds [_sql_loss_func]. *)
Definition select_sql_loss_func (implementation : string)
    (coefficient margin_constant margin_coefficient : option R)
    : option sql_loss_func :=
  let _sql_loss_func : option sql_loss_func := None in
  let _sql_loss_func :=
    if bool_decide (implementation = "v0")
    then Some soft_q_loss_with_sparse_rewards_0
    else if bool_decide (implementation = "v1")
    then Some soft_q_loss_with_sparse_rewards_1
    else if bool_decide (implementation = "v2")
    then Some soft_q_loss_with_sparse_rewards_2
    else _sql_loss_func in
  let _sql_loss_func :=
    if bool_decide (implementation = "v3")
    then Some (fun logits logits_ actions rewards sequence_length =>
                 soft_q_loss_with_sparse_rewards_3
                   logits logits_ actions rewards sequence_length false)
    else _sql_loss_func in
  let _sql_loss_func :=
    if bool_decide (implementation = "v2_v2r")
    then Some (fun logits logits_ actions rewards sequence_length =>
                 soft_q_loss_with_sparse_rewards_2_2_reversed
                   logits logits_ actions rewards sequence_length
                   coefficient margin_constant margin_coefficient)
    else _sql_loss_func in
  let _sql_loss_func :=
    if bool_decide (implementation = "v3_v3r")
    then Some (fun logits logits_ actions rewards sequence_length =>
                 soft_q_loss_with_sparse_rewards_3_3_reversed
                   logits logits_ actions rewards sequence_length coefficient)
    else _sql_loss_func in
  let _sql_loss_func :=
    if bool_decide (implementation = "v2_v2r_v3_v3r")
    then Some (fun logits logits_ actions rewards sequence_length =>
                 soft_q_loss_with_sparse_rewards_2_2_reversed_3_3_reversed
                   logits logits_ actions rewards sequence_length coefficient)
    else _sql_loss_func in
  _sql_loss_func.

Definition soft_q_loss_with_sparse_rewards
    (implementation : string) (logits logits_ : ten3) (actions : list (list Z))
    (rewards : py_rewards) (sequence_length : list Z)
    (coefficient margin_constant margin_coefficient : option R)
    : result (R * dict string R) :=
  if bool_decide (implementation ∉ implementations) then Raise ValueError
  else
    match rewards with
    | RewardsNotTensor => Raise TypeError
    | RewardsTensor shape rewards =>
        if bool_decide (length shape ≠ 1%nat ∨ Some (length logits) ≠ head shape)
        then Raise ValueError
        else
          let _sql_loss_func :=
            select_sql_loss_func implementation
              coefficient margin_constant margin_coefficient in
          if bool_decide (shape3 logits ≠ shape3 logits_) then Raise ValueError
          else
            match _sql_loss_func with
            | None => Raise RuntimeError
            | Some _sql_loss_func =>
                '(raw_losses, quantities_to_log) ←
                  _sql_loss_func logits logits_ actions rewards sequence_length ;
                let loss := mask_and_reduce raw_losses sequence_length false true in
                let loss_log :=
                  [("loss", loss);
                   ("sequence_length", Rmean (IZR <$> sequence_length));
                   ("loss-normalized",
                    mask_and_reduce raw_losses sequence_length true false)] in
                Ok (loss, loss_log)
            end
    end.
End soft_q_losses.

(** ** The DDPO loss *)

Module DDPOTrainer.
(** [torch.clamp(x, lo, hi)] *)
Definition clip (x lo hi : R) : R := Rmin (Rmax x lo) hi.

(** Modelled from the spec: [DDPOTrainer.loss] is defined in
    [trl/trainer/ddpo_trainer.py], which is not among the sources (only
    its test [test_loss] is).  The spec (4.3): [unclipped = -advantage *
    ratio], [clipped = -advantage * clip(ratio, 1 - clip_range, 1 +
    clip_range)], loss [= mean(max(unclipped, clipped))]. *)
Definition loss (advantage : vec) (clip_range : R) (ratio : vec) : R :=
  let unclipped_loss := zip_with (fun a r => (- a * r)%R) advantage ratio in
  let clipped_loss :=
    zip_with (fun a r => (- a * clip r (1 - clip_range) (1 + clip_range))%R)
      advantage ratio in
  Rmean (zip_with Rmax unclipped_loss clipped_loss).
End DDPOTrainer.

(** ** The trainer object and the target network *)

Module SoftQLearningTrainer.
Local Open Scope string_scope.

(** The parameters of a network: one list of reals per parameter tensor. *)
Abbreviation params := (list (list R)) (only parsing).

(** Attribute values of a trainer instance. *)
Inductive attr : Type :=
  | AttrNone
  | AttrBool (b : bool)
  | AttrInt (z : Z)
  | AttrFloat (r : R)
  | AttrStr (s : string)
  | AttrModule (p : params)
  | AttrObject.

Definition opt_attr {A : Type} (f : A -> attr) (o : option A) : attr :=
  match o with
  | Some a => f a
  | None => AttrNone
  end.

(** The instance dictionary [self.__dict__]. *)
Abbreviation instance := (gmap string attr) (only parsing).

Definition getattr (self : instance) (name : string) : result attr :=
  match self !! name with
  | Some a => Ok a
  | None => Raise AttributeError
  end.

Record init_args : Type := {
  arg_model : params;
  arg_target_model : option params;
  arg_sql_loss_impl : string;
  arg_target_update_method : option string;
  arg_target_learning_rate : R;
  arg_mix_strategy : string;
  arg_reward_shaping : bool;
  arg_sql_loss_coefficients : option R;
  arg_sql_loss_margin_constant : option R;
  arg_sql_loss_margin_coefficient : option R;
  arg_top_k : option Z;
  arg_top_p : option R;
  arg_beam_width : option Z;
  arg_device : string
}.

(** [__init__]: the attributes it assigns, in its order.  The reward
    function, the tokenizer, the reward-shaping function and the optimizer
    are opaque objects. *)
Definition init (a : init_args) : instance :=
  let self : instance := ∅ in
  let self := <["model" := AttrModule (arg_model a)]> self in
  let self :=
    match arg_target_model a with
    | None => <["target_model" := AttrModule (arg_model a)]> self
    | Some target_model => <["target_model" := AttrModule target_model]> self
    end in
  let self := <["target_learning_rate" := AttrFloat (arg_target_learning_rate a)]> self in
  let self := <["target_sync_method" := opt_attr AttrStr (arg_target_update_method a)]> self in
  let self := <["mix_strategy" := AttrStr (arg_mix_strategy a)]> self in
  let self := <["reward_function" := AttrObject]> self in
  let self := <["tokenizer" := AttrObject]> self in
  let self := <["sql_loss_impl" := AttrStr (arg_sql_loss_impl a)]> self in
  let self := <["reward_shaping" := AttrBool (arg_reward_shaping a)]> self in
  let self := <["sql_loss_coefficients" := opt_attr AttrFloat (arg_sql_loss_coefficients a)]> self in
  let self := <["sql_loss_margin_constant" := opt_attr AttrFloat (arg_sql_loss_margin_constant a)]> self in
  let self := <["sql_loss_margin_coefficient" := opt_attr AttrFloat (arg_sql_loss_margin_coefficient a)]> self in
  let self := <["_top_k" := opt_attr AttrInt (arg_top_k a)]> self in
  let self := <["_top_p" := opt_attr AttrFloat (arg_top_p a)]> self in
  let self := <["_beam_width" := opt_attr AttrInt (arg_beam_width a)]> self in
  let self := <["device" := AttrStr (arg_device a)]> self in
  let self := <["reward_shaping_func" := AttrObject]> self in
  let self := <["optimizer" := AttrObject]> self in
  self.

Definition get_module (self : instance) (name : string) : result params :=
  a ← getattr self name ;
  match a with
  | AttrModule p => Ok p
  | _ => Raise AttributeError
  end.

(** [param_.data.copy_((1 - lr) * param_ + lr * param)] over
    [zip(target.parameters(), model.parameters())]. *)
Definition polyak (lr : R) (target model : params) : params :=
  zip_with (zip_with (fun p_ p => ((1 - lr) * p_ + lr * p)%R)) target model
  ++ drop (length model) target.

Definition sync_target_model (self : instance) (sync_type : string) : result instance :=
  if bool_decide (sync_type = "copy") then
    target_model ← get_module self "target_model" ;
    model ← get_module self "model" ;
    Ok (<["target_model" := AttrModule model]> self)
  else if bool_decide (sync_type = "polyak") then
    target_model ← get_module self "target_model" ;
    model ← get_module self "model" ;
    lr ← getattr self "target_learning_rate" ;
    match lr with
    | AttrFloat lr =>
        Ok (<["target_model" := AttrModule (polyak lr target_model model)]> self)
    | _ => Raise TypeError
    end
  else Raise ValueError.

(** [a == "literal"] for an attribute value [a]. *)
Definition attr_eq_str (a : attr) (s : string) : bool :=
  match a with
  | AttrStr s' => bool_decide (s' = s)
  | _ => false
  end.

(** [step % self.target_sync_steps == 0] *)
Definition divisible (step : Z) (target_sync_steps : attr) : result bool :=
  match target_sync_steps with
  | AttrInt n =>
      if bool_decide (n = 0%Z) then Raise ZeroDivisionError
      else Ok (bool_decide ((step mod n)%Z = 0%Z))
  | _ => Raise TypeError
  end.

(** [ForwardMode] *)
Inductive ForwardMode : Type := SQL_OFF | SQL_ON.

Definition candidate_modes : list ForwardMode := [SQL_OFF; SQL_ON].

(** The modes a [step] runs.  [None] is the local [modes] left unbound by
    the two [if] statements on [self.mix_strategy]: the loop
    [for mode in modes] then stops with an [UnboundLocalError]. *)
Definition step_modes (mix_strategy : attr) (step : Z)
    : option (list ForwardMode) :=
  let modes : option (list ForwardMode) := None in
  let modes :=
    if attr_eq_str mix_strategy "alternate" then
      Some [default SQL_OFF
              (candidate_modes
                 !! Z.to_nat (step mod Z.of_nat (length candidate_modes)))]
    else modes in
  let modes :=
    if attr_eq_str mix_strategy "mix" then Some candidate_modes else modes in
  modes.

(** [mode.value] *)
Definition mode_value (mode : ForwardMode) : string :=
  match mode with
  | SQL_OFF => "SQL_OFF"
  | SQL_ON => "SQL_ON"
  end.

(** The end of [_forward_SQL]: the log of the rewards and the log of the
    loss get the name of the mode as a prefix and are merged with the means
    of the raw and of the shaped rewards.  What the logs hold is opaque. *)
Definition _forward_SQL_log {A : Type} (mode : ForwardMode)
    (rewards_log sql_loss_log : dict string A) (raw_mean shaped_mean : A)
    : dict string A :=
  let rewards_log :=
    add_prefix_to_dict_keys_inplace rewards_log
      (mode_value mode +:+ "/rewards/") None in
  let sql_loss_log :=
    add_prefix_to_dict_keys_inplace sql_loss_log (mode_value mode +:+ "/") None in
  unionize_dicts
    [rewards_log; sql_loss_log;
     [(mode_value mode +:+ "/rewards/raw", raw_mean);
      (mode_value mode +:+ "/rewards/shaped", shaped_mean)]].

Section step.
(** The rest of [step] (forward passes, reward computation, backward
    pass and optimizer step) runs code outside the sources. *)
Context {Batch Log : Type}.
Variable train_on_batch : instance -> Batch -> Z -> result (instance * Log).

(** The target synchronisation that opens [step]. *)
Definition step_sync (self : instance) (step : Z) : result instance :=
  target_sync_method ← getattr self "target_sync_method" ;
  if attr_eq_str target_sync_method "polyak" then
    sync_target_model self "polyak"
  else if attr_eq_str target_sync_method "copy" then
    target_sync_steps ← getattr self "target_sync_steps" ;
    d ← divisible step target_sync_steps ;
    if (d : bool) then sync_target_model self "copy" else Ok self
  else Ok self.

Definition step (self : instance) (batch : Batch) (step : Z)
    : result (instance * Log) :=
  self ← step_sync self step ;
  train_on_batch self batch step.
End step.
End SoftQLearningTrainer.

(** ** Nested containers of tensors *)

Module Nested.
Inductive device : Type := Cpu | Cuda.

(** The storage behind a tensor: where it lives and what it holds. *)
Record storage : Type := { st_device : device; st_data : list R }.

(** The store of tensor storages; a tensor is known by the location of
    its storage, and a new storage is allocated at the end. *)
Abbreviation heap := (list storage) (only parsing).
Abbreviation loc := nat (only parsing).

(** Dict keys: strings, and integers for the keys that are not [str]. *)
Inductive pykey : Type :=
  | KeyStr (s : string)
  | KeyInt (z : Z).

#[global] Instance pykey_eq_dec : EqDecision pykey.
Proof. solve_decision. Defined.

(** Python values, with tensor leaves of type [T]: locations for the
    objects of a program, contents for what an observer reads. *)
#[warnings="-register-all"]
Inductive pyobj (T : Type) : Type :=
  | PList (l : list (pyobj T))
  | PTuple (l : list (pyobj T))
  | PDict (items : list (pykey * pyobj T))
  | PTensor (t : T)
  | PNdarray (t : T)
  | PNone
  | PBool (b : bool)
  | PInt (z : Z)
  | PFloat (r : R)
  | PStr (s : string)
  | POther.
Arguments PList {T} l.
Arguments PTuple {T} l.
Arguments PDict {T} items.
Arguments PTensor {T} t.
Arguments PNdarray {T} t.
Arguments PNone {T}.
Arguments PBool {T} b.
Arguments PInt {T} z.
Arguments PFloat {T} r.
Arguments PStr {T} s.
Arguments POther {T}.

Fixpoint obj_map {T U : Type} (f : T -> U) (obj : pyobj T) : pyobj U :=
  match obj with
  | PList l => PList (obj_map f <$> l)
  | PTuple l => PTuple (obj_map f <$> l)
  | PDict items => PDict ((fun kv => (kv.1, obj_map f kv.2)) <$> items)
  | PTensor t => PTensor (f t)
  | PNdarray t => PNdarray (f t)
  | PNone => PNone
  | PBool b => PBool b
  | PInt z => PInt z
  | PFloat r => PFloat r
  | PStr s => PStr s
  | POther => POther
  end.

(** What an observer reads from an object: every tensor leaf replaced by
    the data of its storage. *)
Definition contents (σ : heap) (obj : pyobj loc) : pyobj (option (list R)) :=
  obj_map (fun l => st_data <$> σ !! l) obj.

(** The storage locations an object reaches. *)
Fixpoint obj_locs (obj : pyobj loc) : list loc :=
  match obj with
  | PList l | PTuple l => l ≫= obj_locs
  | PDict items => items ≫= (fun kv => obj_locs kv.2)
  | PTensor t | PNdarray t => [t]
  | _ => []
  end.

Definition is_str_key (k : pykey) : bool :=
  match k with
  | KeyStr _ => true
  | KeyInt _ => false
  end.

(** The structures of the round-trip property: dicts with (distinct)
    string keys, lists, tensors, scalars, booleans, strings and [None]. *)
Fixpoint plain {T : Type} (obj : pyobj T) : bool :=
  match obj with
  | PList l => forallb plain l
  | PDict items =>
      forallb (fun kv => is_str_key kv.1 && plain kv.2) items
      && bool_decide (NoDup (fst <$> items))
  | PTensor _ | PNone | PBool _ | PInt _ | PFloat _ | PStr _ => true
  | PTuple _ | PNdarray _ | POther => false
  end.

(** [_operation] of [nested_detach_and_clone]: [X.detach().clone()]
    allocates a copy of the storage of [X]; [.cpu()] is the same tensor
    when it is on the CPU already and a further copy otherwise;
    [.numpy()] is an array over the memory of the (CPU) tensor. *)
Definition _operation (to_cpu to_numpy : bool) (X : loc) (σ : heap)
    : result (pyobj loc * heap) :=
  match σ !! X with
  | None => Raise RuntimeError
  | Some s =>
      let _X := length σ in
      let σ := σ ++ [s] in
      let '(_X, dev, σ) :=
        if to_cpu then
          match st_device s with
          | Cpu => (_X, Cpu, σ)
          | Cuda => (length σ, Cpu, σ ++ [{| st_device := Cpu; st_data := st_data s |}])
          end
        else (_X, st_device s, σ) in
      if to_numpy then
        match dev with
        | Cpu => Ok (PNdarray _X, σ)
        | Cuda => Raise TypeError
        end
      else Ok (PTensor _X, σ)
  end.

Fixpoint nested_tensor_operation
    (tensor_operation : loc -> heap -> result (pyobj loc * heap))
    (obj : pyobj loc) (σ : heap) {struct obj} : result (pyobj loc * heap) :=
  match obj with
  | PList l | PTuple l =>
      '(l', σ) ←
        (fix go (l : list (pyobj loc)) (σ : heap) {struct l}
           : result (list (pyobj loc) * heap) :=
           match l with
           | [] => Ok ([], σ)
           | _obj :: l =>
               '(o, σ) ← nested_tensor_operation tensor_operation _obj σ ;
               '(l', σ) ← go l σ ;
               Ok (o :: l', σ)
           end) l σ ;
      Ok (PList l', σ)
  | PDict items =>
      '(new_dict_obj, σ) ←
        (fix go (items : list (pykey * pyobj loc))
             (new_dict_obj : dict pykey (pyobj loc)) (σ : heap) {struct items}
           : result (dict pykey (pyobj loc) * heap) :=
           match items with
           | [] => Ok (new_dict_obj, σ)
           | (key, val) :: items =>
               if is_str_key key then
                 '(v, σ) ← nested_tensor_operation tensor_operation val σ ;
                 go items (dict_set key v new_dict_obj) σ
               else Raise NotImplementedError
           end) items [] σ ;
      Ok (PDict new_dict_obj, σ)
  | PTensor t => tensor_operation t σ
  | PNone => Ok (obj, σ)
  | PBool _ => Ok (obj, σ)
  | PInt _ | PFloat _ | PStr _ => Ok (obj, σ)
  | PNdarray _ | POther => Raise TypeError
  end.

Definition nested_detach_and_clone (obj : pyobj loc) (to_cpu to_numpy : bool)
    (σ : heap) : result (pyobj loc * heap) :=
  if negb to_cpu && to_numpy then Raise ValueError
  else nested_tensor_operation (_operation to_cpu to_numpy) obj σ.

(** The two loops of [nested_tensor_operation] on their own: the list
    comprehension and the loop over [obj.items()]. *)
Definition nested_list
    (tensor_operation : loc -> heap -> result (pyobj loc * heap))
    : list (pyobj loc) -> heap -> result (list (pyobj loc) * heap) :=
  fix go (l : list (pyobj loc)) (σ : heap) {struct l} :=
    match l with
    | [] => Ok ([], σ)
    | _obj :: l =>
        '(o, σ) ← nested_tensor_operation tensor_operation _obj σ ;
        '(l', σ) ← go l σ ;
        Ok (o :: l', σ)
    end.

Definition nested_items
    (tensor_operation : loc -> heap -> result (pyobj loc * heap))
    : list (pykey * pyobj loc) -> dict pykey (pyobj loc) -> heap ->
      result (dict pykey (pyobj loc) * heap) :=
  fix go (items : list (pykey * pyobj loc))
      (new_dict_obj : dict pykey (pyobj loc)) (σ : heap) {struct items} :=
    match items with
    | [] => Ok (new_dict_obj, σ)
    | (key, val) :: items =>
        if is_str_key key then
          '(v, σ) ← nested_tensor_operation tensor_operation val σ ;
          go items (dict_set key v new_dict_obj) σ
        else Raise NotImplementedError
    end.

(** The storages of [obj] are allocated in [σ]. *)
Definition allocated (σ : heap) (obj : pyobj loc) : Prop :=
  Forall (fun l => l < length σ) (obj_locs obj).

(** The storages of [obj] were allocated after those of [σ], in [σ']. *)
Definition fresh_in (σ σ' : heap) (obj : pyobj loc) : Prop :=
  Forall (fun l => length σ <= l < length σ') (obj_locs obj).

(** What the traversal with [X.detach().clone()] does to one value: it
    returns a value with the contents of the source, over storages
    allocated after those of [σ]. *)
Definition clones (to_cpu : bool) (obj : pyobj loc) : Prop :=
  forall σ : heap,
    allocated σ obj ->
    exists obj' new,
      nested_tensor_operation (_operation to_cpu false) obj σ = Ok (obj', σ ++ new)
      /\ contents (σ ++ new) obj' = contents σ obj
      /\ fresh_in σ (σ ++ new) obj'.
(** The values the traversal accepts: lists, tuples, dicts whose keys are
    strings, tensors, [None], booleans, numbers and strings. *)
Fixpoint supported {T : Type} (obj : pyobj T) : bool :=
  match obj with
  | PList l | PTuple l => forallb supported l
  | PDict items => forallb (fun kv => is_str_key kv.1 && supported kv.2) items
  | PTensor _ | PNone | PBool _ | PInt _ | PFloat _ | PStr _ => true
  | PNdarray _ | POther => false
  end.

(** Every tensor of [obj] lives on the CPU. *)
Definition on_cpu (σ : list storage) (obj : pyobj nat) : Prop :=
  Forall (fun l => st_device <$> σ !! l = Some Cpu) (obj_locs obj).
End Nested.

(** ** The DDPO configuration *)

Module DDPOConfig.
Local Open Scope string_scope.

(** The values of the fields. *)
Inductive value : Type :=
  | VNone
  | VBool (b : bool)
  | VInt (z : Z)
  | VFloat (r : R)
  | VStr (s : string)
  | VOther.

(** The fields of the dataclass with their defaults, in the order of the
    class body. *)
Definition fields : list (string * value) :=
  [("run_name", VStr "");
   ("seed", VInt 42);
   ("logdir", VStr "logs");
   ("num_epochs", VInt 100);
   ("save_freq", VInt 20);
   ("num_checkpoint_limit", VInt 5);
   ("mixed_precision", VStr "fp16");
   ("allow_tf32", VBool true);
   ("resume_from", VStr "");
   ("use_lora", VBool true);
   ("pretrained_model", VStr "runwayml/stable-diffusion-v1-5");
   ("pretrained_revision", VStr "main");
   ("sample_num_steps", VInt 50);
   ("sample_eta", VFloat 1);
   ("sample_guidance_scale", VFloat 5);
   ("sample_batch_size", VInt 1);
   ("sample_num_batches_per_epoch", VInt 2);
   ("train_batch_size", VInt 1);
   ("train_use_8bit_adam", VBool false);
   ("train_learning_rate", VFloat (3 / 10000));
   ("train_adam_beta1", VFloat (9 / 10));
   ("train_adam_beta2", VFloat (999 / 1000));
   ("train_adam_weight_decay", VFloat (1 / 10000));
   ("train_adam_epsilon", VFloat (1 / 100000000));
   ("train_gradient_accumulation_steps", VInt 1);
   ("train_max_grad_norm", VFloat 1);
   ("train_num_inner_epochs", VInt 1);
   ("train_cfg", VBool true);
   ("train_adv_clip_max", VInt 5);
   ("train_clip_range", VFloat (1 / 10000));
   ("train_timestep_fraction", VFloat 1);
   ("per_prompt_stat_tracking", VBool false);
   ("per_prompt_stat_tracking_buffer_size", VInt 16);
   ("per_prompt_stat_tracking_min_count", VInt 16);
   ("async_reward_computation", VBool false)].

(** [DDPOConfig(...)] called with keyword arguments, through the
    initialiser that [@dataclass] generates: a
    keyword that is not a field is a [TypeError]; every field takes the
    value of its keyword, or its default. *)
Definition init (kwargs : dict string value) : result (dict string value) :=
  if forallb (fun kv => bool_decide (kv.1 ∈ fields.*1)) kwargs
  then Ok ((fun f => (f.1, default f.2 (dict_get f.1 kwargs))) <$> fields)
  else Raise TypeError.
End DDPOConfig.

(** ** The image logger of the tuning script *)

Section image_outputs_logger.
Local Open Scope string_scope.
Context {Image Other : Type}.

(** [image.unsqueeze(0)] and the format [{reward:.2f}] belong to the tensor
    framework and to Python. *)
Variable unsqueeze : Image -> Image.
Variable format_2f : R -> string.

(** [f"{prompt:.25} | {reward:.2f}"]: the first 25 characters of the
    prompt and the formatted reward. *)
Definition image_key (prompt : string) (reward : R) : string :=
  String.substring 0 25 prompt +:+ " | " +:+ format_2f reward.

(** The loop [for i, image in enumerate(images)], from index [i] on. *)
Fixpoint image_outputs_loop (i : nat) (images : list Image)
    (prompts : list string) (rewards : list R) (logged : dict string Image)
    : result (dict string Image) :=
  match images with
  | [] => Ok logged
  | image :: images =>
      match prompts !! i with
      | None => Raise IndexError
      | Some prompt =>
          match rewards !! i with
          | None => Raise IndexError
          | Some reward =>
              image_outputs_loop (S i) images prompts rewards
                (dict_set (image_key prompt reward) (unsqueeze image) logged)
          end
      end
  end.

(** [image_outputs_logger]: the dict and the step that are handed to
    [accelerate_logger.log_images]. *)
Definition image_outputs_logger
    (image_data : list (list Image * list string * Other * list R))
    (global_step : Z) : result (dict string Image * Z) :=
  match last image_data with
  | None => Raise IndexError
  | Some (images, prompts, _, rewards) =>
      logged ← image_outputs_loop 0 images prompts rewards [] ;
      Ok (logged, global_step)
  end.
End image_outputs_logger.

(** ** Well-formed batches *)

(** [i] indexes a dimension of size [n]. *)
Definition index_ok (n : nat) (i : Z) : Prop :=
  (- Z.of_nat n <= i < Z.of_nat n)%Z.

(** The position a valid index [i] denotes. *)
Definition norm_index (n : nat) (i : Z) : nat :=
  Z.to_nat (if bool_decide (0 <= i)%Z then i else (i + Z.of_nat n)%Z).

Definition pick (row : list R) (a : Z) : R :=
  default 0%R (row !! norm_index (length row) a).

Definition elem2 {A : Type} (x : list (list A)) (b t : nat) : option A :=
  x !! b ≫= (fun row => row !! t).

(** Every index of [idx] is valid for its row of [x]. *)
Definition rows_index_ok (x : list (list R)) (idx : list Z) : Prop :=
  Forall2 (fun row i => index_ok (length row) i) x idx.

(** The values of [x[arange, idx]] and of the rows after
    [x[arange, idx] = vals], for valid indices. *)
Definition pick2 (logits : ten3) (actions : list (list Z)) : mat :=
  zip_with (zip_with pick) logits actions.

Definition put (row : list R) (iv : Z * R) : list R :=
  <[norm_index (length row) iv.1 := iv.2]> row.

(** A batch of [B] rows, [T] time steps and [V] actions: the shapes the
    docstring of the dispatcher lists, actions that index the vocabulary
    and lengths between [0] and [T]. *)
Record batch_ok (B T V : nat) (logits logits_ : ten3) (actions : list (list Z))
    (rewards : vec) (sequence_length : list Z) : Prop := {
  ok_logits : shaped3 B T V logits;
  ok_logits_ : shaped3 B T V logits_;
  ok_actions : shaped2 B T actions;
  ok_actions_range : Forall (Forall (index_ok V)) actions;
  ok_rewards : length rewards = B;
  ok_lengths : length sequence_length = B;
  ok_lengths_range : Forall (fun n => (0 <= n <= Z.of_nat T)%Z) sequence_length
}.

(** * Properties *)

(** Evaluate the binds whose first computation is known. *)
Ltac res_simpl :=
  cbv beta iota delta [mbind result_bind mret result_ret].

(** ** Sums and means *)

Lemma Rsum_zero (l : list R) : Forall (eq 0%R) l -> Rsum l = 0%R.
Proof.
  induction 1 as [|x l <- _ IH]; simpl; [reflexivity | rewrite IH; lra].
Qed.

Lemma Rmean_zero (l : list R) : Forall (eq 0%R) l -> Rmean l = 0%R.
Proof.
  intros H. unfold Rmean. rewrite (Rsum_zero _ H). unfold Rdiv. apply Rmult_0_l.
Qed.

Lemma mask_row_zero (row : list R) (len : Z) :
  Forall (eq 0%R) row -> Forall (eq 0%R) (mask_row row len).
Proof.
  intros H. apply Forall_lookup. intros t x Hx.
  unfold mask_row in Hx. rewrite list_lookup_imap in Hx.
  destruct (row !! t) as [y|] eqn:Hy; simplify_eq/=.
  case_bool_decide; [|reflexivity].
  eapply Forall_lookup_1 in H; eauto.
Qed.

Lemma mask_row_nonpositive (row : list R) (len : Z) :
  (len <= 0)%Z -> Forall (eq 0%R) (mask_row row len).
Proof.
  intros Hlen. apply Forall_lookup. intros t x Hx.
  unfold mask_row in Hx. rewrite list_lookup_imap in Hx.
  destruct (row !! t) as [y|] eqn:Hy; simplify_eq/=.
  case_bool_decide; [lia | reflexivity].
Qed.

Lemma reduce_row_zero (avg sm : bool) (row : list R) (len : Z) :
  Forall (eq 0%R) row -> reduce_row avg sm row len = 0%R.
Proof.
  intros H. unfold reduce_row.
  rewrite (Rsum_zero _ (mask_row_zero _ len H)).
  destruct sm, avg; try reflexivity. unfold Rdiv. apply Rmult_0_l.
Qed.

Lemma reduce_row_nonpositive (avg sm : bool) (row : list R) (len : Z) :
  (len <= 0)%Z -> reduce_row avg sm row len = 0%R.
Proof.
  intros H. unfold reduce_row.
  rewrite (Rsum_zero _ (mask_row_nonpositive row len H)).
  destruct sm, avg; try reflexivity. unfold Rdiv. apply Rmult_0_l.
Qed.

Lemma mask_and_reduce_zero (raw : list (list R)) (sl : list Z) (avg sm : bool) :
  Forall (Forall (eq 0%R)) raw -> mask_and_reduce raw sl avg sm = 0%R.
Proof.
  intros H. unfold mask_and_reduce. apply Rmean_zero.
  apply Forall_lookup. intros i x Hx.
  apply lookup_zip_with_Some in Hx as (row & len & -> & Hrow & _).
  symmetry. apply reduce_row_zero. eapply Forall_lookup_1 in H; eauto.
Qed.

Lemma mse_loss_diag (x : list (list R)) : Forall (Forall (eq 0%R)) (mse_loss x x).
Proof.
  apply Forall_lookup. intros b row Hrow.
  apply lookup_zip_with_Some in Hrow as (r1 & r2 & -> & H1 & H2). simplify_eq.
  apply Forall_lookup. intros t v Hv.
  apply lookup_zip_with_Some in Hv as (a1 & a2 & -> & Ha1 & Ha2). simplify_eq.
  lra.
Qed.

(** The reverse cumulative sum of an all-ones row of full length counts
    down to one, and stops at the length of a shorter row. *)
Example masked_reverse_cumsum_ones :
  masked_reverse_cumsum [[1; 1; 1]; [1; 1; 1]]%R [3%Z; 2%Z]
  = [[3; 2; 1]; [2; 1; 0]]%R.
Proof.
  unfold masked_reverse_cumsum, masked_reverse_cumsum_row, mask_row. simpl.
  repeat f_equal; lra.
Qed.

(** The default reduction sums over the valid time steps and averages over
    the batch. *)
Example mask_and_reduce_two_rows :
  mask_and_reduce [[1; 2; 4]; [8; 16; 32]]%R [2%Z; 0%Z] false true = (3 / 2)%R.
Proof.
  unfold mask_and_reduce, Rmean, reduce_row, mask_row. simpl. lra.
Qed.

(** ** The DDPO regression anchor *)

(** C6: with [advantage = [-1.0]], [clip_range = 1e-4] and [ratio = [1.0]]
    the DDPO loss [mean(max(-A * r, -A * clip(r, 1 - c, 1 + c)))] is
    exactly [1]. *)
Theorem ddpo_loss_regression_anchor :
  DDPOTrainer.loss [(-1)%R] (1 / 10000)%R [1%R] = 1%R.
Proof.
  unfold DDPOTrainer.loss, DDPOTrainer.clip, Rmean. simpl.
  assert (Hmax : Rmax 1 (1 - 1 / 10000) = 1%R) by (apply Rmax_left; lra).
  rewrite Hmax.
  assert (Hmin : Rmin 1 (1 + 1 / 10000) = 1%R) by (apply Rmin_left; lra).
  rewrite Hmin.
  replace (- -1 * 1)%R with 1%R by lra.
  rewrite Rmax_left by lra. lra.
Qed.

(** ** The dispatcher and the variants *)

Section soft_q_properties.
Local Open Scope string_scope.
Variable entropy_from_logits : ten3 -> mat.

Lemma add_sub_row (r' row : list R) :
  length r' = length row ->
  zip_with Rplus (zip_with Rminus r' row) row = r'.
Proof.
  revert row. induction r' as [|x r' IH]; intros [|y row] Hlen;
    simplify_eq/=; [reflexivity|].
  f_equal; [lra | auto].
Qed.

Lemma freeze_future_steps_values (A : list (list R)) (sl : list Z) :
  add2 (detach (sub2 (masked_reverse_cumsum A sl) A)) A
  = masked_reverse_cumsum A sl.
Proof.
  unfold add2, detach, sub2, masked_reverse_cumsum.
  revert sl. induction A as [|row A IH]; intros [|len sl]; simpl; try reflexivity.
  f_equal; [|apply IH].
  apply add_sub_row. unfold masked_reverse_cumsum_row. apply length_imap.
Qed.


(** C4: with [logits_] equal to [logits] every raw loss of the V0 variant
    is [0], and the dispatcher called with ["v0"] on a rank-1 [rewards]
    tensor of the batch size returns the loss [0]. *)
Theorem soft_q_v0_same_logits_loss_zero
    (logits : ten3) (actions : list (list Z)) (rewards : list R)
    (sequence_length : list Z)
    (coefficient margin_constant margin_coefficient : option R) :
  (exists raw_losses quantities_to_log,
      soft_q_loss_with_sparse_rewards_0
        logits logits actions rewards sequence_length
      = Ok (raw_losses, quantities_to_log)
      /\ Forall (Forall (eq 0%R)) raw_losses)
  /\ exists loss_log,
      soft_q_loss_with_sparse_rewards entropy_from_logits "v0"
        logits logits actions (RewardsTensor [length logits] rewards)
        sequence_length coefficient margin_constant margin_coefficient
      = Ok (0%R, loss_log).
Proof.
  split.
  - eexists _, _. split; [reflexivity | apply mse_loss_diag].
  - unfold soft_q_loss_with_sparse_rewards.
    rewrite bool_decide_eq_false_2
      by (intros H; apply H; unfold implementations; set_solver).
    rewrite bool_decide_eq_false_2 by (simpl; intros [H|H]; congruence).
    rewrite (bool_decide_eq_false_2 (shape3 logits ≠ shape3 logits))
      by (intros H; apply H; reflexivity).
    simpl.
    rewrite !mask_and_reduce_zero by apply mse_loss_diag.
    eexists. reflexivity.
Qed.

End soft_q_properties.

(** ** Target synchronisation in [step] *)

Section target_sync.
Import SoftQLearningTrainer.
Local Open Scope string_scope.
Context {Batch Log : Type}.
Variable train_on_batch : instance -> Batch -> Z -> result (instance * Log).

(** [__init__] never assigns [target_sync_steps]. *)
Lemma init_no_target_sync_steps (a : init_args) :
  getattr (init a) "target_sync_steps" = Raise AttributeError.
Proof.
  unfold getattr, init. destruct (arg_target_model a); reflexivity.
Qed.

Lemma init_target_sync_method (a : init_args) :
  getattr (init a) "target_sync_method"
  = Ok (opt_attr AttrStr (arg_target_update_method a)).
Proof.
  unfold getattr, init. destruct (arg_target_model a); reflexivity.
Qed.

(** C7 (what the code does): on a trainer built with the ["copy"] method
    every [step], whatever its step number, stops with [AttributeError] at
    the read of [self.target_sync_steps], which [__init__] never assigns:
    the target is never copied and no step completes. *)
Lemma step_copy_attribute_error (a : init_args) (batch : Batch) (n : Z) :
  arg_target_update_method a = Some "copy" ->
  step train_on_batch (init a) batch n = Raise AttributeError.
Proof.
  intros Hcopy. unfold step, step_sync.
  rewrite init_target_sync_method, Hcopy. simpl.
  rewrite init_no_target_sync_steps. reflexivity.
Qed.

(** What [sync_target_model("copy")] itself does: the parameters of the
    target become those of the trainable model. *)
Lemma sync_target_model_copy (a : init_args) :
  sync_target_model (init a) "copy"
  = Ok (<["target_model" := AttrModule (arg_model a)]> (init a)).
Proof.
  unfold sync_target_model, get_module, getattr, init. simpl.
  destruct (arg_target_model a); reflexivity.
Qed.
(** With the attribute assigned by hand the branch does what it was
    written for: a hard copy on the steps divisible by [target_sync_steps],
    nothing on the others. *)
Lemma step_sync_copy_with_target_sync_steps (a : init_args) (n k : Z) :
  arg_target_update_method a = Some "copy" ->
  n ≠ 0%Z ->
  let self := <["target_sync_steps" := AttrInt n]> (init a) in
  step_sync self k
  = if bool_decide ((k mod n)%Z = 0%Z)
    then Ok (<["target_model" := AttrModule (arg_model a)]> self)
    else Ok self.
Proof.
  intros Hcopy Hn self. unfold step_sync.
  assert (Hm : getattr self "target_sync_method" = Ok (AttrStr "copy")).
  { unfold self, getattr, init. rewrite Hcopy.
    destruct (arg_target_model a); reflexivity. }
  assert (Hs : getattr self "target_sync_steps" = Ok (AttrInt n)).
  { unfold self, getattr, init. destruct (arg_target_model a); reflexivity. }
  rewrite Hm. res_simpl. simpl attr_eq_str. cbv iota.
  rewrite Hs. res_simpl. unfold divisible.
  rewrite (bool_decide_eq_false_2 (n = 0%Z)) by exact Hn.
  case_bool_decide; [|reflexivity].
  unfold sync_target_model, get_module, getattr, self, init. simpl.
  destruct (arg_target_model a); reflexivity.
Qed.
End target_sync.

(** ** Indexing *)

Section indexing.
Implicit Types (row : list R) (x : list (list R)) (idx : list Z).

Lemma norm_index_lt (n : nat) (i : Z) : index_ok n i -> norm_index n i < n.
Proof. unfold index_ok, norm_index. intros H. case_bool_decide; lia. Qed.

Lemma py_index_ok (n : nat) (i : Z) :
  index_ok n i -> py_index n i = Ok (norm_index n i).
Proof.
  unfold index_ok, py_index, norm_index. intros H.
  destruct (decide (0 <= i)%Z) as [Hi|Hi].
  - rewrite !bool_decide_eq_true_2 by lia. reflexivity.
  - rewrite bool_decide_eq_false_2 by lia.
    rewrite bool_decide_eq_true_2 by lia.
    rewrite bool_decide_eq_false_2 by lia. reflexivity.
Qed.

(** The last valid position is what the index [-1] denotes. *)
Lemma norm_index_minus_1 (n : nat) : norm_index n (-1) = n - 1.
Proof. unfold norm_index. rewrite bool_decide_eq_false_2 by lia. lia. Qed.

Lemma norm_index_nonneg (n : nat) (i : Z) :
  (0 <= i)%Z -> norm_index n i = Z.to_nat i.
Proof. intros H. unfold norm_index. rewrite bool_decide_eq_true_2 by lia. done. Qed.

Lemma rows_index_ok_shaped (B T : nat) x idx :
  shaped2 B T x -> length idx = B -> Forall (index_ok T) idx ->
  rows_index_ok x idx.
Proof.
  intros [HB HT] Hlen Hidx. apply Forall2_same_length_lookup_2; [congruence|].
  intros b row i Hrow Hi.
  rewrite (Forall_lookup_1 _ _ _ _ HT Hrow).
  exact (Forall_lookup_1 _ _ _ _ Hidx Hi).
Qed.

Lemma index_get_rows_ok x idx :
  rows_index_ok x idx -> index_get_rows x idx = Ok (zip_with pick x idx).
Proof.
  induction 1 as [|row i x idx Hi _ IH]; simpl; [reflexivity|].
  rewrite (py_index_ok _ _ Hi). simpl. rewrite IH. reflexivity.
Qed.

Lemma index_put_rows_ok x idx (vals : list R) :
  rows_index_ok x idx -> length vals = length idx ->
  index_put_rows x idx vals = Ok (zip_with put x (zip idx vals)).
Proof.
  intros H. revert vals.
  induction H as [|row i x idx Hi _ IH]; intros [|v vals] Hlen;
    simplify_eq/=; [reflexivity|].
  rewrite (py_index_ok _ _ Hi). simpl. rewrite (IH vals) by done. reflexivity.
Qed.

Lemma length_put row iv : length (put row iv) = length row.
Proof. apply length_insert. Qed.

Lemma gather_rows_app x1 x2 idx1 idx2 :
  rows_index_ok x1 idx1 ->
  gather_rows (x1 ++ x2) (idx1 ++ idx2)
  = rest ← gather_rows x2 idx2 ; Ok (zip_with pick x1 idx1 ++ rest).
Proof.
  induction 1 as [|row i x idx Hi _ IH]; simpl.
  - destruct (gather_rows x2 idx2); reflexivity.
  - rewrite (py_index_ok _ _ Hi). simpl. rewrite IH.
    destruct (gather_rows x2 idx2); reflexivity.
Qed.

Lemma gather_rows_concat (X : list (list (list R))) (I : list (list Z)) :
  Forall2 rows_index_ok X I ->
  gather_rows (concat X) (concat I)
  = Ok (concat (zip_with (zip_with pick) X I)).
Proof.
  induction 1 as [|x idx X I H _ IH]; simpl; [reflexivity|].
  rewrite (gather_rows_app _ _ _ _ H), IH. reflexivity.
Qed.

Lemma reshape_concat {A C : Type} (I : list (list C)) (Z : list (list A)) :
  Forall2 (fun i z => length i = length z) I Z ->
  reshape (length <$> I) (concat Z) = Z.
Proof.
  induction 1 as [|i z I Z Hlen _ IH]; [reflexivity|].
  rewrite fmap_cons. cbn [reshape concat].
  rewrite Hlen, take_app_length, drop_app_length, IH. reflexivity.
Qed.

Lemma actions_index_ok (B T V : nat) (logits : list (list (list R)))
    (actions : list (list Z)) :
  shaped3 B T V logits -> shaped2 B T actions ->
  Forall (Forall (index_ok V)) actions ->
  Forall2 rows_index_ok logits actions.
Proof.
  intros [HB HT] [HB' HT'] Hr.
  apply Forall2_same_length_lookup_2; [congruence|].
  intros b x idx Hx Hidx.
  apply (rows_index_ok_shaped T V).
  - exact (Forall_lookup_1 _ _ _ _ HT Hx).
  - exact (Forall_lookup_1 _ _ _ _ HT' Hidx).
  - exact (Forall_lookup_1 _ _ _ _ Hr Hidx).
Qed.

Lemma gather_2d_on_last_dim_ok (logits : list (list (list R)))
    (actions : list (list Z)) :
  Forall2 rows_index_ok logits actions ->
  gather_2d_on_last_dim logits actions = Ok (pick2 logits actions).
Proof.
  intros H. unfold gather_2d_on_last_dim.
  rewrite (gather_rows_concat _ _ H). simpl. f_equal.
  apply reshape_concat. unfold pick2.
  clear -H. induction H as [|x idx X I Hx _ IH]; simpl; constructor; [|done].
  rewrite length_zip_with. apply Forall2_length in Hx. lia.
Qed.
End indexing.

(** ** Positions of rank-2 tensors *)

Section positions.
Context {A B C : Type}.

Lemma elem2_zip_with (f : A -> B -> C) (X : list (list A)) (Y : list (list B))
    (b t : nat) (x : A) (y : B) :
  elem2 X b t = Some x -> elem2 Y b t = Some y ->
  elem2 (zip_with (zip_with f) X Y) b t = Some (f x y).
Proof.
  unfold elem2. intros HX HY.
  destruct (X !! b) as [rx|] eqn:Hrx; simplify_eq/=.
  destruct (Y !! b) as [ry|] eqn:Hry; simplify_eq/=.
  rewrite lookup_zip_with, Hrx, Hry. simpl.
  rewrite lookup_zip_with, HX, HY. reflexivity.
Qed.

Lemma elem2_fmap (f : A -> B) (X : list (list A)) (b t : nat) :
  elem2 ((fun row : list A => f <$> row) <$> X) b t = f <$> elem2 X b t.
Proof.
  unfold elem2. rewrite list_lookup_fmap.
  destruct (X !! b) as [rx|]; simpl; [|reflexivity].
  apply list_lookup_fmap.
Qed.

Lemma shaped2_zip_with (f : A -> B -> C) (n m : nat)
    (X : list (list A)) (Y : list (list B)) :
  shaped2 n m X -> shaped2 n m Y -> shaped2 n m (zip_with (zip_with f) X Y).
Proof.
  intros [HX1 HX2] [HY1 HY2]. split.
  - rewrite length_zip_with. lia.
  - apply Forall_lookup. intros b row Hrow.
    apply lookup_zip_with_Some in Hrow as (rx & ry & -> & Hrx & Hry).
    rewrite length_zip_with.
    rewrite (Forall_lookup_1 _ _ _ _ HX2 Hrx), (Forall_lookup_1 _ _ _ _ HY2 Hry).
    lia.
Qed.

Lemma shaped2_fmap (f : A -> B) (n m : nat) (X : list (list A)) :
  shaped2 n m X -> shaped2 n m ((fun row : list A => f <$> row) <$> X).
Proof.
  intros [HX1 HX2]. split.
  - rewrite length_fmap. exact HX1.
  - apply Forall_fmap. eapply Forall_impl; [exact HX2|].
    intros row Hrow. simpl. rewrite length_fmap. exact Hrow.
Qed.

End positions.

Lemma shaped3_shaped2 (B T V : nat) (x : list (list (list R))) :
  shaped3 B T V x -> shaped2 B T x.
Proof.
  intros [HB HT]. split; [exact HB|].
  eapply Forall_impl; [exact HT|]. intros rows [H _]. exact H.
Qed.

Lemma shaped3_elem2_length (B T V : nat) (x : list (list (list R)))
    (b t : nat) (row : list R) :
  shaped3 B T V x -> elem2 x b t = Some row -> length row = V.
Proof.
  intros [HB HT]. unfold elem2. intros H.
  destruct (x !! b) as [rows|] eqn:Hrows; simplify_eq/=.
  destruct (Forall_lookup_1 _ _ _ _ HT Hrows) as [_ HV].
  exact (Forall_lookup_1 _ _ _ _ HV H).
Qed.

(** ** The maximum of a row *)

Lemma foldl_Rmax_ge (l : list R) (x : R) : (x <= foldl Rmax x l)%R.
Proof.
  revert x. induction l as [|y l IH]; intros x; simpl; [lra|].
  etransitivity; [apply (Rmax_l x y) | apply IH].
Qed.

Lemma foldl_Rmax_upper (l : list R) (x : R) (k : nat) (y : R) :
  l !! k = Some y -> (y <= foldl Rmax x l)%R.
Proof.
  revert x k. induction l as [|z l IH]; intros x [|k] H; simplify_eq/=.
  - etransitivity; [apply (Rmax_r x y) | apply foldl_Rmax_ge].
  - eapply IH, H.
Qed.

Lemma foldl_Rmax_bound (l : list R) (x m : R) :
  (x <= m)%R -> Forall (fun y => (y <= m)%R) l -> (foldl Rmax x l <= m)%R.
Proof.
  intros Hx H. revert x Hx. induction H as [|y l Hy _ IH]; intros x Hx; simpl.
  - exact Hx.
  - apply IH. apply Rmax_lub; assumption.
Qed.

(** [max_row] is the entry at [j] when no entry is above it. *)
Lemma max_row_at (row : list R) (j : nat) (m : R) :
  row !! j = Some m -> Forall (fun y => (y <= m)%R) row -> max_row row = m.
Proof.
  intros Hj Hle. destruct row as [|x row]; [discriminate|]. simpl.
  apply Rle_antisym.
  - inversion Hle; subst. apply foldl_Rmax_bound; assumption.
  - destruct j as [|j]; simplify_eq/=.
    + apply foldl_Rmax_ge.
    + eapply foldl_Rmax_upper, Hj.
Qed.

(** ** The large-margin classification loss *)

Section large_margin.
Implicit Types (row : list R) (mc : R).

Lemma index_put_rows_const (x : list (list R)) (idx : list Z) (v : R) :
  rows_index_ok x idx ->
  index_put_rows x idx (replicate (length idx) v)
  = Ok (zip_with (fun row i => put row (i, v)) x idx).
Proof.
  induction 1 as [|row i x idx Hi _ IH]; simpl; [reflexivity|].
  rewrite (py_index_ok _ _ Hi). simpl. rewrite IH. reflexivity.
Qed.

Lemma index_put_last_ok (x : list (list (list R))) (index : list (list Z)) (v : R) :
  Forall2 rows_index_ok x index ->
  index_put_last x index v
  = Ok (zip_with (zip_with (fun row i => put row (i, v))) x index).
Proof.
  induction 1 as [|xrow irow x index H _ IH]; simpl; [reflexivity|].
  rewrite (index_put_rows_const _ _ _ H). simpl. rewrite IH. reflexivity.
Qed.

Lemma index_get_last_ok (x : list (list (list R))) (index : list (list Z)) :
  Forall2 rows_index_ok x index -> index_get_last x index = Ok (pick2 x index).
Proof.
  induction 1 as [|xrow irow x index H _ IH]; simpl; [reflexivity|].
  rewrite (index_get_rows_ok _ _ H). simpl. rewrite IH. reflexivity.
Qed.

Lemma rows_index_ok_fmap (f : list R -> list R) (x : list (list R)) (idx : list Z) :
  (forall row, length (f row) = length row) ->
  rows_index_ok x idx -> rows_index_ok (f <$> x) idx.
Proof.
  intros Hf H. unfold rows_index_ok. apply Forall2_fmap_l.
  eapply Forall2_impl; [exact H|]. intros row i Hi. simpl. rewrite Hf. exact Hi.
Qed.

(** One position of [logits + margin] after [margin[indices] = 0]. *)
Lemma margin_row_formula row (j : nat) mc :
  zip_with Rplus row (<[j := 0%R]> ((fun _ => (mc * 1)%R) <$> row))
  = imap (fun a x => (x + mc * (if bool_decide (a ≠ j) then 1 else 0))%R) row.
Proof.
  apply list_eq. intros k.
  rewrite lookup_zip_with, list_lookup_imap.
  destruct (row !! k) as [x|] eqn:Hx; simpl; [|reflexivity].
  destruct (decide (k = j)) as [->|Hne].
  - rewrite list_lookup_insert_eq
      by (rewrite length_fmap; eapply lookup_lt_Some, Hx).
    simpl. rewrite bool_decide_eq_false_2 by tauto. f_equal. lra.
  - rewrite list_lookup_insert_ne by done.
    rewrite list_lookup_fmap, Hx. simpl.
    rewrite bool_decide_eq_true_2 by done. f_equal.
Qed.

Lemma margin_formula_zero row (j : nat) mc (m : R) :
  row !! j = Some m ->
  (forall k x, k ≠ j -> row !! k = Some x -> (x + mc < m)%R) ->
  margin_formula row j mc = 0%R.
Proof.
  intros Hj Hgap. unfold margin_formula. rewrite Hj. simpl.
  rewrite (max_row_at _ j m); [lra | |].
  - rewrite list_lookup_imap, Hj. simpl.
    rewrite bool_decide_eq_false_2 by tauto. f_equal. lra.
  - apply Forall_lookup. intros k y Hy.
    rewrite list_lookup_imap in Hy.
    destruct (row !! k) as [x|] eqn:Hx; simplify_eq/=.
    case_bool_decide as Hk.
    + specialize (Hgap k x Hk Hx). lra.
    + assert (k = j) as -> by (destruct (decide (k = j)); tauto).
      simplify_eq. lra.
Qed.

(** C5: on a well-shaped batch [large_margin_classification_loss] returns,
    at every position, the maximum over the actions [a] of
    [logits[a] + margin_constant * 1[a <> expert]] minus the logit of the
    expert action; the value is [0] when the logit of the expert action
    exceeds every other logit by more than [margin_constant]. *)
Theorem large_margin_classification_loss_formula
    (B T V : nat) (logits : list (list (list R)))
    (expert_actions : list (list Z)) (margin_constant : R) :
  shaped3 B T V logits ->
  shaped2 B T expert_actions ->
  Forall (Forall (index_ok V)) expert_actions ->
  exists raw_losses quantities_to_log,
    large_margin_classification_loss logits expert_actions margin_constant
    = Ok (raw_losses, quantities_to_log)
    /\ forall b t row a,
        elem2 logits b t = Some row ->
        elem2 expert_actions b t = Some a ->
        let expert := norm_index V a in
        elem2 raw_losses b t = Some (margin_formula row expert margin_constant)
        /\ ((forall k x, k ≠ expert -> row !! k = Some x ->
               (x + margin_constant < default 0 (row !! expert))%R) ->
            elem2 raw_losses b t = Some 0%R).
Proof.
  intros Hl Ha Hr.
  pose proof (actions_index_ok _ _ _ _ _ Hl Ha Hr) as Hok.
  unfold large_margin_classification_loss.
  rewrite index_put_last_ok; cycle 1.
  { apply Forall2_fmap_l. eapply Forall2_impl; [exact Hok|].
    intros x idx Hx. simpl. apply rows_index_ok_fmap; [|exact Hx].
    intros row. apply length_fmap. }
  simpl. rewrite (index_get_last_ok _ _ Hok). simpl.
  eexists _, _. split; [reflexivity|].
  intros b t row a Hrow Hact. set (expert := norm_index V a).
  pose proof (shaped3_elem2_length _ _ _ _ _ _ _ Hl Hrow) as HV.
  assert (Hraw :
    elem2
      (sub2
         (max_last
            (add3 logits
               (zip_with (zip_with (fun row i => put row (i, 0%R)))
                  ((fun rows : list (list R) =>
                      (fun row : list R => (fun _ => (margin_constant * 1)%R) <$> row)
                        <$> rows) <$> logits)
                  expert_actions)))
         (pick2 logits expert_actions)) b t
    = Some (margin_formula row expert margin_constant)).
  { unfold sub2. erewrite elem2_zip_with; cycle 1.
    - unfold max_last. rewrite elem2_fmap.
      unfold add3. erewrite elem2_zip_with; [reflexivity | exact Hrow |].
      erewrite elem2_zip_with; [reflexivity | | exact Hact].
      rewrite elem2_fmap, Hrow. reflexivity.
    - unfold pick2. erewrite elem2_zip_with; [reflexivity | exact Hrow | exact Hact].
    - f_equal. unfold margin_formula, put, pick. simpl.
      rewrite length_fmap, HV. fold expert.
      rewrite margin_row_formula. reflexivity. }
  split; [exact Hraw|].
  intros Hgap. rewrite Hraw. f_equal.
  assert (Hlt : expert < length row).
  { rewrite HV. apply norm_index_lt.
    unfold elem2 in Hact.
    destruct (expert_actions !! b) as [irow|] eqn:Hirow; simplify_eq/=.
    exact (Forall_lookup_1 _ _ _ _ (Forall_lookup_1 _ _ _ _ Hr Hirow) Hact). }
  destruct (lookup_lt_is_Some_2 _ _ Hlt) as [m Hm].
  rewrite Hm in Hgap. simpl in Hgap.
  exact (margin_formula_zero _ _ _ _ Hm Hgap).
Qed.
End large_margin.

(** ** Shapes of the intermediate tensors *)

Section shapes.
Variables B T V : nat.

Lemma shaped2_logsumexp_last (x : list (list (list R))) :
  shaped3 B T V x -> shaped2 B T (logsumexp_last x).
Proof. intros H. apply shaped2_fmap, (shaped3_shaped2 _ _ _ _ H). Qed.

Lemma shaped2_pick2 (logits : list (list (list R))) (actions : list (list Z)) :
  shaped3 B T V logits -> shaped2 B T actions -> shaped2 B T (pick2 logits actions).
Proof.
  intros Hl Ha. apply shaped2_zip_with; [|exact Ha].
  exact (shaped3_shaped2 _ _ _ _ Hl).
Qed.

Lemma shaped2_zeros_like (x : list (list R)) :
  shaped2 B T x -> shaped2 B T (zeros_like x).
Proof. apply shaped2_fmap. Qed.

Lemma shaped2_cols_from_1 (x : list (list R)) :
  shaped2 B T x -> shaped2 B (T - 1) (cols_from_1 x).
Proof.
  intros [H1 H2]. split; [unfold cols_from_1; rewrite length_fmap; exact H1|].
  apply Forall_fmap. eapply Forall_impl; [exact H2|].
  intros row Hrow. simpl in *. rewrite length_drop. lia.
Qed.

Lemma shaped2_cols_but_last (x : list (list R)) :
  shaped2 B T x -> shaped2 B (T - 1) (cols_but_last x).
Proof.
  intros [H1 H2]. split; [unfold cols_but_last; rewrite length_fmap; exact H1|].
  apply Forall_fmap. eapply Forall_impl; [exact H2|].
  intros row Hrow. simpl in *. rewrite length_take. lia.
Qed.

Lemma shaped2_assign_but_last (dst src : list (list R)) :
  shaped2 B T dst -> shaped2 B (T - 1) src -> shaped2 B T (assign_but_last dst src).
Proof.
  intros [HD1 HD2] [HS1 HS2]. split.
  - unfold assign_but_last. rewrite length_zip_with. lia.
  - apply Forall_lookup. intros b row Hrow.
    apply lookup_zip_with_Some in Hrow as (d & s & -> & Hd & Hs).
    pose proof (Forall_lookup_1 _ _ _ _ HD2 Hd) as Hld.
    pose proof (Forall_lookup_1 _ _ _ _ HS2 Hs) as Hls. simpl in *.
    rewrite length_app, length_take, length_drop. lia.
Qed.

Lemma shaped2_put (x : list (list R)) (ivs : list (Z * R)) :
  shaped2 B T x -> length ivs = B -> shaped2 B T (zip_with put x ivs).
Proof.
  intros [H1 H2] Hlen. split; [rewrite length_zip_with; lia|].
  apply Forall_lookup. intros b row Hrow.
  apply lookup_zip_with_Some in Hrow as (r & iv & -> & Hr & _).
  rewrite length_put. exact (Forall_lookup_1 _ _ _ _ H2 Hr).
Qed.

Lemma shaped2_masked_reverse_cumsum (x : list (list R)) (sl : list Z) :
  shaped2 B T x -> length sl = B -> shaped2 B T (masked_reverse_cumsum x sl).
Proof.
  intros [H1 H2] Hlen. split.
  - unfold masked_reverse_cumsum. rewrite length_zip_with. lia.
  - apply Forall_lookup. intros b row Hrow.
    apply lookup_zip_with_Some in Hrow as (r & n & -> & Hr & _).
    unfold masked_reverse_cumsum_row. rewrite length_imap.
    exact (Forall_lookup_1 _ _ _ _ H2 Hr).
Qed.

Lemma shaped2_rewards_minus (rewards : list R) (x : list (list R)) :
  shaped2 B T x -> length rewards = B -> shaped2 B T (rewards_minus rewards x).
Proof.
  intros [H1 H2] Hlen. split.
  - unfold rewards_minus. rewrite length_zip_with. lia.
  - apply Forall_lookup. intros b row Hrow.
    apply lookup_zip_with_Some in Hrow as (r & xr & -> & _ & Hxr).
    rewrite length_fmap. exact (Forall_lookup_1 _ _ _ _ H2 Hxr).
Qed.

Lemma terminal_index_ok (sl : list Z) :
  1 <= T -> Forall (fun n => (0 <= n <= Z.of_nat T)%Z) sl ->
  Forall (index_ok T) (terminal_index sl).
Proof.
  intros HT H. unfold terminal_index. apply Forall_fmap.
  eapply Forall_impl; [exact H|]. intros n Hn. unfold index_ok. simpl in *. lia.
Qed.

Lemma terminal_rows_ok (x : list (list R)) (sl : list Z) :
  1 <= T -> shaped2 B T x -> length sl = B ->
  Forall (fun n => (0 <= n <= Z.of_nat T)%Z) sl ->
  rows_index_ok x (terminal_index sl).
Proof.
  intros HT Hx Hlen Hsl. apply (rows_index_ok_shaped B T); [exact Hx | |].
  - unfold terminal_index. rewrite length_fmap. exact Hlen.
  - apply terminal_index_ok; assumption.
Qed.

Lemma batch_ok_swap logits logits_ actions rewards sl :
  batch_ok B T V logits logits_ actions rewards sl ->
  batch_ok B T V logits_ logits actions rewards sl.
Proof. intros []. constructor; assumption. Qed.
End shapes.

(** ** The variants on a well-formed batch *)

Section variants.
Local Open Scope string_scope.
Variable entropy_from_logits : ten3 -> mat.
Variables B T V : nat.
Implicit Types (logits : list (list (list R))) (actions : list (list Z)).
Implicit Types (rewards : list R) (sl : list Z).

Lemma gather_batch_ok logits (logits_ : list (list (list R))) actions rewards sl :
  batch_ok B T V logits logits_ actions rewards sl ->
  gather_2d_on_last_dim logits actions = Ok (pick2 logits actions).
Proof.
  intros []. apply gather_2d_on_last_dim_ok.
  eapply actions_index_ok; eassumption.
Qed.

Lemma length_terminal_index sl : length (terminal_index sl) = length sl.
Proof. unfold terminal_index. apply length_fmap. Qed.

Lemma soft_q_1_ok logits (logits_ : list (list (list R))) actions rewards sl :
  batch_ok B T V logits logits_ actions rewards sl -> 1 <= T ->
  exists raw_losses quantities_to_log,
    soft_q_loss_with_sparse_rewards_1 logits logits_ actions rewards sl
    = Ok (raw_losses, quantities_to_log)
    /\ shaped2 B T raw_losses.
Proof.
  intros Hok HT. pose proof Hok as [Hl Hl_ Ha Har Hr Hs Hsr].
  unfold soft_q_loss_with_sparse_rewards_1.
  rewrite (gather_batch_ok _ _ _ _ _ Hok). simpl.
  pose proof (shaped2_pick2 _ _ _ _ _ Hl Ha) as HQ.
  pose proof (shaped2_logsumexp_last _ _ _ _ Hl_) as HV_.
  assert (HQ0 : shaped2 B T
            (assign_but_last (zeros_like (pick2 logits actions))
               (cols_from_1 (logsumexp_last logits_)))).
  { apply shaped2_assign_but_last; [apply shaped2_zeros_like, HQ|].
    apply shaped2_cols_from_1, HV_. }
  rewrite index_put_rows_ok; cycle 1.
  { eapply terminal_rows_ok; eassumption. }
  { rewrite length_terminal_index. congruence. }
  simpl. eexists _, _. split; [reflexivity|].
  apply shaped2_zip_with; [exact HQ|].
  apply shaped2_put; [exact HQ0|].
  rewrite length_zip_with, length_terminal_index. lia.
Qed.

Lemma soft_q_2_ok logits (logits_ : list (list (list R))) actions rewards sl :
  batch_ok B T V logits logits_ actions rewards sl -> 1 <= T ->
  let Q := pick2 logits actions in
  let V_ := logsumexp_last logits_ in
  let tidx := terminal_index sl in
  let A_ :=
    zip_with put
      (assign_but_last (zeros_like Q) (sub2 (cols_from_1 V_) (cols_but_last V_)))
      (zip tidx (zip_with Rminus rewards (zip_with pick V_ tidx))) in
  exists quantities_to_log,
    soft_q_loss_with_sparse_rewards_2 entropy_from_logits
      logits logits_ actions rewards sl
    = Ok (mse_loss (sub2 Q (logsumexp_last logits)) A_, quantities_to_log)
    /\ dict_get "A_" quantities_to_log = Some A_
    /\ shaped2 B T (mse_loss (sub2 Q (logsumexp_last logits)) A_).
Proof.
  intros Hok HT. pose proof Hok as [Hl Hl_ Ha Har Hr Hs Hsr].
  intros Q V_ tidx A_.
  unfold soft_q_loss_with_sparse_rewards_2.
  rewrite (gather_batch_ok _ _ _ _ _ Hok). res_simpl. fold Q V_ tidx.
  pose proof (shaped2_pick2 _ _ _ _ _ Hl Ha) as HQ.
  pose proof (shaped2_logsumexp_last _ _ _ _ Hl) as HV.
  pose proof (shaped2_logsumexp_last _ _ _ _ Hl_) as HV_.
  assert (Htidx : length tidx = B)
    by (unfold tidx; rewrite length_terminal_index; exact Hs).
  assert (Hterm : length (zip_with pick V_ tidx) = B).
  { rewrite length_zip_with. destruct HV_ as [HV_B _]. unfold V_. lia. }
  assert (HQ0 : shaped2 B T (assign_but_last (zeros_like Q) (cols_from_1 V_))).
  { apply shaped2_assign_but_last; [apply shaped2_zeros_like, HQ|].
    apply shaped2_cols_from_1, HV_. }
  assert (HA0 : shaped2 B T
            (assign_but_last (zeros_like Q)
               (sub2 (cols_from_1 V_) (cols_but_last V_)))).
  { apply shaped2_assign_but_last; [apply shaped2_zeros_like, HQ|].
    apply shaped2_zip_with;
      [apply shaped2_cols_from_1, HV_ | apply shaped2_cols_but_last, HV_]. }
  rewrite index_get_rows_ok by (eapply terminal_rows_ok; eassumption).
  res_simpl.
  rewrite (index_put_rows_ok
             (assign_but_last (zeros_like Q) (cols_from_1 V_)) tidx rewards);
    [| eapply terminal_rows_ok; eassumption | congruence].
  res_simpl.
  rewrite (index_put_rows_ok
             (assign_but_last (zeros_like Q)
                (sub2 (cols_from_1 V_) (cols_but_last V_)))
             tidx (zip_with Rminus rewards (zip_with pick V_ tidx)));
    [| eapply terminal_rows_ok; eassumption | rewrite length_zip_with; lia].
  res_simpl.    eexists. split; [reflexivity|]. split; [reflexivity|].
  apply shaped2_zip_with; [apply shaped2_zip_with; assumption|].
  apply shaped2_put; [exact HA0|].
  rewrite length_zip_with, length_zip_with. lia.
Qed.

Lemma soft_q_3_ok logits (logits_ : list (list (list R))) actions rewards sl (freeze : bool) :
  batch_ok B T V logits logits_ actions rewards sl ->
  exists raw_losses quantities_to_log,
    soft_q_loss_with_sparse_rewards_3 logits logits_ actions rewards sl freeze
    = Ok (raw_losses, quantities_to_log)
    /\ shaped2 B T raw_losses.
Proof.
  intros Hok. pose proof Hok as [Hl Hl_ Ha Har Hr Hs Hsr].
  unfold soft_q_loss_with_sparse_rewards_3.
  rewrite (gather_batch_ok _ _ _ _ _ Hok). res_simpl.
  eexists _, _. split; [reflexivity|].
  apply shaped2_zip_with.
  - assert (HA2 : shaped2 B T
              (masked_reverse_cumsum
                 (sub2 (pick2 logits actions) (logsumexp_last logits)) sl)).
    { apply shaped2_masked_reverse_cumsum; [|exact Hs].
      apply shaped2_zip_with;
        [ eapply shaped2_pick2; eassumption
        | eapply shaped2_logsumexp_last; eassumption ]. }
    destruct freeze; [rewrite freeze_future_steps_values|]; exact HA2.
  - apply shaped2_rewards_minus; [|exact Hr].
    eapply shaped2_logsumexp_last; eassumption.
Qed.

(** C1: when [sequence_length[i] = 1] the target advantage [A_] of the V2
    variant at position [0] of row [i] is
    [rewards[i] - logsumexp(logits_[i, 0, :])]: the terminal overwrite
    replaces the bootstrapped difference of target values. *)
Theorem soft_q_v2_terminal_target_advantage
    logits (logits_ : list (list (list R))) actions rewards sl (i : nat) (reward : R) (row_ : list R) :
  batch_ok B T V logits logits_ actions rewards sl ->
  sl !! i = Some 1%Z ->
  rewards !! i = Some reward ->
  elem2 logits_ i 0 = Some row_ ->
  exists raw_losses quantities_to_log A_,
    soft_q_loss_with_sparse_rewards_2 entropy_from_logits
      logits logits_ actions rewards sl
    = Ok (raw_losses, quantities_to_log)
    /\ dict_get "A_" quantities_to_log = Some A_
    /\ elem2 A_ i 0 = Some (reward - logsumexp row_)%R.
Proof.
  intros Hok Hi Hr Hrow_. pose proof Hok as [Hl Hl_ Ha Har Hrl Hs Hsr].
  assert (HT : 1 <= T).
  { pose proof (Forall_lookup_1 _ _ _ _ Hsr Hi) as H. simpl in H. lia. }
  destruct (soft_q_2_ok _ _ _ _ _ Hok HT) as (qlog & Heq & Hget & _).
  eexists _, qlog, _. split; [exact Heq|]. split; [exact Hget|].
  pose proof (shaped2_logsumexp_last _ _ _ _ Hl_) as HV_.
  pose proof (shaped2_pick2 _ _ _ _ _ Hl Ha) as HQ.
  assert (Hib : i < B) by (rewrite <- Hs; eapply lookup_lt_Some, Hi).
  (* the row of target values *)
  assert (HV_i : exists vrow, logsumexp_last logits_ !! i = Some vrow
                              /\ length vrow = T
                              /\ vrow !! 0 = Some (logsumexp row_)).
  { unfold elem2 in Hrow_.
    destruct (logits_ !! i) as [rows|] eqn:Hrows; simplify_eq/=.
    exists (logsumexp <$> rows). unfold logsumexp_last.
    rewrite list_lookup_fmap, Hrows. split; [reflexivity|]. split.
    - rewrite length_fmap.
      destruct Hl_ as [_ Hl_]. destruct (Forall_lookup_1 _ _ _ _ Hl_ Hrows). done.
    - rewrite list_lookup_fmap, Hrow_. reflexivity. }
  destruct HV_i as (vrow & Hvrow & Hlv & Hv0).
  assert (HA0 : shaped2 B T
            (assign_but_last (zeros_like (pick2 logits actions))
               (sub2 (cols_from_1 (logsumexp_last logits_))
                  (cols_but_last (logsumexp_last logits_))))).
  { apply shaped2_assign_but_last; [apply shaped2_zeros_like, HQ|].
    apply shaped2_zip_with;
      [eapply shaped2_cols_from_1, HV_ | eapply shaped2_cols_but_last, HV_]. }
  destruct HA0 as [HA0B HA0T].
  destruct (lookup_lt_is_Some_2
              (assign_but_last (zeros_like (pick2 logits actions))
                 (sub2 (cols_from_1 (logsumexp_last logits_))
                    (cols_but_last (logsumexp_last logits_)))) i) as [arow Harow];
    [lia|].
  pose proof (Forall_lookup_1 _ _ _ _ HA0T Harow) as Hla. simpl in Hla.
  assert (Hti : terminal_index sl !! i = Some 0%Z).
  { unfold terminal_index. rewrite list_lookup_fmap, Hi. reflexivity. }
  assert (Hterm :
    zip_with pick (logsumexp_last logits_) (terminal_index sl) !! i
    = Some (logsumexp row_)).
  { rewrite lookup_zip_with, Hvrow. simpl. rewrite Hti. simpl.
    unfold pick. rewrite norm_index_nonneg by lia.
    change (Z.to_nat 0) with 0%nat. rewrite Hv0. reflexivity. }
  assert (Hval :
    zip_with Rminus rewards
      (zip_with pick (logsumexp_last logits_) (terminal_index sl)) !! i
    = Some (reward - logsumexp row_)%R).
  { rewrite lookup_zip_with, Hr. simpl. rewrite Hterm. reflexivity. }
  unfold elem2.
  rewrite lookup_zip_with, Harow. simpl.
  rewrite lookup_zip_with, Hti. simpl. rewrite Hval. simpl.
  unfold put. cbn [fst snd]. rewrite norm_index_nonneg by lia.
  change (Z.to_nat 0) with 0%nat. apply list_lookup_insert_eq. lia.
Qed.
End variants.

(** ** The reversed (symmetrised) variants *)

Section reversed.
Local Open Scope string_scope.
Variable entropy_from_logits : ten3 -> mat.
Implicit Types (logits : list (list (list R))) (actions : list (list Z)).
Implicit Types (rewards : list R) (sl : list Z).

Lemma elem2_scale2 (c : R) (x : list (list R)) (b t : nat) :
  elem2 (scale2 c x) b t = Rmult c <$> elem2 x b t.
Proof. apply elem2_fmap. Qed.

(** [mix2] is the position-wise combination
    [coefficient * forward + (1 - coefficient) * reversed]. *)
Lemma elem2_mix2 (c : R) (f r : list (list R)) (b t : nat) (x y : R) :
  elem2 f b t = Some x -> elem2 r b t = Some y ->
  elem2 (mix2 c f r) b t = Some (c * x + (1 - c) * y)%R.
Proof.
  intros Hx Hy. unfold mix2, add2.
  apply elem2_zip_with; rewrite elem2_scale2; [rewrite Hx | rewrite Hy]; reflexivity.
Qed.

(** C3 (as amended): for a coefficient [c] the [v3_v3r] variant returns
    [c * forward + (1 - c) * reversed], where [reversed] is the base loss
    with [logits] and [logits_] exchanged, and so does [v2_v2r] when
    [margin_constant] or [margin_coefficient] is [None]; when both are
    given, [v2_v2r] adds [margin_coefficient] times the large-margin loss.
    Without a coefficient the forward loss takes the place of the
    combination. *)
Theorem soft_q_reversed_combination
    logits (logits_ : list (list (list R))) actions rewards sl (c : R) :
  (forall forward reversed log_f log_r,
      soft_q_loss_with_sparse_rewards_3
        logits logits_ actions rewards sl false = Ok (forward, log_f) ->
      soft_q_loss_with_sparse_rewards_3
        logits_ logits actions rewards sl false = Ok (reversed, log_r) ->
      exists log,
        soft_q_loss_with_sparse_rewards_3_3_reversed
          logits logits_ actions rewards sl (Some c)
        = Ok (mix2 c forward reversed, log))
  /\ (forall forward log_f,
        soft_q_loss_with_sparse_rewards_3
          logits logits_ actions rewards sl false = Ok (forward, log_f) ->
        exists log,
          soft_q_loss_with_sparse_rewards_3_3_reversed
            logits logits_ actions rewards sl None
          = Ok (forward, log))
  /\ (forall forward reversed log_f log_r margin_constant margin_coefficient,
        soft_q_loss_with_sparse_rewards_2 entropy_from_logits
          logits logits_ actions rewards sl = Ok (forward, log_f) ->
        soft_q_loss_with_sparse_rewards_2 entropy_from_logits
          logits_ logits actions rewards sl = Ok (reversed, log_r) ->
        margin_constant = None \/ margin_coefficient = None ->
        exists log,
          soft_q_loss_with_sparse_rewards_2_2_reversed entropy_from_logits
            logits logits_ actions rewards sl
            (Some c) margin_constant margin_coefficient
          = Ok (mix2 c forward reversed, log))
  /\ (forall forward log_f margin_constant margin_coefficient,
        soft_q_loss_with_sparse_rewards_2 entropy_from_logits
          logits logits_ actions rewards sl = Ok (forward, log_f) ->
        margin_constant = None \/ margin_coefficient = None ->
        exists log,
          soft_q_loss_with_sparse_rewards_2_2_reversed entropy_from_logits
            logits logits_ actions rewards sl
            None margin_constant margin_coefficient
          = Ok (forward, log))
  /\ (forall forward reversed log_f log_r
             (margin_constant margin_coefficient : R) margin log_m,
        soft_q_loss_with_sparse_rewards_2 entropy_from_logits
          logits logits_ actions rewards sl = Ok (forward, log_f) ->
        soft_q_loss_with_sparse_rewards_2 entropy_from_logits
          logits_ logits actions rewards sl = Ok (reversed, log_r) ->
        large_margin_classification_loss logits actions margin_constant
        = Ok (margin, log_m) ->
        exists log,
          soft_q_loss_with_sparse_rewards_2_2_reversed entropy_from_logits
            logits logits_ actions rewards sl
            (Some c) (Some margin_constant) (Some margin_coefficient)
          = Ok (add2 (mix2 c forward reversed)
                  (scale2 margin_coefficient margin), log))
  /\ (forall forward log_f (margin_constant margin_coefficient : R) margin log_m,
        soft_q_loss_with_sparse_rewards_2 entropy_from_logits
          logits logits_ actions rewards sl = Ok (forward, log_f) ->
        large_margin_classification_loss logits actions margin_constant
        = Ok (margin, log_m) ->
        exists log,
          soft_q_loss_with_sparse_rewards_2_2_reversed entropy_from_logits
            logits logits_ actions rewards sl
            None (Some margin_constant) (Some margin_coefficient)
          = Ok (add2 forward (scale2 margin_coefficient margin), log))
  /\ (forall (f r : list (list R)) b t x y,
        elem2 f b t = Some x -> elem2 r b t = Some y ->
        elem2 (mix2 c f r) b t = Some (c * x + (1 - c) * y)%R).
Proof.
  repeat split.
  - intros f r lf lr Hf Hr.
    unfold soft_q_loss_with_sparse_rewards_3_3_reversed.
    rewrite Hf. res_simpl. rewrite Hr. res_simpl. eexists. reflexivity.
  - intros f lf Hf.
    unfold soft_q_loss_with_sparse_rewards_3_3_reversed.
    rewrite Hf. res_simpl. eexists. reflexivity.
  - intros f r lf lr mc mcoef Hf Hr Hnone.
    unfold soft_q_loss_with_sparse_rewards_2_2_reversed.
    rewrite Hf. res_simpl. rewrite Hr. res_simpl.
    destruct Hnone as [-> | ->]; try destruct mc; eexists; reflexivity.
  - intros f lf mc mcoef Hf Hnone.
    unfold soft_q_loss_with_sparse_rewards_2_2_reversed.
    rewrite Hf. res_simpl.
    destruct Hnone as [-> | ->]; try destruct mc; eexists; reflexivity.
  - intros f r lf lr mc mcoef margin log_m Hf Hr Hm.
    unfold soft_q_loss_with_sparse_rewards_2_2_reversed.
    rewrite Hf. res_simpl. rewrite Hr. res_simpl. rewrite Hm. res_simpl.
    eexists. reflexivity.
  - intros f lf mc mcoef margin log_m Hf Hm.
    unfold soft_q_loss_with_sparse_rewards_2_2_reversed.
    rewrite Hf. res_simpl. rewrite Hm. res_simpl. eexists. reflexivity.
  - intros f r b t x y. apply elem2_mix2.
Qed.
End reversed.

(** ** Rows of length zero *)

Section zero_length.
Local Open Scope string_scope.
Variable entropy_from_logits : ten3 -> mat.
Variables B T V : nat.
Implicit Types (logits : list (list (list R))) (actions : list (list Z)).
Implicit Types (rewards : list R) (sl : list Z).

Lemma shaped2_scale2 (c : R) (x : list (list R)) :
  shaped2 B T x -> shaped2 B T (scale2 c x).
Proof. apply shaped2_fmap. Qed.

Lemma shaped2_mix2 (c : R) (x y : list (list R)) :
  shaped2 B T x -> shaped2 B T y -> shaped2 B T (mix2 c x y).
Proof. intros Hx Hy. apply shaped2_zip_with; apply shaped2_scale2; assumption. Qed.

Lemma large_margin_classification_loss_ok logits actions (mc : R) :
  shaped3 B T V logits -> shaped2 B T actions ->
  Forall (Forall (index_ok V)) actions ->
  exists raw_losses quantities_to_log,
    large_margin_classification_loss logits actions mc
    = Ok (raw_losses, quantities_to_log)
    /\ shaped2 B T raw_losses.
Proof.
  intros Hl Ha Hr.
  pose proof (actions_index_ok _ _ _ _ _ Hl Ha Hr) as Hok.
  unfold large_margin_classification_loss.
  rewrite index_put_last_ok; cycle 1.
  { apply Forall2_fmap_l. eapply Forall2_impl; [exact Hok|].
    intros x idx Hx. simpl. apply rows_index_ok_fmap; [|exact Hx].
    intros row. apply length_fmap. }
  res_simpl. rewrite (index_get_last_ok _ _ Hok). res_simpl.
  eexists _, _. split; [reflexivity|].
  apply shaped2_zip_with; [|eapply shaped2_pick2; eassumption].
  unfold max_last. apply shaped2_fmap.
  unfold add3. apply shaped2_zip_with; [exact (shaped3_shaped2 _ _ _ _ Hl)|].
  apply shaped2_zip_with; [|exact Ha].
  apply shaped2_fmap. exact (shaped3_shaped2 _ _ _ _ Hl).
Qed.

Lemma soft_q_0_ok logits (logits_ : list (list (list R))) actions rewards sl :
  batch_ok B T V logits logits_ actions rewards sl ->
  exists raw_losses quantities_to_log,
    soft_q_loss_with_sparse_rewards_0 logits logits_ actions rewards sl
    = Ok (raw_losses, quantities_to_log)
    /\ shaped2 B T raw_losses.
Proof.
  intros [Hl Hl_ _ _ _ _ _]. eexists _, _. split; [reflexivity|].
  apply shaped2_zip_with; eapply shaped2_logsumexp_last; eassumption.
Qed.

Lemma soft_q_2_returns logits (logits_ : list (list (list R)))
    actions rewards sl :
  batch_ok B T V logits logits_ actions rewards sl -> 1 <= T ->
  exists raw_losses quantities_to_log,
    soft_q_loss_with_sparse_rewards_2 entropy_from_logits
      logits logits_ actions rewards sl
    = Ok (raw_losses, quantities_to_log)
    /\ shaped2 B T raw_losses.
Proof.
  intros Hok HT.
  destruct (soft_q_2_ok entropy_from_logits _ _ _ _ _ _ _ _ Hok HT)
    as (lf & Hf & _ & Hfs).
  eexists _, _. split; [exact Hf | exact Hfs].
Qed.

Ltac shape_auto :=
  repeat first
    [ assumption
    | apply shaped2_mix2
    | apply shaped2_scale2
    | apply shaped2_fmap
    | apply shaped2_zip_with ].

Lemma soft_q_2_2_reversed_ok logits (logits_ : list (list (list R)))
    actions rewards sl (coefficient margin_constant margin_coefficient : option R) :
  batch_ok B T V logits logits_ actions rewards sl -> 1 <= T ->
  exists raw_losses quantities_to_log,
    soft_q_loss_with_sparse_rewards_2_2_reversed entropy_from_logits
      logits logits_ actions rewards sl
      coefficient margin_constant margin_coefficient
    = Ok (raw_losses, quantities_to_log)
    /\ shaped2 B T raw_losses.
Proof.
  intros Hok HT. pose proof Hok as [Hl Hl_ Ha Har Hr Hs Hsr].
  destruct (soft_q_2_returns _ _ _ _ _ Hok HT) as (f & lf & Hf & Hfs).
  destruct (soft_q_2_returns _ _ _ _ _ (batch_ok_swap _ _ _ _ _ _ _ _ Hok) HT)
    as (r & lr & Hrv & Hrs).
  unfold soft_q_loss_with_sparse_rewards_2_2_reversed.
  rewrite Hf. res_simpl.
  destruct coefficient as [c|]; [rewrite Hrv|]; res_simpl;
    (destruct margin_constant as [mc|], margin_coefficient as [mcoef|];
     [ destruct (large_margin_classification_loss_ok _ _ mc Hl Ha Har)
         as (m & lm & Hm & Hms);
       rewrite Hm; res_simpl
     | | | ]);
    (eexists _, _; split; [reflexivity | shape_auto]).
Qed.

Lemma soft_q_3_3_reversed_ok logits (logits_ : list (list (list R)))
    actions rewards sl (coefficient : option R) :
  batch_ok B T V logits logits_ actions rewards sl ->
  exists raw_losses quantities_to_log,
    soft_q_loss_with_sparse_rewards_3_3_reversed
      logits logits_ actions rewards sl coefficient
    = Ok (raw_losses, quantities_to_log)
    /\ shaped2 B T raw_losses.
Proof.
  intros Hok.
  destruct (soft_q_3_ok _ _ _ _ _ _ _ _ false Hok) as (f & lf & Hf & Hfs).
  destruct (soft_q_3_ok _ _ _ _ _ _ _ _ false (batch_ok_swap _ _ _ _ _ _ _ _ Hok))
    as (r & lr & Hrv & Hrs).
  unfold soft_q_loss_with_sparse_rewards_3_3_reversed.
  rewrite Hf. res_simpl.
  destruct coefficient as [c|]; [rewrite Hrv|]; res_simpl;
    (eexists _, _; split; [reflexivity | shape_auto]).
Qed.

Lemma soft_q_2_2_reversed_3_3_reversed_ok logits
    (logits_ : list (list (list R))) actions rewards sl (coefficient : option R) :
  batch_ok B T V logits logits_ actions rewards sl -> 1 <= T ->
  exists raw_losses quantities_to_log,
    soft_q_loss_with_sparse_rewards_2_2_reversed_3_3_reversed entropy_from_logits
      logits logits_ actions rewards sl coefficient
    = Ok (raw_losses, quantities_to_log)
    /\ shaped2 B T raw_losses.
Proof.
  intros Hok HT.
  destruct (soft_q_2_2_reversed_ok _ _ _ _ _ coefficient None None Hok HT)
    as (x & lx & Hx & Hxs).
  destruct (soft_q_3_3_reversed_ok _ _ _ _ _ coefficient Hok)
    as (y & ly & Hy & Hys).
  unfold soft_q_loss_with_sparse_rewards_2_2_reversed_3_3_reversed.
  rewrite Hx. res_simpl. rewrite Hy. res_simpl.
  eexists _, _. split; [reflexivity|].
  unfold half_sum2. shape_auto.
Qed.

(** Every identifier of the dispatcher selects a variant that returns on
    a well-formed batch. *)
Lemma select_sql_loss_func_ok (implementation : string) logits
    (logits_ : list (list (list R))) actions rewards sl
    (coefficient margin_constant margin_coefficient : option R) :
  implementation ∈ implementations ->
  batch_ok B T V logits logits_ actions rewards sl -> 1 <= T ->
  exists f raw_losses quantities_to_log,
    select_sql_loss_func entropy_from_logits implementation
      coefficient margin_constant margin_coefficient = Some f
    /\ f logits logits_ actions rewards sl = Ok (raw_losses, quantities_to_log)
    /\ shaped2 B T raw_losses.
Proof.
  intros Hin Hok HT. unfold implementations in Hin.
  repeat (apply elem_of_cons in Hin as [-> | Hin]);
    [ .. | apply elem_of_nil in Hin; contradiction ].
  - destruct (soft_q_0_ok _ _ _ _ _ Hok) as (raw & l & H1 & H2).
    eexists _, raw, l. split; [reflexivity|]. split; assumption.
  - destruct (soft_q_1_ok _ _ _ _ _ _ _ _ Hok HT) as (raw & l & H1 & H2).
    eexists _, raw, l. split; [reflexivity|]. split; assumption.
  - destruct (soft_q_2_returns _ _ _ _ _ Hok HT) as (raw & l & H1 & H2).
    eexists _, raw, l. split; [reflexivity|]. split; assumption.
  - destruct (soft_q_3_ok _ _ _ _ _ _ _ _ false Hok) as (raw & l & H1 & H2).
    eexists _, raw, l. split; [reflexivity|]. split; assumption.
  - destruct (soft_q_2_2_reversed_ok _ _ _ _ _
                coefficient margin_constant margin_coefficient Hok HT)
      as (raw & l & H1 & H2).
    eexists _, raw, l. split; [reflexivity|]. split; assumption.
  - destruct (soft_q_3_3_reversed_ok _ _ _ _ _ coefficient Hok)
      as (raw & l & H1 & H2).
    eexists _, raw, l. split; [reflexivity|]. split; assumption.
  - destruct (soft_q_2_2_reversed_3_3_reversed_ok _ _ _ _ _ coefficient Hok HT)
      as (raw & l & H1 & H2).
    eexists _, raw, l. split; [reflexivity|]. split; assumption.
Qed.
Lemma shape3_shaped (x : list (list (list R))) :
  shaped3 B T V x -> 0 < B -> 0 < T -> shape3 x = [B; T; V].
Proof.
  intros [HB HT] HB0 HT0. unfold shape3.
  destruct x as [|rows x]; simpl in *; [lia|].
  inversion HT as [|? ? [HT1 HV] _]; subst.
  destruct rows as [|row rows]; simpl in *; [lia|].
  inversion HV; subst. reflexivity.
Qed.

Lemma Rsum_delete (l : list R) (i : nat) :
  l !! i = Some 0%R -> Rsum l = Rsum (delete i l).
Proof.
  revert i. induction l as [|x l IH]; intros [|i] H; simplify_eq/=.
  - lra.
  - rewrite (IH i H). reflexivity.
Qed.

Lemma delete_zip_with {X Y W : Type} (f : X -> Y -> W)
    (a : list X) (b : list Y) (i : nat) :
  delete i (zip_with f a b) = zip_with f (delete i a) (delete i b).
Proof.
  revert b i. induction a as [|x a IH]; intros [|y b] [|i]; simpl;
    try reflexivity.
  - destruct a; reflexivity.
  - f_equal. apply IH.
Qed.

(** C8: on a well-formed batch with at least one time step in which row [i]
    has [sequence_length[i] = 0], each of the seven variants returns its raw
    losses, the dispatcher returns their masked reduction without raising,
    the batch mean divides by a positive batch size, the reduction of row
    [i] is [0] (summed or averaged over time), and the loss is the sum of
    the reductions of the other rows over the batch size. *)
Theorem soft_q_zero_length_row_contributes_nothing
    (implementation : string) logits (logits_ : list (list (list R)))
    actions rewards sl
    (coefficient margin_constant margin_coefficient : option R) (i : nat) :
  batch_ok B T V logits logits_ actions rewards sl ->
  1 <= T ->
  implementation ∈ implementations ->
  sl !! i = Some 0%Z ->
  exists f raw_losses quantities_to_log loss_log,
    select_sql_loss_func entropy_from_logits implementation
      coefficient margin_constant margin_coefficient = Some f
    /\ f logits logits_ actions rewards sl = Ok (raw_losses, quantities_to_log)
    /\ soft_q_loss_with_sparse_rewards entropy_from_logits implementation
         logits logits_ actions (RewardsTensor [B] rewards) sl
         coefficient margin_constant margin_coefficient
       = Ok (mask_and_reduce raw_losses sl false true, loss_log)
    /\ 0 < B
    /\ (exists row,
          raw_losses !! i = Some row
          /\ reduce_row false true row 0 = 0%R
          /\ reduce_row true false row 0 = 0%R)
    /\ mask_and_reduce raw_losses sl false true
       = (Rsum (zip_with (reduce_row false true)
                  (delete i raw_losses) (delete i sl)) / INR B)%R.
Proof.
  intros Hok HT Hin Hi. pose proof Hok as [Hl Hl_ Ha Har Hr Hs Hsr].
  assert (HB : 0 < B) by (rewrite <- Hs; eapply Nat.le_lt_trans;
                          [apply Nat.le_0_l | eapply lookup_lt_Some, Hi]).
  destruct (select_sql_loss_func_ok implementation _ _ _ _ _
              coefficient margin_constant margin_coefficient Hin Hok HT)
    as (f & raw & qlog & Hsel & Hf & [HrawB HrawT]).
  assert (Hrow : exists row, raw !! i = Some row).
  { apply lookup_lt_is_Some_2. rewrite HrawB, <- Hs. eapply lookup_lt_Some, Hi. }
  destruct Hrow as [row Hrow].
  exists f, raw, qlog. eexists.
  split; [exact Hsel|]. split; [exact Hf|]. split; [|split; [exact HB|split]].
  - unfold soft_q_loss_with_sparse_rewards.
    rewrite bool_decide_eq_false_2 by (intros Hn; exact (Hn Hin)).
    rewrite bool_decide_eq_false_2
      by (simpl; destruct Hl as [-> _]; intros [H|H]; congruence).
    rewrite Hsel.
    rewrite (bool_decide_eq_false_2 (shape3 logits ≠ shape3 logits_))
      by (rewrite (shape3_shaped _ Hl HB HT), (shape3_shaped _ Hl_ HB HT); tauto).
    rewrite Hf. res_simpl. reflexivity.
  - exists row. split; [exact Hrow|].
    split; apply reduce_row_nonpositive; lia.
  - unfold mask_and_reduce, Rmean.
    rewrite length_zip_with, HrawB, Hs, Nat.min_id.
    rewrite (Rsum_delete _ i), delete_zip_with; [reflexivity|].
    apply lookup_zip_with_Some. exists row, 0%Z.
    split; [|split; assumption].
    symmetry. apply reduce_row_nonpositive. lia.
Qed.
End zero_length.

(** ** Cloning nested containers *)

Section nested_clone.
Import Nested.

Lemma nested_tensor_operation_PList op (l : list (pyobj nat)) (σ : list storage) :
  nested_tensor_operation op (PList l) σ
  = ('(l', σ) ← nested_list op l σ ; Ok (PList l', σ)).
Proof. reflexivity. Qed.

Lemma nested_tensor_operation_PDict op (items : list (pykey * pyobj nat))
    (σ : list storage) :
  nested_tensor_operation op (PDict items) σ
  = ('(d, σ) ← nested_items op items [] σ ; Ok (PDict d, σ)).
Proof. reflexivity. Qed.

(** Induction on values, with the hypothesis on every element of a list
    and on every value of a dict. *)
Lemma pyobj_nested_ind {T : Type} (P : pyobj T -> Prop) :
  (forall l, Forall P l -> P (PList l)) ->
  (forall l, Forall P l -> P (PTuple l)) ->
  (forall items, Forall (fun kv => P kv.2) items -> P (PDict items)) ->
  (forall t, P (PTensor t)) ->
  (forall t, P (PNdarray t)) ->
  P PNone ->
  (forall b, P (PBool b)) ->
  (forall z, P (PInt z)) ->
  (forall r, P (PFloat r)) ->
  (forall s, P (PStr s)) ->
  P POther ->
  forall obj, P obj.
Proof.
  intros HL HT HD Hten Hnd Hnone Hb Hi Hf Hs Ho.
  fix IH 1. intros [l|l|items|t|t| |b|z|r|s| ];
    [ | | | apply Hten | apply Hnd | apply Hnone | apply Hb | apply Hi
    | apply Hf | apply Hs | apply Ho ].
  - apply HL. induction l as [|o l IHl]; constructor; [apply IH | exact IHl].
  - apply HT. induction l as [|o l IHl]; constructor; [apply IH | exact IHl].
  - apply HD. induction items as [|[k o] items IHl]; constructor;
      [apply IH | exact IHl].
Qed.

(** Two readings of the tensor leaves that agree on the storages an object
    reaches give the same contents. *)
Lemma obj_map_ext_locs {U : Type} (f g : nat -> U) (obj : pyobj nat) :
  (forall l, l ∈ obj_locs obj -> f l = g l) -> obj_map f obj = obj_map g obj.
Proof.
  induction obj as [l IH|l IH|items IH|t|t| |b|z|r|s| ] using pyobj_nested_ind;
    intros H; simpl; try reflexivity.
  - f_equal. apply Forall_fmap_ext_1, Forall_forall. intros o Ho.
    rewrite Forall_forall in IH. apply (IH o Ho).
    intros l' Hl'. apply H. simpl. apply list_elem_of_bind. eauto.
  - f_equal. apply Forall_fmap_ext_1, Forall_forall. intros o Ho.
    rewrite Forall_forall in IH. apply (IH o Ho).
    intros l' Hl'. apply H. simpl. apply list_elem_of_bind. eauto.
  - f_equal. apply Forall_fmap_ext_1, Forall_forall. intros kv Hkv.
    rewrite Forall_forall in IH. rewrite (IH kv Hkv); [reflexivity|].
    intros l' Hl'. apply H. simpl. apply list_elem_of_bind. eauto.
  - f_equal. apply H. simpl. apply list_elem_of_singleton. reflexivity.
  - f_equal. apply H. simpl. apply list_elem_of_singleton. reflexivity.
Qed.

(** Storages allocated later do not change what an object holds. *)
Lemma contents_app (σ new : list storage) (obj : pyobj nat) :
  allocated σ obj -> contents (σ ++ new) obj = contents σ obj.
Proof.
  intros Hal. apply obj_map_ext_locs. intros l Hl.
  unfold allocated in Hal. rewrite Forall_forall in Hal. rewrite lookup_app_l by auto. reflexivity.
Qed.

(** Writing to a storage allocated later does not change it either. *)
Lemma contents_insert_fresh (σ new : list storage) (obj : pyobj nat)
    (l : nat) (s : storage) :
  allocated σ obj -> length σ <= l ->
  contents (<[l := s]> (σ ++ new)) obj = contents σ obj.
Proof.
  intros Hal Hl. apply obj_map_ext_locs. intros l' Hl'.
  unfold allocated in Hal. rewrite Forall_forall in Hal. specialize (Hal l' Hl').
  rewrite list_lookup_insert_ne by lia.
  rewrite lookup_app_l by exact Hal. reflexivity.
Qed.

Lemma allocated_app (σ new : list storage) (obj : pyobj nat) :
  allocated σ obj -> allocated (σ ++ new) obj.
Proof.
  unfold allocated. intros H. eapply Forall_impl; [exact H|].
  intros l Hl. simpl in *. rewrite length_app. lia.
Qed.

Lemma fresh_in_allocated (σ σ' : list storage) (obj : pyobj nat) :
  fresh_in σ σ' obj -> allocated σ' obj.
Proof.
  unfold fresh_in, allocated. intros H. eapply Forall_impl; [exact H|].
  intros l Hl. simpl in *. lia.
Qed.

Lemma fresh_in_weaken (σ n1 n2 : list storage) (obj : pyobj nat) :
  fresh_in (σ ++ n1) ((σ ++ n1) ++ n2) obj -> fresh_in σ ((σ ++ n1) ++ n2) obj.
Proof.
  unfold fresh_in. intros H. eapply Forall_impl; [exact H|].
  intros l. simpl. rewrite !length_app. lia.
Qed.

Lemma fresh_in_extend (σ n1 n2 : list storage) (obj : pyobj nat) :
  fresh_in σ (σ ++ n1) obj -> fresh_in σ ((σ ++ n1) ++ n2) obj.
Proof.
  unfold fresh_in. intros H. eapply Forall_impl; [exact H|].
  intros l. simpl. rewrite !length_app. lia.
Qed.

(** [X.detach().clone()] (and [.cpu()]) on an allocated tensor. *)
Lemma operation_clone (to_cpu : bool) (X : nat) (σ : list storage) :
  X < length σ ->
  exists X' new,
    _operation to_cpu false X σ = Ok (PTensor X', σ ++ new)
    /\ length σ <= X' < length (σ ++ new)
    /\ st_data <$> (σ ++ new) !! X' = st_data <$> σ !! X.
Proof.
  intros HX. destruct (lookup_lt_is_Some_2 σ X HX) as [s Hs].
  unfold _operation. rewrite Hs.
  destruct to_cpu; [destruct (st_device s) eqn:Hdev|]; simpl.
  - exists (length σ), [s]. split; [reflexivity|].
    rewrite length_app. simpl. split; [lia|].
    rewrite lookup_app_r, Nat.sub_diag by lia. reflexivity.
  - exists (length (σ ++ [s])),
      [s; {| st_device := Cpu; st_data := st_data s |}].
    split; [rewrite <- app_assoc; reflexivity|].
    rewrite !length_app. simpl. split; [lia|].
    rewrite lookup_app_r by lia.
    replace (length σ + 1 - length σ) with 1 by lia. reflexivity.
  - exists (length σ), [s]. split; [reflexivity|].
    rewrite length_app. simpl. split; [lia|].
    rewrite lookup_app_r, Nat.sub_diag by lia. reflexivity.
Qed.

Lemma nested_list_cons op (o : pyobj nat) (l : list (pyobj nat)) (σ : list storage) :
  nested_list op (o :: l) σ
  = ('(o', σ) ← nested_tensor_operation op o σ ;
     '(l', σ) ← nested_list op l σ ;
     Ok (o' :: l', σ)).
Proof. reflexivity. Qed.

Lemma nested_items_cons op (key : pykey) (val : pyobj nat)
    (items : list (pykey * pyobj nat)) (acc : list (pykey * pyobj nat))
    (σ : list storage) :
  nested_items op ((key, val) :: items) acc σ
  = if is_str_key key then
      '(v, σ) ← nested_tensor_operation op val σ ;
      nested_items op items (dict_set key v acc) σ
    else Raise NotImplementedError.
Proof. reflexivity. Qed.

Lemma dict_set_fresh {K A : Type} `{EqDecision K} (k : K) (v : A) (d : list (K * A)) :
  k ∉ d.*1 -> dict_set k v d = d ++ [(k, v)].
Proof.
  induction d as [|[k' v'] d IH]; intros Hk; simpl; [reflexivity|].
  rewrite fmap_cons in Hk. apply not_elem_of_cons in Hk as [Hne Hk].
  rewrite bool_decide_eq_false_2 by exact Hne. rewrite IH by exact Hk. reflexivity.
Qed.

Lemma allocated_PList (σ : list storage) (l : list (pyobj nat)) :
  allocated σ (PList l) <-> Forall (allocated σ) l.
Proof. unfold allocated. simpl. apply Forall_bind. Qed.

Lemma allocated_PDict (σ : list storage) (items : list (pykey * pyobj nat)) :
  allocated σ (PDict items) <-> Forall (fun kv => allocated σ kv.2) items.
Proof. unfold allocated. simpl. apply Forall_bind. Qed.

Lemma fresh_in_PList (σ σ' : list storage) (l : list (pyobj nat)) :
  fresh_in σ σ' (PList l) <-> Forall (fresh_in σ σ') l.
Proof. unfold fresh_in. simpl. apply Forall_bind. Qed.

Lemma fresh_in_PDict (σ σ' : list storage) (items : list (pykey * pyobj nat)) :
  fresh_in σ σ' (PDict items) <-> Forall (fun kv => fresh_in σ σ' kv.2) items.
Proof. unfold fresh_in. simpl. apply Forall_bind. Qed.

Section clone.
Variable to_cpu : bool.

Lemma nested_list_clones (l : list (pyobj nat)) :
  Forall (fun o => plain o = true -> clones to_cpu o) l ->
  forallb plain l = true ->
  forall σ : list storage,
    Forall (allocated σ) l ->
    exists l' new,
      nested_list (_operation to_cpu false) l σ = Ok (l', σ ++ new)
      /\ contents (σ ++ new) <$> l' = contents σ <$> l
      /\ Forall (fresh_in σ (σ ++ new)) l'.
Proof.
  induction 1 as [|o l Ho _ IHl]; intros Hpl σ Hal.
  - exists [], []. rewrite app_nil_r. repeat split. constructor.
  - simpl in Hpl. apply andb_prop in Hpl as [Hpo Hpl].
    inversion Hal as [|? ? Hao Hal']; subst.
    destruct (Ho Hpo σ Hao) as (o' & n1 & Ho1 & Hc1 & Hf1).
    destruct (IHl Hpl (σ ++ n1)) as (l' & n2 & Hl2 & Hc2 & Hf2).
    { eapply Forall_impl; [exact Hal'|]. intros x. apply allocated_app. }
    exists (o' :: l'), (n1 ++ n2). rewrite app_assoc.
    split; [|split].
    + rewrite nested_list_cons, Ho1. res_simpl. rewrite Hl2. reflexivity.
    + rewrite !fmap_cons. f_equal.
      * rewrite contents_app by exact (fresh_in_allocated _ _ _ Hf1). exact Hc1.
      * rewrite Hc2. apply Forall_fmap_ext_1.
        eapply Forall_impl; [exact Hal'|]. intros x. apply contents_app.
    + constructor; [apply fresh_in_extend, Hf1|].
      eapply Forall_impl; [exact Hf2|]. intros x. apply fresh_in_weaken.
Qed.

Lemma nested_items_clones (items : list (pykey * pyobj nat)) :
  Forall (fun kv => plain kv.2 = true -> clones to_cpu kv.2) items ->
  forallb (fun kv => is_str_key kv.1 && plain kv.2) items = true ->
  NoDup items.*1 ->
  forall (acc : list (pykey * pyobj nat)) (σ : list storage),
    (forall k, k ∈ items.*1 -> k ∉ acc.*1) ->
    Forall (fun kv => allocated σ kv.2) items ->
    exists items' new,
      nested_items (_operation to_cpu false) items acc σ
      = Ok (acc ++ items', σ ++ new)
      /\ (fun kv => (kv.1, contents (σ ++ new) kv.2)) <$> items'
         = (fun kv => (kv.1, contents σ kv.2)) <$> items
      /\ Forall (fun kv => fresh_in σ (σ ++ new) kv.2) items'.
Proof.
  induction 1 as [|[k o] items Ho _ IHl]; intros Hpl Hnd acc σ Hdisj Hal.
  - exists [], []. rewrite !app_nil_r. repeat split. constructor.
  - simpl in Hpl. apply andb_prop in Hpl as [Hpo Hpl].
    apply andb_prop in Hpo as [Hk Hpo].
    rewrite fmap_cons in Hnd. apply NoDup_cons in Hnd as [Hkn Hnd]. simpl in Hkn.
    inversion Hal as [|? ? Hao Hal']; subst. simpl in Hao.
    destruct (Ho Hpo σ Hao) as (o' & n1 & Ho1 & Hc1 & Hf1).
    destruct (IHl Hpl Hnd (acc ++ [(k, o')]) (σ ++ n1))
      as (items' & n2 & Hl2 & Hc2 & Hf2).
    { intros k' Hk'. rewrite fmap_app. simpl. intros Hin.
      apply elem_of_app in Hin as [Hin|Hin].
      - apply (Hdisj k'); [|exact Hin]. rewrite fmap_cons. apply elem_of_cons. auto.
      - apply list_elem_of_singleton in Hin. subst k'. contradiction. }
    { eapply Forall_impl; [exact Hal'|]. intros x. apply allocated_app. }
    exists ((k, o') :: items'), (n1 ++ n2). rewrite app_assoc.
    split; [|split].
    + rewrite nested_items_cons, Hk. simpl in Ho1. rewrite Ho1. res_simpl.
      rewrite dict_set_fresh.
      * rewrite Hl2, <- app_assoc. reflexivity.
      * apply Hdisj. rewrite fmap_cons. apply elem_of_cons. auto.
    + rewrite !fmap_cons. simpl. f_equal.
      * f_equal.
        rewrite contents_app by exact (fresh_in_allocated _ _ _ Hf1). exact Hc1.
      * rewrite Hc2. apply Forall_fmap_ext_1.
        eapply Forall_impl; [exact Hal'|]. intros x Hx. simpl.
        rewrite contents_app by exact Hx. reflexivity.
    + constructor; [apply fresh_in_extend, Hf1|].
      eapply Forall_impl; [exact Hf2|]. intros x. apply fresh_in_weaken.
Qed.

Lemma plain_clones (obj : pyobj nat) : plain obj = true -> clones to_cpu obj.
Proof.
  induction obj as [l IH|l IH|items IH|t|t| |b|z|r|s| ] using pyobj_nested_ind;
    intros Hp; try discriminate Hp; intros σ Hal.
  - apply allocated_PList in Hal.
    destruct (nested_list_clones l IH Hp σ Hal) as (l' & new & Hl & Hc & Hf).
    exists (PList l'), new. split; [|split].
    + rewrite nested_tensor_operation_PList, Hl. reflexivity.
    + unfold contents in *. simpl. f_equal. exact Hc.
    + apply fresh_in_PList, Hf.
  - simpl in Hp. apply andb_prop in Hp as [Hp Hnd].
    apply bool_decide_eq_true in Hnd.
    apply allocated_PDict in Hal.
    destruct (nested_items_clones items IH Hp Hnd [] σ) as (d & new & Hl & Hc & Hf);
      [intros k _; apply not_elem_of_nil | exact Hal |].
    exists (PDict d), new. split; [|split].
    + rewrite nested_tensor_operation_PDict, Hl. reflexivity.
    + unfold contents in *. simpl. f_equal. exact Hc.
    + apply fresh_in_PDict, Hf.
  - assert (Ht : t < length σ).
    { unfold allocated in Hal. simpl in Hal. inversion Hal; subst. assumption. }
    destruct (operation_clone to_cpu t σ Ht) as (X' & new & Hop & Hrange & Hdata).
    exists (PTensor X'), new. split; [exact Hop|]. split.
    + unfold contents. simpl. f_equal. exact Hdata.
    + unfold fresh_in. simpl. constructor; [exact Hrange | constructor].
  - exists PNone, []. rewrite app_nil_r. repeat split. constructor.
  - exists (PBool b), []. rewrite app_nil_r. repeat split. constructor.
  - exists (PInt z), []. rewrite app_nil_r. repeat split. constructor.
  - exists (PFloat r), []. rewrite app_nil_r. repeat split. constructor.
  - exists (PStr s), []. rewrite app_nil_r. repeat split. constructor.
Qed.
End clone.

(** A tuple comes back as a list: tuples are not among the structures of
    the round trip. *)
Example nested_tuple_becomes_list :
  nested_detach_and_clone (PTuple [PInt 1; PNone]) false false []
  = Ok (PList [PInt 1; PNone], []).
Proof. reflexivity. Qed.

(** C9: on a structure built from dicts with string keys, lists, tensors,
    scalars, booleans, strings and [None], [nested_detach_and_clone]
    returns a structure with the same tree, keys and values; no tensor of
    the result has the storage of a tensor of the source, and writing to a
    tensor of the result leaves what the source holds unchanged. *)
Theorem nested_detach_and_clone_round_trip
    (obj : pyobj nat) (to_cpu : bool) (σ : list storage) :
  plain obj = true ->
  allocated σ obj ->
  exists obj' σ',
    nested_detach_and_clone obj to_cpu false σ = Ok (obj', σ')
    /\ contents σ' obj' = contents σ obj
    /\ contents σ' obj = contents σ obj
    /\ (forall l, l ∈ obj_locs obj' -> l ∉ obj_locs obj)
    /\ (forall l s, l ∈ obj_locs obj' ->
          contents (<[l := s]> σ') obj = contents σ obj).
Proof.
  intros Hp Hal.
  destruct (plain_clones to_cpu obj Hp σ Hal) as (obj' & new & Hop & Hc & Hf).
  exists obj', (σ ++ new).
  unfold nested_detach_and_clone. rewrite Bool.andb_false_r.
  split; [exact Hop|]. split; [exact Hc|].
  split; [apply contents_app, Hal|].
  unfold fresh_in in Hf. rewrite Forall_forall in Hf.
  split.
  - intros l Hl Hl'. unfold allocated in Hal. rewrite Forall_forall in Hal.
    specialize (Hf l Hl). specialize (Hal l Hl'). lia.
  - intros l s Hl. apply contents_insert_fresh; [exact Hal|].
    specialize (Hf l Hl). lia.
Qed.
End nested_clone.

(** * Further properties *)

(** ** Dicts *)

Section dict_properties.
Context {K A : Type} `{EqDecision K}.
Implicit Types (d m : dict K A) (k : K) (v : A).

Lemma dict_get_None k d : dict_get k d = None <-> k ∉ d.*1.
Proof.
  induction d as [|[k' v'] d IH]; simpl.
  - split; [intros _; apply not_elem_of_nil | done].
  - rewrite not_elem_of_cons. case_bool_decide as Hk.
    + split; [discriminate | intros [? _]; contradiction].
    + rewrite IH. tauto.
Qed.

Lemma dict_get_app_notin k (E d : dict K A) :
  k ∉ E.*1 -> dict_get k (E ++ d) = dict_get k d.
Proof.
  induction E as [|[k' v'] E IH]; intros Hk; simpl; [reflexivity|].
  rewrite fmap_cons in Hk. apply not_elem_of_cons in Hk as [Hne Hk].
  rewrite bool_decide_eq_false_2 by exact Hne. apply IH, Hk.
Qed.

Lemma dict_remove_app_notin k (E d : dict K A) :
  k ∉ E.*1 -> dict_remove k (E ++ d) = E ++ dict_remove k d.
Proof.
  induction E as [|[k' v'] E IH]; intros Hk; simpl; [reflexivity|].
  rewrite fmap_cons in Hk. apply not_elem_of_cons in Hk as [Hne Hk].
  rewrite bool_decide_eq_false_2 by exact Hne. rewrite IH by exact Hk. reflexivity.
Qed.

Lemma dict_get_set_eq k v d : dict_get k (dict_set k v d) = Some v.
Proof.
  induction d as [|[k' v'] d IH]; simpl.
  - rewrite bool_decide_eq_true_2 by done. reflexivity.
  - case_bool_decide as Hk; simpl.
    + rewrite bool_decide_eq_true_2 by done. reflexivity.
    + rewrite bool_decide_eq_false_2 by done. exact IH.
Qed.

Lemma dict_get_set_ne k k' v d :
  k ≠ k' -> dict_get k (dict_set k' v d) = dict_get k d.
Proof.
  intros Hne. induction d as [|[k'' v''] d IH]; simpl.
  - rewrite bool_decide_eq_false_2 by done. reflexivity.
  - destruct (decide (k' = k'')) as [->|Hk'].
    + rewrite (bool_decide_eq_true_2 (k'' = k'')) by done. simpl.
      rewrite !bool_decide_eq_false_2 by done. reflexivity.
    + rewrite (bool_decide_eq_false_2 (k' = k'')) by done. simpl.
      case_bool_decide; [reflexivity | exact IH].
Qed.

Lemma dict_set_keys k v d :
  (dict_set k v d).*1 = if bool_decide (k ∈ d.*1) then d.*1 else d.*1 ++ [k].
Proof.
  induction d as [|[k' v'] d IH]; [reflexivity|].
  cbn [dict_set]. rewrite fmap_cons. cbn [fst].
  destruct (decide (k = k')) as [->|Hne].
  - rewrite (bool_decide_eq_true_2 (k' = k')) by done.
    rewrite bool_decide_eq_true_2 by apply list_elem_of_here. reflexivity.
  - rewrite (bool_decide_eq_false_2 (k = k')) by done.
    rewrite fmap_cons, IH. cbn [fst].
    destruct (decide (k ∈ d.*1)) as [Hin|Hnin].
    + rewrite !bool_decide_eq_true_2; [reflexivity | | exact Hin].
      apply list_elem_of_further, Hin.
    + rewrite !bool_decide_eq_false_2; [reflexivity | | exact Hnin].
      rewrite not_elem_of_cons. tauto.
Qed.

Lemma dict_set_NoDup k v d : NoDup d.*1 -> NoDup (dict_set k v d).*1.
Proof.
  intros Hd. rewrite dict_set_keys. case_bool_decide as Hk; [exact Hd|].
  apply NoDup_app. split; [exact Hd|]. split.
  - intros x Hx Hx'. apply list_elem_of_singleton in Hx'. subst. contradiction.
  - apply NoDup_singleton.
Qed.

Lemma dict_update_NoDup m d : NoDup m.*1 -> NoDup (dict_update m d).*1.
Proof.
  revert m. unfold dict_update.
  induction d as [|[k v] d IH]; intros m Hm; simpl; [exact Hm|].
  apply IH, dict_set_NoDup, Hm.
Qed.

(** [merged.update(d)]: the entries of [d] win, the others stay. *)
Lemma dict_update_get k m d :
  NoDup d.*1 ->
  dict_get k (dict_update m d)
  = match dict_get k d with
    | Some v => Some v
    | None => dict_get k m
    end.
Proof.
  revert m. unfold dict_update.
  induction d as [|[k' v'] d IH]; intros m Hd; [reflexivity|].
  rewrite fmap_cons in Hd. apply NoDup_cons in Hd as [Hk' Hd]. cbn [fst] in Hk'.
  cbn [foldl dict_get fst snd]. rewrite (IH _ Hd).
  case_bool_decide as Hk.
  - subst k'. apply dict_get_None in Hk'. rewrite Hk'. apply dict_get_set_eq.
  - rewrite dict_get_set_ne by exact Hk. reflexivity.
Qed.

Lemma unionize_dicts_snoc (dict_list : list (dict K A)) d :
  unionize_dicts (dict_list ++ [d]) = dict_update (unionize_dicts dict_list) d.
Proof. unfold unionize_dicts. apply foldl_snoc. Qed.

Lemma unionize_dicts_NoDup (dict_list : list (dict K A)) :
  NoDup (unionize_dicts dict_list).*1.
Proof.
  induction dict_list as [|d dict_list IH] using rev_ind.
  - apply NoDup_nil_2.
  - rewrite unionize_dicts_snoc. apply dict_update_NoDup, IH.
Qed.

(** X1: the merged dict has every key once, and a key has the value of the last dict
    of the list that holds it. *)
Theorem unionize_dicts_last_wins (dict_list : list (dict K A)) (k : K) (v : A) :
  Forall (fun d => NoDup d.*1) dict_list ->
  NoDup (unionize_dicts dict_list).*1
  /\ (dict_get k (unionize_dicts dict_list) = Some v
      <-> exists i d,
            dict_list !! i = Some d /\ dict_get k d = Some v
            /\ forall j d', i < j -> dict_list !! j = Some d' ->
                 dict_get k d' = None).
Proof.
  intros Hnd. split; [apply unionize_dicts_NoDup|].
  induction dict_list as [|d dict_list IH] using rev_ind.
  - split; [discriminate|]. intros (i & d & Hi & _). rewrite lookup_nil in Hi. discriminate.
  - apply Forall_app in Hnd as [Hnd Hd]. apply Forall_cons in Hd as [Hd _].
    rewrite unionize_dicts_snoc, (dict_update_get _ _ _ Hd).
    destruct (dict_get k d) as [w|] eqn:Hw.
    + split.
      * intros Hv. exists (length dict_list), d.
        split; [apply list_lookup_middle; reflexivity|].
        split; [congruence|].
        intros j d' Hj Hd'. apply lookup_lt_Some in Hd'.
        rewrite length_app in Hd'. simpl in Hd'. lia.
      * intros (i & d0 & Hi & Hv & Hlast).
        destruct (decide (i = length dict_list)) as [->|Hne].
        -- rewrite list_lookup_middle in Hi by reflexivity. congruence.
        -- pose proof (lookup_lt_Some _ _ _ Hi) as Hlt.
           rewrite length_app in Hlt. simpl in Hlt.
           rewrite (Hlast (length dict_list) d) in Hw;
             [discriminate | lia | apply list_lookup_middle; reflexivity].
    + rewrite (IH Hnd). split.
      * intros (i & d0 & Hi & Hv & Hlast). exists i, d0.
        split; [apply lookup_app_l_Some, Hi|]. split; [exact Hv|].
        intros j d' Hj Hd'.
        destruct (decide (j = length dict_list)) as [->|Hne].
        -- rewrite list_lookup_middle in Hd' by reflexivity. congruence.
        -- apply (Hlast j d' Hj).
           rewrite lookup_app_l in Hd'; [exact Hd'|].
           apply lookup_lt_Some in Hd'. rewrite length_app in Hd'. simpl in Hd'. lia.
      * intros (i & d0 & Hi & Hv & Hlast).
        assert (Hlt : i < length dict_list).
        { pose proof (lookup_lt_Some _ _ _ Hi) as Hlt.
          rewrite length_app in Hlt. simpl in Hlt.
          destruct (decide (i = length dict_list)) as [->|Hne]; [|lia].
          rewrite list_lookup_middle in Hi by reflexivity. congruence. }
        exists i, d0. rewrite lookup_app_l in Hi by exact Hlt.
        split; [exact Hi|]. split; [exact Hv|].
        intros j d' Hj Hd'. apply (Hlast j d' Hj). apply lookup_app_l_Some, Hd'.
Qed.
End dict_properties.

(** ** Renaming keys *)

Section add_prefix.
Context {A : Type}.
Implicit Types (d E D rest : dict string A) (prefix key : string).

(** The body of the loop of [add_prefix_to_dict_keys_inplace]. *)
Lemma add_prefix_fold prefix ex (E rest D : dict string A) :
  NoDup rest.*1 ->
  (forall k, k ∈ rest.*1 -> k ∉ E.*1) ->
  (forall k, k ∈ rest.*1 -> excluded ex k = false ->
     ((prefix +:+ k) ∉ E.*1) /\ ((prefix +:+ k) ∉ D.*1)
     /\ forall k', k' ∈ rest.*1 -> k' ≠ k -> prefix +:+ k ≠ k') ->
  foldl
    (fun d key =>
       if match ex with
          | Some ex => bool_decide (key ∈ ex)
          | None => false
          end
       then d
       else match dict_get key d with
            | Some v => dict_set (prefix +:+ key) v (dict_remove key d)
            | None => d
            end)
    (E ++ rest ++ D) rest.*1
  = (E ++ List.filter (fun kv => excluded ex kv.1) rest)
    ++ D ++ ((fun kv => (prefix +:+ kv.1, kv.2))
               <$> List.filter (fun kv => negb (excluded ex kv.1)) rest).
Proof.
  revert E D. induction rest as [|[k v] rest IH]; intros E D Hnd HE Hfresh.
  - simpl. rewrite !app_nil_r. reflexivity.
  - rewrite fmap_cons in Hnd. apply NoDup_cons in Hnd as [Hk Hnd]. cbn [fst] in Hk.
    rewrite fmap_cons. cbn [foldl fst List.filter].
    change (match ex with
            | Some ex0 => bool_decide (k ∈ ex0)
            | None => false
            end) with (excluded ex k).
    destruct (excluded ex k) eqn:Hex; cbn [negb].
    + replace (E ++ ((k, v) :: rest) ++ D) with ((E ++ [(k, v)]) ++ rest ++ D)
        by (rewrite <- !app_assoc; reflexivity).
      rewrite IH; [rewrite <- !app_assoc; reflexivity | exact Hnd | |].
      * intros k' Hk'. rewrite fmap_app, elem_of_app. intros [Hin|Hin].
        -- exact (HE k' (list_elem_of_further _ _ _ Hk') Hin).
        -- apply list_elem_of_singleton in Hin. simpl in Hin. subst. contradiction.
      * intros k' Hk' Hex'.
        destruct (Hfresh k' (list_elem_of_further _ _ _ Hk') Hex') as (H1 & H2 & H3).
        split; [|split; [exact H2|]].
        -- rewrite fmap_app, elem_of_app. intros [Hin|Hin]; [exact (H1 Hin)|].
           apply list_elem_of_singleton in Hin. simpl in Hin.
           refine (H3 k _ _ Hin); [apply list_elem_of_here|].
           intros ->. contradiction.
        -- intros k'' Hk''. apply H3, list_elem_of_further, Hk''.
    + destruct (Hfresh k (list_elem_of_here _ _) Hex) as (H1 & H2 & H3).
      assert (HkE : k ∉ E.*1) by apply HE, list_elem_of_here.
      rewrite dict_get_app_notin by exact HkE. cbn [app dict_get].
      rewrite bool_decide_eq_true_2 by reflexivity.
      rewrite dict_remove_app_notin by exact HkE. cbn [dict_remove].
      rewrite bool_decide_eq_true_2 by reflexivity.
      rewrite dict_set_fresh; cycle 1.
      { rewrite !fmap_app, !elem_of_app. intros [Hin|[Hin|Hin]].
        - exact (H1 Hin).
        - refine (H3 _ (list_elem_of_further _ _ _ Hin) _ eq_refl).
          intros Heq. rewrite Heq in Hin. contradiction.
        - exact (H2 Hin). }
      replace ((E ++ rest ++ D) ++ [(prefix +:+ k, v)])
        with (E ++ rest ++ (D ++ [(prefix +:+ k, v)]))
        by (rewrite <- !app_assoc; reflexivity).
      rewrite IH; [rewrite fmap_cons, <- !app_assoc; reflexivity | exact Hnd | |].
      * intros k' Hk'. apply HE, list_elem_of_further, Hk'.
      * intros k' Hk' Hex'.
        destruct (Hfresh k' (list_elem_of_further _ _ _ Hk') Hex') as (H1' & H2' & H3').
        split; [exact H1'|]. split.
        -- rewrite fmap_app, elem_of_app. intros [Hin|Hin]; [exact (H2' Hin)|].
           apply list_elem_of_singleton in Hin. simpl in Hin.
           apply (inj (String.append prefix)) in Hin. subst. contradiction.
        -- intros k'' Hk''. apply H3', list_elem_of_further, Hk''.
Qed.

(** X2: when no new name is a different key of the dict, the keys that are
    not excluded are renamed: the excluded entries keep their places and the
    renamed ones follow, in their order, each with its value. *)
Theorem add_prefix_to_dict_keys_inplace_renames
    (d : dict string A) (prefix : string) (keys_to_exclude : option (list string)) :
  NoDup d.*1 ->
  (forall key key', key ∈ d.*1 -> excluded keys_to_exclude key = false ->
     key' ∈ d.*1 -> key' ≠ key -> prefix +:+ key ≠ key') ->
  add_prefix_to_dict_keys_inplace d prefix keys_to_exclude
  = List.filter (fun kv => excluded keys_to_exclude kv.1) d
    ++ ((fun kv => (prefix +:+ kv.1, kv.2))
          <$> List.filter (fun kv => negb (excluded keys_to_exclude kv.1)) d).
Proof.
  intros Hnd Hfresh. unfold add_prefix_to_dict_keys_inplace.
  pose proof (add_prefix_fold prefix keys_to_exclude [] d [] Hnd) as H.
  rewrite app_nil_r in H. simpl in H. apply H.
  - intros k _. apply not_elem_of_nil.
  - intros k Hk Hex. split; [apply not_elem_of_nil|]. split; [apply not_elem_of_nil|].
    intros k' Hk' Hne. exact (Hfresh k k' Hk Hex Hk' Hne).
Qed.

(** When the new name of a key is a later key of the dict, the value of
    the later key is overwritten before that key is renamed, and is lost. *)
Example add_prefix_to_dict_keys_inplace_collision (key prefix : string) (v w : A) :
  add_prefix_to_dict_keys_inplace [(key, v); (prefix +:+ key, w)] prefix None
  = [(prefix +:+ prefix +:+ key, v)].
Proof.
  unfold add_prefix_to_dict_keys_inplace. simpl.
  repeat (rewrite !bool_decide_eq_true_2 by reflexivity; simpl). reflexivity.
Qed.
End add_prefix.

(** ** Indexed reads and writes *)

Section index_errors.
Implicit Types (row : list R) (x : list (list R)) (idx : list Z).

Lemma py_index_error (n : nat) (i : Z) :
  ¬ index_ok n i -> py_index n i = Raise IndexError.
Proof.
  unfold py_index, index_ok. intros H.
  rewrite !bool_decide_eq_false_2 by lia. reflexivity.
Qed.

(** [x[arange, idx]] on rows of length [n], at least as many as indices:
    the read returns when every index is in range, and raises [IndexError]
    otherwise. *)
Lemma gather_rows_index_error (n : nat) x idx :
  Forall (fun row => length row = n) x -> length idx <= length x ->
  ¬ Forall (index_ok n) idx -> gather_rows x idx = Raise IndexError.
Proof.
  intros Hx. revert idx. induction Hx as [|row x Hrow _ IH]; intros [|i idx] Hlen Hbad.
  - destruct Hbad. constructor.
  - simpl in Hlen. lia.
  - destruct Hbad. constructor.
  - simpl. destruct (decide (- Z.of_nat n <= i < Z.of_nat n)%Z) as [Hi|Hi].
    + rewrite Hrow, (py_index_ok _ _ Hi). res_simpl.
      rewrite IH; [reflexivity | simpl in Hlen; lia |].
      intros Hall. apply Hbad. constructor; assumption.
    + rewrite Hrow, (py_index_error _ _ Hi). reflexivity.
Qed.

Lemma index_get_rows_index_error (n : nat) x idx :
  Forall (fun row => length row = n) x -> length idx <= length x ->
  ¬ Forall (index_ok n) idx -> index_get_rows x idx = Raise IndexError.
Proof.
  intros Hx. revert idx. induction Hx as [|row x Hrow _ IH]; intros [|i idx] Hlen Hbad.
  - destruct Hbad. constructor.
  - simpl in Hlen. lia.
  - destruct Hbad. constructor.
  - simpl. destruct (decide (- Z.of_nat n <= i < Z.of_nat n)%Z) as [Hi|Hi].
    + rewrite Hrow, (py_index_ok _ _ Hi). res_simpl.
      rewrite IH; [reflexivity | simpl in Hlen; lia |].
      intros Hall. apply Hbad. constructor; assumption.
    + rewrite Hrow, (py_index_error _ _ Hi). reflexivity.
Qed.

Lemma index_put_rows_index_error (n : nat) x idx (vals : list R) :
  Forall (fun row => length row = n) x -> length idx <= length x ->
  length idx <= length vals ->
  ¬ Forall (index_ok n) idx -> index_put_rows x idx vals = Raise IndexError.
Proof.
  intros Hx. revert idx vals.
  induction Hx as [|row x Hrow _ IH]; intros [|i idx] vals Hlen Hvals Hbad.
  - destruct Hbad. constructor.
  - simpl in Hlen. lia.
  - destruct Hbad. constructor.
  - destruct vals as [|v vals]; [simpl in Hvals; lia|].
    simpl. destruct (decide (- Z.of_nat n <= i < Z.of_nat n)%Z) as [Hi|Hi].
    + rewrite Hrow, (py_index_ok _ _ Hi). res_simpl.
      rewrite IH; [reflexivity | simpl in Hlen; lia | simpl in Hvals; lia |].
      intros Hall. apply Hbad. constructor; assumption.
    + rewrite Hrow, (py_index_error _ _ Hi). reflexivity.
Qed.

Lemma length_concat_shaped2 {A : Type} (B T : nat) (x : list (list A)) :
  shaped2 B T x -> length (concat x) = B * T.
Proof.
  intros [<- HT]. induction HT as [|row x Hrow _ IH]; [reflexivity|].
  simpl. rewrite length_app, IH, Hrow. reflexivity.
Qed.

Lemma Forall_concat_shaped3 (B T V : nat) (x : list (list (list R))) :
  shaped3 B T V x -> Forall (fun row => length row = V) (concat x).
Proof.
  intros [_ HT]. apply Forall_concat.
  eapply Forall_impl; [exact HT|]. intros rows [_ H]. exact H.
Qed.
End index_errors.

(** X3: [gather_2d_on_last_dim] picks, at every position of [index], the entry
    of the last dimension of [tensor] that the index names, a negative
    index counting from the end; the result has the shape of [index]. *)
Theorem gather_2d_on_last_dim_entries (B T V : nat)
    (tensor : list (list (list R))) (index : list (list Z)) :
  shaped3 B T V tensor -> shaped2 B T index ->
  Forall (Forall (index_ok V)) index ->
  exists gathered,
    gather_2d_on_last_dim tensor index = Ok gathered
    /\ shaped2 B T gathered
    /\ forall b t row a,
         elem2 tensor b t = Some row -> elem2 index b t = Some a ->
         exists v, row !! norm_index V a = Some v /\ elem2 gathered b t = Some v.
Proof.
  intros Ht Hi Hr. exists (pick2 tensor index).
  split; [apply gather_2d_on_last_dim_ok; eapply actions_index_ok; eassumption|].
  split; [eapply shaped2_pick2; eassumption|].
  intros b t row a Hrow Ha.
  pose proof (shaped3_elem2_length _ _ _ _ _ _ _ Ht Hrow) as HV.
  assert (Hlt : norm_index V a < length row).
  { rewrite HV. apply norm_index_lt. unfold elem2 in Ha.
    destruct (index !! b) as [irow|] eqn:Hirow; simplify_eq/=.
    exact (Forall_lookup_1 _ _ _ _ (Forall_lookup_1 _ _ _ _ Hr Hirow) Ha). }
  destruct (lookup_lt_is_Some_2 _ _ Hlt) as [v Hv]. exists v. split; [exact Hv|].
  unfold pick2. erewrite elem2_zip_with; [| exact Hrow | exact Ha].
  unfold pick. rewrite HV, Hv. reflexivity.
Qed.

(** X4: an index outside [-V, V) makes [gather_2d_on_last_dim] raise
    [IndexError]. *)
Theorem gather_2d_on_last_dim_index_error (B T V : nat)
    (tensor : list (list (list R))) (index : list (list Z)) :
  shaped3 B T V tensor -> shaped2 B T index ->
  ¬ Forall (Forall (index_ok V)) index ->
  gather_2d_on_last_dim tensor index = Raise IndexError.
Proof.
  intros Ht Hi Hbad. unfold gather_2d_on_last_dim.
  rewrite (gather_rows_index_error V); [reflexivity | | |].
  - apply (Forall_concat_shaped3 B T), Ht.
  - rewrite (length_concat_shaped2 B T _ Hi).
    rewrite (length_concat_shaped2 B T _ (shaped3_shaped2 _ _ _ _ Ht)). done.
  - intros H. apply Hbad, Forall_concat, H.
Qed.

(** ** The targets of V1 and V2 *)

Section terminal_targets.
Local Open Scope string_scope.
Variable entropy_from_logits : list (list (list R)) -> list (list R).
Variables B T V : nat.
Implicit Types (logits : list (list (list R))) (actions : list (list Z)).
Implicit Types (rewards : list R) (sl : list Z).

Lemma shaped2_rows {A : Type} (n m : nat) (x : list (list A)) :
  shaped2 n m x -> Forall (fun row => length row = m) x.
Proof. intros [_ H]. exact H. Qed.

(** X5: a [sequence_length] whose terminal column [sequence_length - 1] is
    outside [-T, T) makes the V1 and the V2 variant raise [IndexError]. *)
Theorem soft_q_terminal_index_error
    logits (logits_ : list (list (list R))) actions rewards sl :
  shaped3 B T V logits -> shaped3 B T V logits_ -> shaped2 B T actions ->
  Forall (Forall (index_ok V)) actions ->
  length rewards = B -> length sl = B ->
  ¬ Forall (fun n => (1 - Z.of_nat T <= n <= Z.of_nat T)%Z) sl ->
  soft_q_loss_with_sparse_rewards_1 logits logits_ actions rewards sl
  = Raise IndexError
  /\ soft_q_loss_with_sparse_rewards_2 entropy_from_logits
       logits logits_ actions rewards sl
     = Raise IndexError.
Proof.
  intros Hl Hl_ Ha Har Hr Hs Hbad.
  assert (Hidx : ¬ Forall (index_ok T) (terminal_index sl)).
  { intros H. apply Hbad. unfold terminal_index in H. rewrite Forall_fmap in H.
    eapply Forall_impl; [exact H|]. intros n Hn.
    unfold index_ok in Hn. simpl in Hn. lia. }
  pose proof (gather_2d_on_last_dim_ok _ _ (actions_index_ok _ _ _ _ _ Hl Ha Har))
    as HQ.
  pose proof (shaped2_pick2 _ _ _ _ _ Hl Ha) as HQs.
  pose proof (shaped2_logsumexp_last _ _ _ _ Hl_) as HV_.
  assert (HQ0 : shaped2 B T
            (assign_but_last (zeros_like (pick2 logits actions))
               (cols_from_1 (logsumexp_last logits_)))).
  { apply shaped2_assign_but_last; [apply shaped2_zeros_like, HQs|].
    apply shaped2_cols_from_1, HV_. }
  split.
  - unfold soft_q_loss_with_sparse_rewards_1. rewrite HQ. res_simpl.
    rewrite (index_put_rows_index_error T); [reflexivity | | | | exact Hidx].
    + exact (shaped2_rows _ _ _ HQ0).
    + destruct HQ0 as [-> _]. rewrite length_terminal_index. lia.
    + rewrite length_terminal_index. lia.
  - unfold soft_q_loss_with_sparse_rewards_2. rewrite HQ. res_simpl.
    rewrite (index_get_rows_index_error T); [reflexivity | | | exact Hidx].
    + exact (shaped2_rows _ _ _ HV_).
    + destruct HV_ as [-> _]. rewrite length_terminal_index. lia.
Qed.

Ltac len_simpl :=
  repeat rewrite ?length_app, ?length_take, ?length_drop, ?length_fmap,
    ?length_zip_with.

Lemma elem2_put (X : list (list R)) (ivs : list (Z * R)) (i t : nat)
    (row : list R) (n : Z) (v : R) :
  X !! i = Some row -> ivs !! i = Some (n, v) ->
  elem2 (zip_with put X ivs) i t = <[norm_index (length row) n := v]> row !! t.
Proof.
  intros HX Hiv. unfold elem2. rewrite lookup_zip_with, HX. simpl.
  rewrite Hiv. reflexivity.
Qed.

Lemma but_last_row_lookup (d s : list R) (t : nat) :
  length s = length d - 1 ->
  (take (length d - 1) s ++ drop (length d - 1) d)%list !! t
  = if bool_decide (t + 1 < length d) then s !! t else d !! t.
Proof.
  intros Hlen. rewrite take_ge by lia. case_bool_decide as Ht.
  - apply lookup_app_l. lia.
  - rewrite lookup_app_r by lia. rewrite lookup_drop. f_equal. lia.
Qed.

(** The target values of row [i]: the row of [V_] and the rows built from it
    before the terminal overwrite. *)
Lemma target_rows logits (logits_ : list (list (list R))) actions rewards sl
    (i : nat) (vrow : list R) :
  batch_ok B T V logits logits_ actions rewards sl ->
  logsumexp_last logits_ !! i = Some vrow ->
  length vrow = T
  /\ (exists qrow,
        assign_but_last (zeros_like (pick2 logits actions))
          (cols_from_1 (logsumexp_last logits_)) !! i = Some qrow
        /\ length qrow = T
        /\ forall t, t < T ->
             qrow !! t = Some (if bool_decide (t + 1 < T)
                               then default 0%R (vrow !! (t + 1)) else 0%R))
  /\ (exists arow,
        assign_but_last (zeros_like (pick2 logits actions))
          (sub2 (cols_from_1 (logsumexp_last logits_))
                (cols_but_last (logsumexp_last logits_))) !! i = Some arow
        /\ length arow = T
        /\ forall t, t < T ->
             arow !! t = Some (if bool_decide (t + 1 < T)
                               then (default 0 (vrow !! (t + 1)%nat)
                                     - default 0 (vrow !! t))%R
                               else 0%R)).
Proof.
  intros [Hl Hl_ Ha Har Hr Hs Hsr] Hvrow.
  pose proof (shaped2_pick2 _ _ _ _ _ Hl Ha) as [HQB HQT].
  pose proof (shaped2_logsumexp_last _ _ _ _ Hl_) as [HVB HVT].
  pose proof (Forall_lookup_1 _ _ _ _ HVT Hvrow) as Hlv. simpl in Hlv.
  assert (Hi : i < B) by (rewrite <- HVB; eapply lookup_lt_Some, Hvrow).
  destruct (lookup_lt_is_Some_2 (pick2 logits actions) i) as [q Hq]; [lia|].
  pose proof (Forall_lookup_1 _ _ _ _ HQT Hq) as Hlq. simpl in Hlq.
  assert (Hz : zeros_like (pick2 logits actions) !! i = Some ((fun _ => 0%R) <$> q)).
  { unfold zeros_like. rewrite list_lookup_fmap, Hq. reflexivity. }
  split; [exact Hlv|]. split.
  - eexists. split; [|split].
    + unfold assign_but_last. rewrite lookup_zip_with, Hz. simpl.
      unfold cols_from_1. rewrite list_lookup_fmap, Hvrow. reflexivity.
    + len_simpl. lia.
    + intros t Ht. rewrite but_last_row_lookup
        by (len_simpl; lia).
      rewrite length_fmap, Hlq. case_bool_decide as Hlast.
      * rewrite lookup_drop.
        destruct (lookup_lt_is_Some_2 vrow (1 + t)) as [x Hx]; [lia|].
        rewrite Hx. replace (t + 1) with (1 + t) by lia. rewrite Hx. reflexivity.
      * rewrite list_lookup_fmap.
        destruct (lookup_lt_is_Some_2 q t) as [x Hx]; [lia|]. rewrite Hx. reflexivity.
  - eexists. split; [|split].
    + unfold assign_but_last. rewrite lookup_zip_with, Hz. simpl.
      unfold sub2, cols_from_1, cols_but_last.
      rewrite lookup_zip_with, !list_lookup_fmap, Hvrow. reflexivity.
    + len_simpl. lia.
    + intros t Ht. rewrite but_last_row_lookup
        by (len_simpl; lia).
      rewrite length_fmap, Hlq. case_bool_decide as Hlast.
      * rewrite lookup_zip_with, lookup_drop, lookup_take_lt by lia.
        destruct (lookup_lt_is_Some_2 vrow (1 + t)) as [x Hx]; [lia|].
        destruct (lookup_lt_is_Some_2 vrow t) as [y Hy]; [lia|].
        rewrite Hx, Hy. replace (t + 1) with (1 + t) by lia. rewrite Hx. reflexivity.
      * rewrite list_lookup_fmap.
        destruct (lookup_lt_is_Some_2 q t) as [x Hx]; [lia|]. rewrite Hx. reflexivity.
Qed.

Lemma lookup_insert_decide (row : list R) (j t : nat) (v : R) :
  t < length row ->
  <[j := v]> row !! t = if bool_decide (t = j) then Some v else row !! t.
Proof.
  intros Ht. case_bool_decide as Hj.
  - subst. apply list_lookup_insert_eq, Ht.
  - apply list_lookup_insert_ne. congruence.
Qed.

(** X6: the target [Q_] of the V1 variant: the reward of the row at its terminal
    column [sequence_length - 1] (the last column for a row of length [0]),
    the next target value [V_[i, t + 1]] at every other column but the last,
    and [0] at the last column. *)
Theorem soft_q_v1_target
    logits (logits_ : list (list (list R))) actions rewards sl
    (i t : nat) (n : Z) (reward : R) (vrow : list R) :
  batch_ok B T V logits logits_ actions rewards sl ->
  sl !! i = Some n ->
  rewards !! i = Some reward ->
  logsumexp_last logits_ !! i = Some vrow ->
  t < T ->
  exists Q Q_ quantities_to_log,
    soft_q_loss_with_sparse_rewards_1 logits logits_ actions rewards sl
    = Ok (mse_loss Q Q_, quantities_to_log)
    /\ gather_2d_on_last_dim logits actions = Ok Q
    /\ dict_get "Q_" quantities_to_log = Some Q_
    /\ elem2 Q_ i t
       = Some (if bool_decide (t = norm_index T (n - 1)) then reward
               else if bool_decide (t + 1 < T)
                    then default 0%R (vrow !! (t + 1)) else 0%R).
Proof.
  intros Hok Hn Hr Hvrow Ht. pose proof Hok as [Hl Hl_ Ha Har Hrl Hs Hsr].
  destruct (target_rows _ _ _ _ _ _ _ Hok Hvrow)
    as (Hlv & (qrow & Hqrow & Hlq & Hq) & _).
  unfold soft_q_loss_with_sparse_rewards_1.
  rewrite (gather_batch_ok _ _ _ _ _ _ _ _ Hok). res_simpl.
  rewrite index_put_rows_ok; cycle 1.
  { apply (terminal_rows_ok B T); [lia | | exact Hs | exact Hsr].
    apply shaped2_assign_but_last;
      [ apply shaped2_zeros_like; eapply shaped2_pick2; eassumption
      | apply shaped2_cols_from_1; eapply shaped2_logsumexp_last; eassumption ]. }
  { rewrite length_terminal_index. congruence. }
  res_simpl. eexists _, _, _.
  split; [reflexivity|]. split; [reflexivity|]. split; [reflexivity|].
  rewrite (elem2_put _ _ i t qrow (n - 1) reward Hqrow); cycle 1.
  { rewrite lookup_zip_with. unfold terminal_index.
    rewrite list_lookup_fmap, Hn. simpl. rewrite Hr. reflexivity. }
  rewrite lookup_insert_decide by lia. rewrite Hlq.
  case_bool_decide; [reflexivity | apply Hq, Ht].
Qed.

(** X7: the target [A_] of the V2 variant at every position: the reward
    minus the target value at the terminal column, the difference of
    successive target values at every other column but the last, and [0] at
    the last column. *)
Theorem soft_q_v2_target
    logits (logits_ : list (list (list R))) actions rewards sl
    (i t : nat) (n : Z) (reward : R) (vrow : list R) :
  batch_ok B T V logits logits_ actions rewards sl ->
  sl !! i = Some n ->
  rewards !! i = Some reward ->
  logsumexp_last logits_ !! i = Some vrow ->
  t < T ->
  exists Q A_ quantities_to_log,
    soft_q_loss_with_sparse_rewards_2 entropy_from_logits
      logits logits_ actions rewards sl
    = Ok (mse_loss (sub2 Q (logsumexp_last logits)) A_, quantities_to_log)
    /\ gather_2d_on_last_dim logits actions = Ok Q
    /\ dict_get "A_" quantities_to_log = Some A_
    /\ elem2 A_ i t
       = Some (if bool_decide (t = norm_index T (n - 1))
               then (reward - default 0 (vrow !! t))%R
               else if bool_decide (t + 1 < T)
                    then (default 0 (vrow !! (t + 1)%nat) - default 0 (vrow !! t))%R
                    else 0%R).
Proof.
  intros Hok Hn Hr Hvrow Ht. pose proof Hok as [Hl Hl_ Ha Har Hrl Hs Hsr].
  destruct (target_rows _ _ _ _ _ _ _ Hok Hvrow)
    as (Hlv & _ & (arow & Harow & Hla & Harow_t)).
  destruct (soft_q_2_ok entropy_from_logits _ _ _ _ _ _ _ _ Hok ltac:(lia))
    as (qlog & Heq & Hget & _).
  eexists _, _, qlog. split; [exact Heq|].
  split; [exact (gather_batch_ok _ _ _ _ _ _ _ _ Hok)|]. split; [exact Hget|].
  assert (Hin : index_ok T (n - 1)).
  { pose proof (Forall_lookup_1 _ _ _ _ Hsr Hn) as H. unfold index_ok. simpl in H. lia. }
  rewrite (elem2_put _ _ i t arow (n - 1)
             (reward - default 0 (vrow !! norm_index T (n - 1)))%R Harow); cycle 1.
  { rewrite lookup_zip_with. unfold terminal_index.
    rewrite list_lookup_fmap, Hn. simpl.
    rewrite lookup_zip_with, Hr. simpl.
    rewrite lookup_zip_with, Hvrow. simpl.
    rewrite list_lookup_fmap, Hn. simpl.
    unfold pick. rewrite Hlv. reflexivity. }
  rewrite lookup_insert_decide by lia. rewrite Hla.
  case_bool_decide as Hterm; [subst t; reflexivity | apply Harow_t, Ht].
Qed.
End terminal_targets.

(** ** Exchanging the two networks *)

Section symmetry.
Local Open Scope string_scope.
Variable entropy_from_logits : list (list (list R)) -> list (list R).
Implicit Types (logits : list (list (list R))) (actions : list (list Z)).
Implicit Types (rewards : list R) (sl : list Z).



End symmetry.

(** ** Signs of the losses *)

Section margin_properties.
Implicit Types (row : list R) (mc : R).

Lemma py_index_inv (n : nat) (i : Z) (j : nat) :
  py_index n i = Ok j -> index_ok n i /\ j = norm_index n i.
Proof.
  intros H.
  assert (Hi : index_ok n i).
  { revert H. unfold py_index, index_ok. repeat case_bool_decide; intros; simplify_eq; lia. }
  split; [exact Hi|]. rewrite (py_index_ok _ _ Hi) in H. congruence.
Qed.

Lemma max_row_upper row (k : nat) (y : R) :
  row !! k = Some y -> (y <= max_row row)%R.
Proof.
  destruct row as [|x row]; [discriminate|]. destruct k as [|k]; simpl; intros H.
  - injection H as <-. apply foldl_Rmax_ge.
  - eapply foldl_Rmax_upper, H.
Qed.

(** The margin loss at one position is never negative: the expert action
    is one of the actions of the maximum, with no margin added. *)
Lemma margin_formula_nonneg row (j : nat) mc :
  j < length row -> (0 <= margin_formula row j mc)%R.
Proof.
  intros Hj. destruct (lookup_lt_is_Some_2 _ _ Hj) as [m Hm].
  unfold margin_formula. rewrite Hm. simpl.
  assert (H : (m <= max_row (imap (fun a x =>
                 x + mc * (if bool_decide (a ≠ j) then 1 else 0)) row))%R).
  { replace m with (m + mc * 0)%R at 1 by lra.
    apply (max_row_upper _ j). rewrite list_lookup_imap, Hm. simpl.
    rewrite bool_decide_eq_false_2 by tauto. reflexivity. }
  lra.
Qed.

Lemma margin_formula_zero_iff row (j : nat) mc (m : R) :
  row !! j = Some m ->
  margin_formula row j mc = 0%R
  <-> forall k x, k ≠ j -> row !! k = Some x -> (x + mc <= m)%R.
Proof.
  intros Hj. split.
  - intros Hzero k x Hk Hx. unfold margin_formula in Hzero.
    rewrite Hj in Hzero. simpl in Hzero.
    assert (H : (x + mc * 1 <= max_row (imap (fun a x =>
                   x + mc * (if bool_decide (a ≠ j) then 1 else 0)) row))%R).
    { apply (max_row_upper _ k). rewrite list_lookup_imap, Hx. simpl.
      rewrite bool_decide_eq_true_2 by exact Hk. reflexivity. }
    lra.
  - intros Hgap. unfold margin_formula. rewrite Hj. simpl.
    rewrite (max_row_at _ j m); [lra | |].
    + rewrite list_lookup_imap, Hj. simpl.
      rewrite bool_decide_eq_false_2 by tauto. f_equal. lra.
    + apply Forall_lookup. intros k y Hy.
      rewrite list_lookup_imap in Hy.
      destruct (row !! k) as [x|] eqn:Hx; simplify_eq/=.
      case_bool_decide as Hk.
      * specialize (Hgap k x Hk Hx). lra.
      * assert (k = j) as -> by (destruct (decide (k = j)); tauto).
        simplify_eq. lra.
Qed.

(** One row of time steps of the margin loss, whenever the two indexed
    accesses return. *)
Lemma margin_rows_nonneg (xrow : list (list R)) (irow : list Z) mc
    (mrow : list (list R)) (p : list R) :
  index_put_rows
    ((fun row : list R => (fun _ => (mc * 1)%R) <$> row) <$> xrow)
    irow (replicate (length irow) 0%R) = Ok mrow ->
  index_get_rows xrow irow = Ok p ->
  Forall (fun v => (0 <= v)%R)
    (zip_with Rminus (max_row <$> zip_with (zip_with Rplus) xrow mrow) p).
Proof.
  revert xrow mrow p. induction irow as [|i irow IH]; intros xrow mrow p Hput Hget.
  - destruct xrow; simplify_eq/=; constructor.
  - destruct xrow as [|row xrow]; [discriminate|].
    cbn [index_get_rows] in Hget. cbn [fmap list_fmap length replicate index_put_rows] in Hput.
    rewrite length_fmap in Hput.
    destruct (py_index (length row) i) as [j|] eqn:Hj; [|discriminate].
    apply py_index_inv in Hj as [Hi ->].
    revert Hput Hget. res_simpl.
    destruct (index_put_rows _ irow (replicate (length irow) 0%R)) as [mrest|] eqn:Hput;
      [|discriminate].
    destruct (index_get_rows xrow irow) as [prest|] eqn:Hget; [|discriminate].
    intros H1 H2. injection H1 as <-. injection H2 as <-.
    cbn [zip_with fmap list_fmap]. constructor; [|exact (IH _ _ _ Hput Hget)].
    rewrite margin_row_formula.
    apply (margin_formula_nonneg row (norm_index (length row) i) mc).
    apply norm_index_lt, Hi.
Qed.

Lemma large_margin_nonneg (logits : list (list (list R)))
    (expert_actions : list (list Z)) mc (raw_losses : list (list R))
    (quantities_to_log : dict string (list (list R))) :
  large_margin_classification_loss logits expert_actions mc
  = Ok (raw_losses, quantities_to_log) ->
  Forall (Forall (fun v => (0 <= v)%R)) raw_losses.
Proof.
  unfold large_margin_classification_loss.
  destruct (index_put_last _ expert_actions 0%R) as [margin|] eqn:Hput; [|discriminate].
  destruct (index_get_last logits expert_actions) as [picked|] eqn:Hget; [|discriminate].
  res_simpl. intros H. injection H as <- _.
  revert logits margin picked Hput Hget.
  induction expert_actions as [|irow index IH]; intros logits margin picked Hput Hget.
  - destruct logits; simplify_eq/=; constructor.
  - destruct logits as [|xrow logits]; [discriminate|].
    cbn [index_get_last] in Hget. cbn [fmap list_fmap index_put_last] in Hput.
    destruct (index_put_rows _ irow (replicate (length irow) 0%R)) as [mrow|] eqn:Hput1;
      [|discriminate].
    destruct (index_get_rows xrow irow) as [p|] eqn:Hget1; [|discriminate].
    revert Hput Hget. res_simpl.
    destruct (index_put_last _ index 0%R) as [mrest|] eqn:Hput2; [|discriminate].
    destruct (index_get_last logits index) as [prest|] eqn:Hget2; [|discriminate].
    intros H1 H2. injection H1 as <-. injection H2 as <-.
    unfold sub2, max_last, add3. cbn [zip_with fmap list_fmap].
    constructor; [exact (margin_rows_nonneg _ _ _ _ _ Hput1 Hget1)|].
    exact (IH _ _ _ Hput2 Hget2).
Qed.
End margin_properties.

Section nonnegative.
Local Open Scope string_scope.
Variable entropy_from_logits : list (list (list R)) -> list (list R).
Implicit Types (logits : list (list (list R))) (actions : list (list Z)).
Implicit Types (rewards : list R) (sl : list Z).

Lemma mse_loss_nonneg (x y : list (list R)) : (Forall (Forall (fun v : R => (0 <= v)%R))) (mse_loss x y).
Proof.
  apply Forall_lookup. intros b row Hrow.
  apply lookup_zip_with_Some in Hrow as (r1 & r2 & -> & _ & _).
  apply Forall_lookup. intros t v Hv.
  apply lookup_zip_with_Some in Hv as (a1 & a2 & -> & _ & _).
  apply Rle_0_sqr.
Qed.

Lemma add2_nonneg (x y : list (list R)) :
  (Forall (Forall (fun v : R => (0 <= v)%R))) x -> (Forall (Forall (fun v : R => (0 <= v)%R))) y -> (Forall (Forall (fun v : R => (0 <= v)%R))) (add2 x y).
Proof.
  intros Hx Hy. apply Forall_lookup. intros b row Hrow.
  apply lookup_zip_with_Some in Hrow as (r1 & r2 & -> & H1 & H2).
  pose proof (Forall_lookup_1 _ _ _ _ Hx H1) as Hr1.
  pose proof (Forall_lookup_1 _ _ _ _ Hy H2) as Hr2.
  apply Forall_lookup. intros t v Hv.
  apply lookup_zip_with_Some in Hv as (a1 & a2 & -> & Ha1 & Ha2).
  pose proof (Forall_lookup_1 _ _ _ _ Hr1 Ha1) as Hv1.
  pose proof (Forall_lookup_1 _ _ _ _ Hr2 Ha2) as Hv2.
  simpl in *. lra.
Qed.

Lemma scale2_nonneg (c : R) (x : list (list R)) :
  (0 <= c)%R -> (Forall (Forall (fun v : R => (0 <= v)%R))) x -> (Forall (Forall (fun v : R => (0 <= v)%R))) (scale2 c x).
Proof.
  intros Hc Hx. unfold scale2. apply Forall_fmap.
  eapply Forall_impl; [exact Hx|]. intros row Hrow. simpl.
  apply Forall_fmap. eapply Forall_impl; [exact Hrow|].
  intros v Hv. simpl in *. apply Rmult_le_pos; assumption.
Qed.

Lemma mix2_nonneg (c : R) (x y : list (list R)) :
  (0 <= c <= 1)%R -> (Forall (Forall (fun v : R => (0 <= v)%R))) x -> (Forall (Forall (fun v : R => (0 <= v)%R))) y -> (Forall (Forall (fun v : R => (0 <= v)%R))) (mix2 c x y).
Proof.
  intros Hc Hx Hy. apply add2_nonneg; apply scale2_nonneg; try assumption; lra.
Qed.

Lemma half_sum2_nonneg (x y : list (list R)) :
  (Forall (Forall (fun v : R => (0 <= v)%R))) x -> (Forall (Forall (fun v : R => (0 <= v)%R))) y -> (Forall (Forall (fun v : R => (0 <= v)%R))) (half_sum2 x y).
Proof.
  intros Hx Hy. unfold half_sum2. apply Forall_fmap.
  eapply Forall_impl; [exact (add2_nonneg _ _ Hx Hy)|]. intros row Hrow. simpl.
  apply Forall_fmap. eapply Forall_impl; [exact Hrow|].
  intros v Hv. simpl in *. lra.
Qed.

Lemma soft_q_1_nonneg logits (logits_ : list (list (list R))) actions rewards sl
    raw (qlog : dict string (list (list R))) :
  soft_q_loss_with_sparse_rewards_1 logits logits_ actions rewards sl
  = Ok (raw, qlog) -> (Forall (Forall (fun v : R => (0 <= v)%R))) raw.
Proof.
  unfold soft_q_loss_with_sparse_rewards_1.
  destruct (gather_2d_on_last_dim logits actions) as [Q|]; [|discriminate].
  res_simpl. destruct (index_put_rows _ _ rewards) as [Q_|]; [|discriminate].
  res_simpl. intros H. injection H as <- _. apply mse_loss_nonneg.
Qed.

Lemma soft_q_2_nonneg logits (logits_ : list (list (list R))) actions rewards sl
    raw (qlog : dict string (list (list R))) :
  soft_q_loss_with_sparse_rewards_2 entropy_from_logits
    logits logits_ actions rewards sl
  = Ok (raw, qlog) -> (Forall (Forall (fun v : R => (0 <= v)%R))) raw.
Proof.
  unfold soft_q_loss_with_sparse_rewards_2.
  destruct (gather_2d_on_last_dim logits actions) as [Q|]; [|discriminate].
  res_simpl. destruct (index_get_rows _ _) as [tv|]; [|discriminate].
  res_simpl. destruct (index_put_rows _ _ rewards) as [Q_|]; [|discriminate].
  res_simpl. destruct (index_put_rows _ _ _) as [A_|]; [|discriminate].
  res_simpl. intros H. injection H as <- _. apply mse_loss_nonneg.
Qed.

Lemma soft_q_3_nonneg logits (logits_ : list (list (list R))) actions rewards sl
    (freeze : bool) raw (qlog : dict string (list (list R))) :
  soft_q_loss_with_sparse_rewards_3 logits logits_ actions rewards sl freeze
  = Ok (raw, qlog) -> (Forall (Forall (fun v : R => (0 <= v)%R))) raw.
Proof.
  unfold soft_q_loss_with_sparse_rewards_3.
  destruct (gather_2d_on_last_dim logits actions) as [Q|]; [|discriminate].
  res_simpl. intros H. injection H as <- _. apply mse_loss_nonneg.
Qed.

Lemma soft_q_2_2_reversed_nonneg logits (logits_ : list (list (list R)))
    actions rewards sl (coefficient margin_constant margin_coefficient : option R)
    raw (qlog : dict string (list (list R))) :
  (forall c, coefficient = Some c -> (0 <= c <= 1)%R) ->
  (forall m, margin_coefficient = Some m -> (0 <= m)%R) ->
  soft_q_loss_with_sparse_rewards_2_2_reversed entropy_from_logits
    logits logits_ actions rewards sl
    coefficient margin_constant margin_coefficient
  = Ok (raw, qlog) -> (Forall (Forall (fun v : R => (0 <= v)%R))) raw.
Proof.
  intros Hc Hm. unfold soft_q_loss_with_sparse_rewards_2_2_reversed.
  destruct (soft_q_loss_with_sparse_rewards_2 entropy_from_logits
              logits logits_ actions rewards sl) as [[f lf]|] eqn:Hf;
    [|discriminate].
  apply soft_q_2_nonneg in Hf. res_simpl.
  destruct coefficient as [c|];
    [ destruct (soft_q_loss_with_sparse_rewards_2 entropy_from_logits
                  logits_ logits actions rewards sl) as [[r lr]|] eqn:Hr;
        [|discriminate];
      apply soft_q_2_nonneg in Hr; res_simpl;
      assert (Hx : (Forall (Forall (fun v : R => (0 <= v)%R))) (mix2 c f r))
        by (apply mix2_nonneg; [apply Hc; reflexivity | assumption | assumption])
    | assert (Hx := Hf) ];
    (destruct margin_constant as [mc|], margin_coefficient as [mcoef|];
     try (intros H; injection H as <- _; exact Hx);
     destruct (large_margin_classification_loss logits actions mc)
       as [[m lm]|] eqn:Hmargin; [|discriminate];
     apply large_margin_nonneg in Hmargin; res_simpl;
     intros H; injection H as <- _;
     apply add2_nonneg; [exact Hx|];
     apply scale2_nonneg; [|exact Hmargin];
     apply Hm; reflexivity).
Qed.

Lemma soft_q_3_3_reversed_nonneg logits (logits_ : list (list (list R)))
    actions rewards sl (coefficient : option R)
    raw (qlog : dict string (list (list R))) :
  (forall c, coefficient = Some c -> (0 <= c <= 1)%R) ->
  soft_q_loss_with_sparse_rewards_3_3_reversed
    logits logits_ actions rewards sl coefficient
  = Ok (raw, qlog) -> (Forall (Forall (fun v : R => (0 <= v)%R))) raw.
Proof.
  intros Hc. unfold soft_q_loss_with_sparse_rewards_3_3_reversed.
  destruct (soft_q_loss_with_sparse_rewards_3
              logits logits_ actions rewards sl false) as [[f lf]|] eqn:Hf;
    [|discriminate].
  apply soft_q_3_nonneg in Hf. res_simpl.
  destruct coefficient as [c|].
  - destruct (soft_q_loss_with_sparse_rewards_3
                logits_ logits actions rewards sl false) as [[r lr]|] eqn:Hr;
      [|discriminate].
    apply soft_q_3_nonneg in Hr. res_simpl. intros H. injection H as <- _.
    apply mix2_nonneg; [apply Hc; reflexivity | assumption | assumption].
  - intros H. injection H as <- _. exact Hf.
Qed.

Lemma soft_q_2_2_reversed_3_3_reversed_nonneg logits
    (logits_ : list (list (list R))) actions rewards sl (coefficient : option R)
    raw (qlog : dict string (list (list R))) :
  (forall c, coefficient = Some c -> (0 <= c <= 1)%R) ->
  soft_q_loss_with_sparse_rewards_2_2_reversed_3_3_reversed entropy_from_logits
    logits logits_ actions rewards sl coefficient
  = Ok (raw, qlog) -> (Forall (Forall (fun v : R => (0 <= v)%R))) raw.
Proof.
  intros Hc. unfold soft_q_loss_with_sparse_rewards_2_2_reversed_3_3_reversed.
  destruct (soft_q_loss_with_sparse_rewards_2_2_reversed entropy_from_logits
              logits logits_ actions rewards sl coefficient None None)
    as [[x lx]|] eqn:Hx; [|discriminate].
  apply soft_q_2_2_reversed_nonneg in Hx; [|exact Hc|discriminate].
  res_simpl.
  destruct (soft_q_loss_with_sparse_rewards_3_3_reversed
              logits logits_ actions rewards sl coefficient)
    as [[y ly]|] eqn:Hy; [|discriminate].
  apply soft_q_3_3_reversed_nonneg in Hy; [|exact Hc].
  res_simpl. intros H. injection H as <- _.
  apply half_sum2_nonneg; assumption.
Qed.

(** X9: whichever variant the dispatcher selects, the raw losses it returns
    are never negative, for a coefficient in [0, 1] and a margin coefficient
    that is not negative. *)
Theorem soft_q_raw_losses_nonnegative
    (implementation : string) logits (logits_ : list (list (list R)))
    actions rewards sl
    (coefficient margin_constant margin_coefficient : option R)
    (f : sql_loss_func) (raw_losses : list (list R))
    (quantities_to_log : dict string (list (list R))) :
  (forall c, coefficient = Some c -> (0 <= c <= 1)%R) ->
  (forall m, margin_coefficient = Some m -> (0 <= m)%R) ->
  select_sql_loss_func entropy_from_logits implementation
    coefficient margin_constant margin_coefficient = Some f ->
  f logits logits_ actions rewards sl = Ok (raw_losses, quantities_to_log) ->
  Forall (Forall (fun v => (0 <= v)%R)) raw_losses.
Proof.
  intros Hc Hm Hsel Hf. unfold select_sql_loss_func in Hsel.
  repeat case_bool_decide; simplify_eq.
  - eapply soft_q_2_2_reversed_3_3_reversed_nonneg; eassumption.
  - eapply soft_q_3_3_reversed_nonneg; eassumption.
  - eapply soft_q_2_2_reversed_nonneg; eassumption.
  - eapply soft_q_3_nonneg; eassumption.
  - injection Hf as <- _. apply mse_loss_nonneg.
  - eapply soft_q_1_nonneg; eassumption.
  - eapply soft_q_2_nonneg; eassumption.
Qed.
End nonnegative.

(** ** The margin loss at a position *)

Section margin_positions.
Variables B T V : nat.
Implicit Types (logits : list (list (list R))) (actions : list (list Z)).

Lemma large_margin_value logits actions (mc : R) :
  Forall2 rows_index_ok logits actions ->
  let raw_losses :=
    sub2
      (max_last
         (add3 logits
            (zip_with (zip_with (fun row i => put row (i, 0%R)))
               ((fun rows : list (list R) =>
                   (fun row : list R => (fun _ => (mc * 1)%R) <$> row) <$> rows)
                  <$> logits)
               actions)))
      (pick2 logits actions) in
  large_margin_classification_loss logits actions mc
  = Ok (raw_losses, [("loss"%string, raw_losses)]).
Proof.
  intros Hok raw_losses. unfold large_margin_classification_loss.
  rewrite index_put_last_ok; cycle 1.
  { apply Forall2_fmap_l. eapply Forall2_impl; [exact Hok|].
    intros x idx Hx. simpl. apply rows_index_ok_fmap; [|exact Hx].
    intros row. apply length_fmap. }
  res_simpl. rewrite (index_get_last_ok _ _ Hok). reflexivity.
Qed.

(** X10: the margin loss at a position is never negative, and it is
    zero exactly when no other action has a logit within [margin_constant]
    of the logit of the expert action. *)
Theorem large_margin_classification_loss_zero_iff
    logits actions (margin_constant : R) (b t : nat) (row : list R) (a : Z) :
  shaped3 B T V logits ->
  shaped2 B T actions ->
  Forall (Forall (index_ok V)) actions ->
  elem2 logits b t = Some row ->
  elem2 actions b t = Some a ->
  exists raw_losses quantities_to_log v expert_logit,
    large_margin_classification_loss logits actions margin_constant
    = Ok (raw_losses, quantities_to_log)
    /\ elem2 raw_losses b t = Some v
    /\ row !! norm_index V a = Some expert_logit
    /\ (0 <= v)%R
    /\ (v = 0%R
        <-> forall k x, k ≠ norm_index V a -> row !! k = Some x ->
              (x + margin_constant <= expert_logit)%R).
Proof.
  intros Hl Ha Hr Hrow Hact.
  pose proof (actions_index_ok _ _ _ _ _ Hl Ha Hr) as Hok.
  pose proof (shaped3_elem2_length _ _ _ _ _ _ _ Hl Hrow) as HV.
  assert (Hlt : norm_index V a < length row).
  { rewrite HV. apply norm_index_lt. unfold elem2 in Hact.
    destruct (actions !! b) as [irow|] eqn:Hirow; simplify_eq/=.
    exact (Forall_lookup_1 _ _ _ _ (Forall_lookup_1 _ _ _ _ Hr Hirow) Hact). }
  destruct (lookup_lt_is_Some_2 _ _ Hlt) as [m Hm].
  eexists _, _, (margin_formula row (norm_index V a) margin_constant), m.
  split; [exact (large_margin_value _ _ margin_constant Hok)|].
  split; [|split; [exact Hm|split]].
  - unfold sub2. erewrite elem2_zip_with; cycle 1.
    + unfold max_last. rewrite elem2_fmap.
      unfold add3. erewrite elem2_zip_with; [reflexivity | exact Hrow |].
      erewrite elem2_zip_with; [reflexivity | | exact Hact].
      rewrite elem2_fmap, Hrow. reflexivity.
    + unfold pick2. erewrite elem2_zip_with; [reflexivity | exact Hrow | exact Hact].
    + f_equal. unfold margin_formula, put, pick. simpl.
      rewrite length_fmap, HV. rewrite margin_row_formula. reflexivity.
  - apply margin_formula_nonneg, Hlt.
  - apply margin_formula_zero_iff, Hm.
Qed.

(** X11: an expert action outside [-V, V) makes the margin loss raise
    [IndexError]. *)
Theorem large_margin_classification_loss_index_error
    logits actions (margin_constant : R) :
  shaped3 B T V logits ->
  shaped2 B T actions ->
  ¬ Forall (Forall (index_ok V)) actions ->
  large_margin_classification_loss logits actions margin_constant
  = Raise IndexError.
Proof.
  intros [HB HT] [HB' HT'] Hbad. unfold large_margin_classification_loss.
  assert (Hput :
    index_put_last
      ((fun rows : list (list R) =>
          (fun row : list R => (fun _ => (margin_constant * 1)%R) <$> row) <$> rows)
         <$> logits)
      actions 0%R = Raise IndexError); [|rewrite Hput; reflexivity].
  assert (Hlen : length logits = length actions) by congruence.
  clear HB HB'. revert actions HT' Hbad Hlen.
  induction HT as [|xrow logits [HxT HxV] _ IH]; intros [|irow actions] HT' Hbad Hlen;
    try discriminate.
  - destruct Hbad. constructor.
  - apply Forall_cons in HT' as [Hirow HT'].
    cbn [fmap list_fmap index_put_last].
    destruct (decide (Forall (index_ok V) irow)) as [Hi|Hi].
    + rewrite index_put_rows_const; cycle 1.
      { apply rows_index_ok_fmap; [intros row; apply length_fmap|].
        apply (rows_index_ok_shaped T V); [split; assumption | exact Hirow | exact Hi]. }
      res_simpl. rewrite IH; [reflexivity | exact HT' | | simpl in Hlen; lia].
      intros Hall. apply Hbad. constructor; assumption.
    + rewrite (index_put_rows_index_error V); [reflexivity | | | | exact Hi].
      * apply Forall_fmap. eapply Forall_impl; [exact HxV|].
        intros row Hrow. simpl. rewrite length_fmap. exact Hrow.
      * rewrite length_fmap. lia.
      * rewrite length_replicate. lia.
Qed.
End margin_positions.

(** ** Target updates and modes *)

Section sync.
Import SoftQLearningTrainer.
Local Open Scope string_scope.

(** X12: with ["alternate"] the even steps run [SQL_OFF] and the odd steps
    [SQL_ON], with ["mix"] every step runs both, and any other strategy
    leaves no mode to run. *)
Theorem step_modes_by_strategy (mix_strategy : string) (n : Z) :
  step_modes (AttrStr mix_strategy) n
  = if bool_decide (mix_strategy = "alternate")
    then Some [if Z.even n then SQL_OFF else SQL_ON]
    else if bool_decide (mix_strategy = "mix")
         then Some [SQL_OFF; SQL_ON]
         else None.
Proof.
  unfold step_modes, attr_eq_str.
  destruct (decide (mix_strategy = "alternate")) as [->|Halt].
  - rewrite !(bool_decide_eq_true_2 ("alternate" = "alternate")) by reflexivity.
    rewrite (bool_decide_eq_false_2 ("alternate" = "mix")) by discriminate.
    change (Z.of_nat (length candidate_modes)) with 2%Z.
    rewrite Zmod_even. destruct (Z.even n); reflexivity.
  - rewrite !(bool_decide_eq_false_2 (mix_strategy = "alternate")) by exact Halt.
    case_bool_decide; reflexivity.
Qed.


Lemma polyak_same_shape (lr : R) (target model : list (list R)) :
  Forall2 (fun p_ p => length p_ = length p) target model ->
  polyak lr target model
  = zip_with (zip_with (fun p_ p => ((1 - lr) * p_ + lr * p)%R)) target model.
Proof.
  intros H. unfold polyak. rewrite drop_ge, app_nil_r; [reflexivity|].
  apply Forall2_length in H. lia.
Qed.


Lemma zip_with_ext_2 (f g : R -> R -> R) (target model : list (list R)) :
  (forall x y, f x y = g x y) ->
  zip_with (zip_with f) target model = zip_with (zip_with g) target model.
Proof.
  intros Hfg. revert model. induction target as [|p_ target IH]; intros [|p model];
    simpl; try reflexivity.
  f_equal; [|apply IH].
  revert p. induction p_ as [|x p_ IHp]; intros [|y p]; simpl; try reflexivity.
  f_equal; [apply Hfg | apply IHp].
Qed.



Lemma zip_with_snd_same_shape (target model : list (list R)) :
  Forall2 (fun p_ p => length p_ = length p) target model ->
  zip_with (zip_with (fun _ p => p)) target model = model.
Proof.
  induction 1 as [|p_ p target model Hp _ IH]; simpl; [reflexivity|].
  f_equal; [|exact IH].
  revert p Hp. induction p_ as [|x p_ IHp]; intros [|y p] Hp; simplify_eq/=;
    [reflexivity|]. f_equal. apply IHp. done.
Qed.

(** X14: a Polyak update with learning rate [1] is the hard copy. *)
Theorem sync_target_model_polyak_rate_one
    (self : gmap string attr) (target model : list (list R)) :
  self !! "target_model" = Some (AttrModule target) ->
  self !! "model" = Some (AttrModule model) ->
  self !! "target_learning_rate" = Some (AttrFloat 1) ->
  Forall2 (fun p_ p => length p_ = length p) target model ->
  sync_target_model self "polyak" = sync_target_model self "copy"
  /\ sync_target_model self "copy"
     = Ok (<["target_model" := AttrModule model]> self).
Proof.
  intros Ht Hm Hlr Hshape.
  unfold sync_target_model, get_module, getattr.
  rewrite (bool_decide_eq_true_2 ("copy" = "copy")) by reflexivity.
  rewrite (bool_decide_eq_false_2 ("polyak" = "copy")) by discriminate.
  rewrite (bool_decide_eq_true_2 ("polyak" = "polyak")) by reflexivity.
  rewrite Ht, Hm, Hlr. res_simpl.
  rewrite polyak_same_shape by exact Hshape.
  rewrite (zip_with_ext_2 _ (fun _ p => p)) by (intros x y; lra).
  rewrite zip_with_snd_same_shape by exact Hshape. split; reflexivity.
Qed.


End sync.

(** ** The traversal of nested containers *)

Section nested_traversal.
Import Nested.

Lemma nested_tensor_operation_PTuple op (l : list (pyobj nat)) (σ : list storage) :
  nested_tensor_operation op (PTuple l) σ
  = ('(l', σ) ← nested_list op l σ ; Ok (PList l', σ)).
Proof. reflexivity. Qed.

Lemma on_cpu_PList (σ : list storage) (l : list (pyobj nat)) :
  on_cpu σ (PList l) <-> Forall (on_cpu σ) l.
Proof. unfold on_cpu. simpl. apply Forall_bind. Qed.

Lemma on_cpu_PDict (σ : list storage) (items : list (pykey * pyobj nat)) :
  on_cpu σ (PDict items) <-> Forall (fun kv => on_cpu σ kv.2) items.
Proof. unfold on_cpu. simpl. apply Forall_bind. Qed.

Lemma on_cpu_app (σ new : list storage) (obj : pyobj nat) :
  on_cpu σ obj -> on_cpu (σ ++ new) obj.
Proof.
  unfold on_cpu. intros H. eapply Forall_impl; [exact H|].
  intros l Hl. simpl in *.
  destruct (σ !! l) as [s|] eqn:Hs; [|discriminate].
  rewrite (lookup_app_l_Some _ _ _ _ Hs). exact Hl.
Qed.

(** A property of the values of a dict survives [d[k] = v]. *)
Lemma Forall_dict_set {K A : Type} `{EqDecision K} (P : A -> Prop)
    (k : K) (v : A) (d : list (K * A)) :
  P v -> Forall (fun kv => P kv.2) d -> Forall (fun kv => P kv.2) (dict_set k v d).
Proof.
  intros Hv. induction 1 as [|[k' v'] d Hkv Hd IH]; simpl.
  - repeat constructor. exact Hv.
  - case_bool_decide; constructor; simpl; assumption.
Qed.

Lemma fresh_in_mono (σ0 σ σ' σ'' : list storage) (obj : pyobj nat) :
  length σ0 <= length σ -> length σ' <= length σ'' ->
  fresh_in σ σ' obj -> fresh_in σ0 σ'' obj.
Proof.
  unfold fresh_in. intros H0 H1 H. eapply Forall_impl; [exact H|].
  intros l Hl. simpl in *. lia.
Qed.

Section operation.
Variables to_cpu to_numpy : bool.

Lemma operation_returns (X : nat) (σ : list storage) :
  negb to_cpu && to_numpy = false ->
  X < length σ ->
  exists o new,
    _operation to_cpu to_numpy X σ = Ok (o, σ ++ new)
    /\ fresh_in σ (σ ++ new) o
    /\ (to_cpu = true -> on_cpu (σ ++ new) o).
Proof.
  intros flags HX. destruct (lookup_lt_is_Some_2 σ X HX) as [s Hs].
  unfold _operation. rewrite Hs.
  destruct to_cpu; [destruct (st_device s) eqn:Hdev|]; simpl.
  - exists (if to_numpy then PNdarray (length σ) else PTensor (length σ)), [s].
    assert (Hl : (σ ++ [s]) !! length σ = Some s)
      by (rewrite lookup_app_r, Nat.sub_diag by lia; reflexivity).
    destruct to_numpy; (split; [reflexivity|]); unfold fresh_in, on_cpu; simpl;
      rewrite length_app; simpl;
      (split; [repeat constructor; lia | intros _; repeat constructor; rewrite Hl; simpl; congruence]).
  - exists (if to_numpy then PNdarray (length (σ ++ [s]))
            else PTensor (length (σ ++ [s]))),
      [s; {| st_device := Cpu; st_data := st_data s |}].
    assert (Hl : (σ ++ [s; {| st_device := Cpu; st_data := st_data s |}])
                   !! length (σ ++ [s])
                 = Some {| st_device := Cpu; st_data := st_data s |}).
    { rewrite length_app. simpl. rewrite lookup_app_r by lia.
      replace (length σ + 1 - length σ) with 1 by lia. reflexivity. }
    destruct to_numpy; (split; [rewrite <- app_assoc; reflexivity|]);
      unfold fresh_in, on_cpu; simpl;
      (split; [repeat constructor; rewrite !length_app; simpl; lia
              | intros _; repeat constructor; rewrite Hl; reflexivity]).
  - simpl in flags. subst to_numpy.
    exists (PTensor (length σ)), [s]. split; [reflexivity|].
    split; [|discriminate].
    unfold fresh_in. simpl. rewrite length_app. simpl. repeat constructor; lia.
Qed.

Lemma nested_list_returns (l : list (pyobj nat)) :
  Forall (fun o => supported o = true -> forall σ : list storage,
            allocated σ o ->
            exists o' new,
              nested_tensor_operation (_operation to_cpu to_numpy) o σ
              = Ok (o', σ ++ new)
              /\ fresh_in σ (σ ++ new) o'
              /\ (to_cpu = true -> on_cpu (σ ++ new) o')) l ->
  forallb supported l = true ->
  forall σ : list storage,
    Forall (allocated σ) l ->
    exists l' new,
      nested_list (_operation to_cpu to_numpy) l σ = Ok (l', σ ++ new)
      /\ Forall (fresh_in σ (σ ++ new)) l'
      /\ (to_cpu = true -> Forall (on_cpu (σ ++ new)) l').
Proof.
  induction 1 as [|o l Ho _ IHl]; intros Hs σ Hal.
  - exists [], []. rewrite app_nil_r. repeat split; constructor.
  - simpl in Hs. apply andb_prop in Hs as [Hso Hsl].
    inversion Hal as [|? ? Hao Hal']; subst.
    destruct (Ho Hso σ Hao) as (o' & n1 & Ho1 & Hf1 & Hc1).
    destruct (IHl Hsl (σ ++ n1)) as (l' & n2 & Hl2 & Hf2 & Hc2).
    { eapply Forall_impl; [exact Hal'|]. intros x. apply allocated_app. }
    exists (o' :: l'), (n1 ++ n2). rewrite app_assoc.
    split; [|split].
    + rewrite nested_list_cons, Ho1. res_simpl. rewrite Hl2. reflexivity.
    + constructor; [apply fresh_in_extend, Hf1|].
      eapply Forall_impl; [exact Hf2|]. intros x. apply fresh_in_weaken.
    + intros Hcpu. constructor; [apply on_cpu_app, Hc1, Hcpu | apply Hc2, Hcpu].
Qed.

Lemma nested_items_returns (items : list (pykey * pyobj nat)) :
  Forall (fun kv => supported kv.2 = true -> forall σ : list storage,
            allocated σ kv.2 ->
            exists o' new,
              nested_tensor_operation (_operation to_cpu to_numpy) kv.2 σ
              = Ok (o', σ ++ new)
              /\ fresh_in σ (σ ++ new) o'
              /\ (to_cpu = true -> on_cpu (σ ++ new) o')) items ->
  forallb (fun kv => is_str_key kv.1 && supported kv.2) items = true ->
  forall (acc : list (pykey * pyobj nat)) (σ0 σ : list storage),
    length σ0 <= length σ ->
    Forall (fun kv => fresh_in σ0 σ kv.2) acc ->
    (to_cpu = true -> Forall (fun kv => on_cpu σ kv.2) acc) ->
    Forall (fun kv => allocated σ kv.2) items ->
    exists d new,
      nested_items (_operation to_cpu to_numpy) items acc σ = Ok (d, σ ++ new)
      /\ Forall (fun kv => fresh_in σ0 (σ ++ new) kv.2) d
      /\ (to_cpu = true -> Forall (fun kv => on_cpu (σ ++ new) kv.2) d).
Proof.
  induction 1 as [|[k o] items Ho _ IHl]; intros Hs acc σ0 σ Hlen Hfacc Hcacc Hal.
  - exists acc, []. rewrite app_nil_r. repeat split; assumption.
  - simpl in Hs. apply andb_prop in Hs as [Hso Hsl].
    apply andb_prop in Hso as [Hk Hso].
    inversion Hal as [|? ? Hao Hal']; subst. simpl in Hao, Ho.
    destruct (Ho Hso σ Hao) as (o' & n1 & Ho1 & Hf1 & Hc1).
    destruct (IHl Hsl (dict_set k o' acc) σ0 (σ ++ n1))
      as (d & n2 & Hl2 & Hf2 & Hc2).
    { rewrite length_app. lia. }
    { apply (Forall_dict_set (fun v => fresh_in σ0 (σ ++ n1) v)).
      - eapply fresh_in_mono; [exact Hlen | reflexivity | exact Hf1].
      - eapply Forall_impl; [exact Hfacc|]. intros kv Hkv. simpl in *.
        eapply fresh_in_mono; [reflexivity | | exact Hkv]. rewrite length_app. lia. }
    { intros Hcpu. apply (Forall_dict_set (fun v => on_cpu (σ ++ n1) v)).
      - apply Hc1, Hcpu.
      - eapply Forall_impl; [exact (Hcacc Hcpu)|]. intros kv. apply on_cpu_app. }
    { eapply Forall_impl; [exact Hal'|]. intros x. apply allocated_app. }
    exists d, (n1 ++ n2). rewrite app_assoc.
    split; [|split; assumption].
    rewrite nested_items_cons, Hk, Ho1. res_simpl. exact Hl2.
Qed.

Lemma supported_returns (obj : pyobj nat) :
  negb to_cpu && to_numpy = false ->
  supported obj = true ->
  forall σ : list storage,
    allocated σ obj ->
    exists obj' new,
      nested_tensor_operation (_operation to_cpu to_numpy) obj σ
      = Ok (obj', σ ++ new)
      /\ fresh_in σ (σ ++ new) obj'
      /\ (to_cpu = true -> on_cpu (σ ++ new) obj').
Proof.
  intros flags.
  induction obj as [l IH|l IH|items IH|t|t| |b|z|r|s| ] using pyobj_nested_ind;
    intros Hp; try discriminate Hp; intros σ Hal.
  - apply allocated_PList in Hal.
    destruct (nested_list_returns l IH Hp σ Hal) as (l' & new & Hl & Hf & Hc).
    exists (PList l'), new. split; [|split].
    + rewrite nested_tensor_operation_PList, Hl. reflexivity.
    + apply fresh_in_PList, Hf.
    + intros Hcpu. apply on_cpu_PList, Hc, Hcpu.
  - apply allocated_PList in Hal.
    destruct (nested_list_returns l IH Hp σ Hal) as (l' & new & Hl & Hf & Hc).
    exists (PList l'), new. split; [|split].
    + rewrite nested_tensor_operation_PTuple, Hl. reflexivity.
    + apply fresh_in_PList, Hf.
    + intros Hcpu. apply on_cpu_PList, Hc, Hcpu.
  - apply allocated_PDict in Hal.
    destruct (nested_items_returns items IH Hp [] σ σ) as (d & new & Hl & Hf & Hc);
      [reflexivity | constructor | intros _; constructor | exact Hal |].
    exists (PDict d), new. split; [|split].
    + rewrite nested_tensor_operation_PDict, Hl. reflexivity.
    + apply fresh_in_PDict, Hf.
    + intros Hcpu. apply on_cpu_PDict, Hc, Hcpu.
  - assert (Ht : t < length σ).
    { unfold allocated in Hal. simpl in Hal. inversion Hal; subst. assumption. }
    exact (operation_returns t σ flags Ht).
  - exists PNone, []. rewrite app_nil_r. repeat split; constructor.
  - exists (PBool b), []. rewrite app_nil_r. repeat split; constructor.
  - exists (PInt z), []. rewrite app_nil_r. repeat split; constructor.
  - exists (PFloat r), []. rewrite app_nil_r. repeat split; constructor.
  - exists (PStr s), []. rewrite app_nil_r. repeat split; constructor.
Qed.

Lemma nested_list_raises (l : list (pyobj nat)) :
  negb to_cpu && to_numpy = false ->
  Forall (fun o => supported o = false -> forall σ : list storage,
            allocated σ o ->
            nested_tensor_operation (_operation to_cpu to_numpy) o σ
            = Raise TypeError
            \/ nested_tensor_operation (_operation to_cpu to_numpy) o σ
               = Raise NotImplementedError) l ->
  forallb supported l = false ->
  forall σ : list storage,
    Forall (allocated σ) l ->
    nested_list (_operation to_cpu to_numpy) l σ = Raise TypeError
    \/ nested_list (_operation to_cpu to_numpy) l σ = Raise NotImplementedError.
Proof.
  intros flags. induction 1 as [|o l Ho _ IHl]; intros Hs σ Hal; [discriminate|].
  inversion Hal as [|? ? Hao Hal']; subst.
  rewrite nested_list_cons. simpl in Hs.
  destruct (supported o) eqn:Hso.
  - destruct (supported_returns o flags Hso σ Hao) as (o' & n1 & Ho1 & _).
    rewrite Ho1. res_simpl.
    destruct (IHl Hs (σ ++ n1)) as [Hr|Hr];
      [ eapply Forall_impl; [exact Hal'|]; intros x; apply allocated_app
      | rewrite Hr; left; reflexivity
      | rewrite Hr; right; reflexivity ].
  - destruct (Ho eq_refl σ Hao) as [Hr|Hr]; rewrite Hr; [left | right]; reflexivity.
Qed.

Lemma nested_items_raises (items : list (pykey * pyobj nat)) :
  negb to_cpu && to_numpy = false ->
  Forall (fun kv => supported kv.2 = false -> forall σ : list storage,
            allocated σ kv.2 ->
            nested_tensor_operation (_operation to_cpu to_numpy) kv.2 σ
            = Raise TypeError
            \/ nested_tensor_operation (_operation to_cpu to_numpy) kv.2 σ
               = Raise NotImplementedError) items ->
  forallb (fun kv => is_str_key kv.1 && supported kv.2) items = false ->
  forall (acc : list (pykey * pyobj nat)) (σ : list storage),
    Forall (fun kv => allocated σ kv.2) items ->
    nested_items (_operation to_cpu to_numpy) items acc σ = Raise TypeError
    \/ nested_items (_operation to_cpu to_numpy) items acc σ
       = Raise NotImplementedError.
Proof.
  intros flags. induction 1 as [|[k o] items Ho _ IHl]; intros Hs acc σ Hal;
    [discriminate|].
  inversion Hal as [|? ? Hao Hal']; subst. simpl in Hao, Ho.
  rewrite nested_items_cons. simpl in Hs.
  destruct (is_str_key k); [|right; reflexivity]. simpl in Hs.
  destruct (supported o) eqn:Hso.
  - destruct (supported_returns o flags Hso σ Hao) as (o' & n1 & Ho1 & _).
    rewrite Ho1. res_simpl.
    apply (IHl Hs). eapply Forall_impl; [exact Hal'|]. intros x. apply allocated_app.
  - destruct (Ho eq_refl σ Hao) as [Hr|Hr]; rewrite Hr; [left | right]; reflexivity.
Qed.

Lemma unsupported_raises (obj : pyobj nat) :
  negb to_cpu && to_numpy = false ->
  supported obj = false ->
  forall σ : list storage,
    allocated σ obj ->
    nested_tensor_operation (_operation to_cpu to_numpy) obj σ = Raise TypeError
    \/ nested_tensor_operation (_operation to_cpu to_numpy) obj σ
       = Raise NotImplementedError.
Proof.
  intros flags.
  induction obj as [l IH|l IH|items IH|t|t| |b|z|r|s| ] using pyobj_nested_ind;
    intros Hp; try discriminate Hp; intros σ Hal.
  - apply allocated_PList in Hal. rewrite nested_tensor_operation_PList.
    destruct (nested_list_raises l flags IH Hp σ Hal) as [Hr|Hr]; rewrite Hr;
      [left | right]; reflexivity.
  - apply allocated_PList in Hal. rewrite nested_tensor_operation_PTuple.
    destruct (nested_list_raises l flags IH Hp σ Hal) as [Hr|Hr]; rewrite Hr;
      [left | right]; reflexivity.
  - apply allocated_PDict in Hal. rewrite nested_tensor_operation_PDict.
    destruct (nested_items_raises items flags IH Hp [] σ Hal) as [Hr|Hr]; rewrite Hr;
      [left | right]; reflexivity.
  - left. reflexivity.
  - left. reflexivity.
Qed.
End operation.

(** X16: [nested_detach_and_clone] raises [ValueError] for [to_numpy] without
    [to_cpu]; otherwise it returns exactly on the values made of lists,
    tuples, dicts with string keys, tensors, [None], booleans, numbers and
    strings, leaving the storages of the source as they were, and raises
    [TypeError] or [NotImplementedError] on every other value. *)
Theorem nested_detach_and_clone_returns_iff_supported
    (obj : pyobj nat) (to_cpu to_numpy : bool) (σ : list storage) :
  allocated σ obj ->
  (negb to_cpu && to_numpy = true ->
   nested_detach_and_clone obj to_cpu to_numpy σ = Raise ValueError)
  /\ (negb to_cpu && to_numpy = false -> supported obj = true ->
      exists obj' new,
        nested_detach_and_clone obj to_cpu to_numpy σ = Ok (obj', σ ++ new))
  /\ (negb to_cpu && to_numpy = false -> supported obj = false ->
      nested_detach_and_clone obj to_cpu to_numpy σ = Raise TypeError
      \/ nested_detach_and_clone obj to_cpu to_numpy σ = Raise NotImplementedError).
Proof.
  intros Hal. unfold nested_detach_and_clone. split; [|split].
  - intros ->. reflexivity.
  - intros Hflags Hs. rewrite Hflags.
    destruct (supported_returns to_cpu to_numpy obj Hflags Hs σ Hal)
      as (obj' & new & Heq & _).
    exists obj', new. exact Heq.
  - intros Hflags Hs. rewrite Hflags.
    exact (unsupported_raises to_cpu to_numpy obj Hflags Hs σ Hal).
Qed.

(** X17: with [to_cpu] the call returns on every value it accepts, every
    tensor (or array) of the result lives on the CPU, in a storage allocated
    by the call, and the source keeps its contents. *)
Theorem nested_detach_and_clone_to_cpu
    (obj : pyobj nat) (to_numpy : bool) (σ : list storage) :
  supported obj = true ->
  allocated σ obj ->
  exists obj' σ',
    nested_detach_and_clone obj true to_numpy σ = Ok (obj', σ')
    /\ on_cpu σ' obj'
    /\ (forall l, l ∈ obj_locs obj' -> l ∉ obj_locs obj)
    /\ contents σ' obj = contents σ obj.
Proof.
  intros Hs Hal.
  destruct (supported_returns true to_numpy obj eq_refl Hs σ Hal)
    as (obj' & new & Heq & Hf & Hc).
  exists obj', (σ ++ new). split; [exact Heq|]. split; [exact (Hc eq_refl)|].
  split; [|apply contents_app, Hal].
  unfold fresh_in in Hf. rewrite Forall_forall in Hf.
  intros l Hl Hl'. unfold allocated in Hal. rewrite Forall_forall in Hal.
  specialize (Hf l Hl). specialize (Hal l Hl'). lia.
Qed.
End nested_traversal.

(** ** What the dispatcher checks *)

Section dispatcher.
Local Open Scope string_scope.
Variable entropy_from_logits : list (list (list R)) -> list (list R).
Implicit Types (logits : list (list (list R))) (actions : list (list Z)).
Implicit Types (sl : list Z).

(** X18: the margin arguments reach the ["v2_v2r"] variant only, and the
    coefficient the three reversed variants only: the dispatcher returns the
    same for every other identifier whatever they are. *)
Theorem soft_q_dispatch_unused_arguments
    (implementation : string) logits (logits_ : list (list (list R))) actions
    (rewards : py_rewards) sl
    (coefficient margin_constant margin_coefficient : option R) :
  (implementation ≠ "v2_v2r" ->
   soft_q_loss_with_sparse_rewards entropy_from_logits implementation
     logits logits_ actions rewards sl
     coefficient margin_constant margin_coefficient
   = soft_q_loss_with_sparse_rewards entropy_from_logits implementation
       logits logits_ actions rewards sl coefficient None None)
  /\ (implementation ∉ ["v2_v2r"; "v3_v3r"; "v2_v2r_v3_v3r"] ->
      soft_q_loss_with_sparse_rewards entropy_from_logits implementation
        logits logits_ actions rewards sl
        coefficient margin_constant margin_coefficient
      = soft_q_loss_with_sparse_rewards entropy_from_logits implementation
          logits logits_ actions rewards sl None None None).
Proof.
  split.
  - intros Hne. unfold soft_q_loss_with_sparse_rewards.
    replace (select_sql_loss_func entropy_from_logits implementation
               coefficient margin_constant margin_coefficient)
      with (select_sql_loss_func entropy_from_logits implementation
              coefficient None None); [reflexivity|].
    unfold select_sql_loss_func.
    rewrite !(bool_decide_eq_false_2 (implementation = "v2_v2r")) by exact Hne.
    reflexivity.
  - intros Hne. unfold soft_q_loss_with_sparse_rewards.
    replace (select_sql_loss_func entropy_from_logits implementation
               coefficient margin_constant margin_coefficient)
      with (select_sql_loss_func entropy_from_logits implementation
              None None None); [reflexivity|].
    unfold select_sql_loss_func.
    rewrite !(bool_decide_eq_false_2 (implementation = "v2_v2r")) by set_solver.
    rewrite !(bool_decide_eq_false_2 (implementation = "v3_v3r")) by set_solver.
    rewrite !(bool_decide_eq_false_2 (implementation = "v2_v2r_v3_v3r"))
      by set_solver.
    reflexivity.
Qed.

End dispatcher.

(** ** The logs of the forward passes *)

Section prefixed_keys.
Context {A : Type}.
Implicit Types (d : dict string A) (prefix key : string).

Lemma dict_remove_keys_subset (k k' : string) d :
  k' ∈ (dict_remove k d).*1 -> k' ∈ d.*1.
Proof.
  induction d as [|[k0 v0] d IH]; [done|].
  cbn [dict_remove]. rewrite fmap_cons. cbn [fst]. case_bool_decide as Hk.
  - intros H. apply list_elem_of_further, H.
  - rewrite fmap_cons. cbn [fst]. rewrite !elem_of_cons. intros [->|H]; auto.
Qed.

Lemma dict_remove_NoDup (k : string) d :
  NoDup d.*1 -> NoDup (dict_remove k d).*1 /\ k ∉ (dict_remove k d).*1.
Proof.
  induction d as [|[k0 v0] d IH].
  - intros _. split; [constructor | apply not_elem_of_nil].
  - cbn [dict_remove]. rewrite fmap_cons. cbn [fst].
    intros Hnd. apply NoDup_cons in Hnd as [Hk0 Hnd].
    case_bool_decide as Hk.
    + subst. split; assumption.
    + destruct (IH Hnd) as [IH1 IH2]. rewrite fmap_cons. cbn [fst]. split.
      * apply NoDup_cons. split; [|exact IH1].
        intros Hin. apply Hk0. eapply dict_remove_keys_subset, Hin.
      * rewrite not_elem_of_cons. split; assumption.
Qed.

(** The loop of [add_prefix_to_dict_keys_inplace] over the keys that are
    left: the keys of the dict stay distinct, and each is excluded, a new
    name, or a key that is left. *)
Lemma add_prefix_fold_keys prefix (ex : option (list string))
    (keys : list string) d :
  NoDup d.*1 ->
  Forall (fun key => excluded ex key = true
                     \/ (exists key0, key = prefix +:+ key0)
                     \/ key ∈ keys) d.*1 ->
  let d' :=
    foldl
      (fun d key =>
         if match ex with
            | Some ex => bool_decide (key ∈ ex)
            | None => false
            end
         then d
         else match dict_get key d with
              | Some v => dict_set (prefix +:+ key) v (dict_remove key d)
              | None => d
              end)
      d keys in
  NoDup d'.*1
  /\ Forall (fun key => excluded ex key = true \/ exists key0, key = prefix +:+ key0)
       d'.*1.
Proof.
  revert d. induction keys as [|k keys IH]; intros d Hnd Hinv.
  - simpl. split; [exact Hnd|]. eapply Forall_impl; [exact Hinv|].
    intros key [H|[H|H]]; [left; exact H | right; exact H | ].
    apply elem_of_nil in H. contradiction.
  - cbn [foldl].
    change (match ex with
            | Some ex0 => bool_decide (k ∈ ex0)
            | None => false
            end) with (excluded ex k).
    destruct (excluded ex k) eqn:Hex.
    + apply IH; [exact Hnd|]. eapply Forall_impl; [exact Hinv|].
      intros key [H|[H|H]]; [left; exact H | right; left; exact H |].
      apply elem_of_cons in H as [->|H]; [left; exact Hex | right; right; exact H].
    + destruct (dict_get k d) as [v|] eqn:Hget.
      * destruct (dict_remove_NoDup k d Hnd) as [Hnd' Hk].
        apply IH; [apply dict_set_NoDup, Hnd'|].
        rewrite dict_set_keys. apply Forall_forall. intros key Hkey.
        assert (Hcases : key = prefix +:+ k \/ key ∈ (dict_remove k d).*1).
        { case_bool_decide; [right; exact Hkey|].
          apply elem_of_app in Hkey as [Hkey|Hkey]; [right; exact Hkey|].
          apply list_elem_of_singleton in Hkey. left. exact Hkey. }
        destruct Hcases as [->|Hin]; [right; left; eexists; reflexivity|].
        pose proof (dict_remove_keys_subset _ _ _ Hin) as Hin'.
        rewrite Forall_forall in Hinv.
        destruct (Hinv key Hin') as [H|[H|H]];
          [left; exact H | right; left; exact H |].
        apply elem_of_cons in H as [->|H]; [contradiction | right; right; exact H].
      * apply IH; [exact Hnd|]. apply Forall_forall. intros key Hkey.
        rewrite Forall_forall in Hinv.
        destruct (Hinv key Hkey) as [H|[H|H]];
          [left; exact H | right; left; exact H |].
        apply elem_of_cons in H as [->|H]; [|right; right; exact H].
        apply dict_get_None in Hget. contradiction.
Qed.

Lemma add_prefix_keys prefix (ex : option (list string)) d :
  NoDup d.*1 ->
  NoDup (add_prefix_to_dict_keys_inplace d prefix ex).*1
  /\ Forall (fun key => excluded ex key = true \/ exists key0, key = prefix +:+ key0)
       (add_prefix_to_dict_keys_inplace d prefix ex).*1.
Proof.
  intros Hnd. apply (add_prefix_fold_keys prefix ex d.*1 d Hnd).
  apply Forall_forall. auto.
Qed.
End prefixed_keys.

Section forward_log.
Import SoftQLearningTrainer.
Local Open Scope string_scope.
Context {A : Type}.

Lemma dict_update_keys {K B : Type} `{EqDecision K} (m d : dict K B) (k : K) :
  k ∈ (dict_update m d).*1 -> k ∈ m.*1 \/ k ∈ d.*1.
Proof.
  revert m. unfold dict_update.
  induction d as [|[k' v'] d IH]; intros m Hk; [left; exact Hk|].
  cbn [foldl fst snd] in Hk. apply IH in Hk as [Hk|Hk].
  - rewrite dict_set_keys in Hk. rewrite fmap_cons, elem_of_cons. cbn [fst].
    case_bool_decide; [left; exact Hk|].
    apply elem_of_app in Hk as [Hk|Hk]; [left; exact Hk|].
    apply list_elem_of_singleton in Hk. right. left. exact Hk.
  - right. apply list_elem_of_further, Hk.
Qed.

Lemma unionize_dicts_keys {K B : Type} `{EqDecision K}
    (dict_list : list (dict K B)) (k : K) :
  k ∈ (unionize_dicts dict_list).*1 -> exists d, d ∈ dict_list /\ k ∈ d.*1.
Proof.
  induction dict_list as [|d dict_list IH] using rev_ind.
  - intros H. apply elem_of_nil in H. contradiction.
  - rewrite unionize_dicts_snoc. intros H.
    apply dict_update_keys in H as [H|H].
    + destruct (IH H) as (d' & Hd' & Hk). exists d'. split; [|exact Hk].
      apply elem_of_app. left. exact Hd'.
    + exists d. split; [|exact H]. apply elem_of_app. right.
      apply list_elem_of_singleton. reflexivity.
Qed.

Lemma _forward_SQL_log_keys (mode : ForwardMode)
    (rewards_log sql_loss_log : dict string A) (raw_mean shaped_mean : A) :
  NoDup rewards_log.*1 -> NoDup sql_loss_log.*1 ->
  Forall (fun key => exists key0, key = mode_value mode +:+ "/" +:+ key0)
    (_forward_SQL_log mode rewards_log sql_loss_log raw_mean shaped_mean).*1.
Proof.
  intros Hr Hs. apply Forall_forall. intros key Hkey.
  apply unionize_dicts_keys in Hkey as (d & Hd & Hkey).
  repeat (apply elem_of_cons in Hd as [->|Hd]);
    [ | | | apply elem_of_nil in Hd; contradiction ].
  - destruct (add_prefix_keys (mode_value mode +:+ "/rewards/") None _ Hr) as [_ H].
    rewrite Forall_forall in H. destruct (H key Hkey) as [H'|[key0 ->]];
      [discriminate|].
    exists ("rewards/" +:+ key0). destruct mode; reflexivity.
  - destruct (add_prefix_keys (mode_value mode +:+ "/") None _ Hs) as [_ H].
    rewrite Forall_forall in H. destruct (H key Hkey) as [H'|[key0 ->]];
      [discriminate|].
    exists key0. destruct mode; reflexivity.
  - rewrite !fmap_cons in Hkey. cbn [fst] in Hkey.
    repeat (apply elem_of_cons in Hkey as [->|Hkey]);
      [ | | apply elem_of_nil in Hkey; contradiction ].
    + exists "rewards/raw". destruct mode; reflexivity.
    + exists "rewards/shaped". destruct mode; reflexivity.
Qed.

Lemma dict_get_Some_key {K B : Type} `{EqDecision K} (d : dict K B) (k : K) (v : B) :
  dict_get k d = Some v -> k ∈ d.*1.
Proof.
  intros H. destruct (decide (k ∈ d.*1)) as [Hin|Hnin]; [exact Hin|].
  apply dict_get_None in Hnin. congruence.
Qed.

(** X20: every key of the log of a forward pass starts with the name of its
    mode, so the merge of the logs of the [SQL_OFF] and of the [SQL_ON] pass
    that [step] makes under ["mix"] keeps every entry of both. *)
Theorem forward_SQL_logs_do_not_collide
    (rewards_log_off sql_loss_log_off rewards_log_on sql_loss_log_on : dict string A)
    (raw_off shaped_off raw_on shaped_on : A) :
  NoDup rewards_log_off.*1 -> NoDup sql_loss_log_off.*1 ->
  NoDup rewards_log_on.*1 -> NoDup sql_loss_log_on.*1 ->
  let log_off :=
    _forward_SQL_log SQL_OFF rewards_log_off sql_loss_log_off raw_off shaped_off in
  let log_on :=
    _forward_SQL_log SQL_ON rewards_log_on sql_loss_log_on raw_on shaped_on in
  Forall (fun key => exists key0, key = "SQL_OFF/" +:+ key0) log_off.*1
  /\ Forall (fun key => exists key0, key = "SQL_ON/" +:+ key0) log_on.*1
  /\ forall key,
       dict_get key (unionize_dicts [log_off; log_on])
       = match dict_get key log_off with
         | Some v => Some v
         | None => dict_get key log_on
         end.
Proof.
  intros Hro Hso Hrn Hsn log_off log_on.
  pose proof (_forward_SQL_log_keys SQL_OFF _ _ raw_off shaped_off Hro Hso) as Hoff.
  pose proof (_forward_SQL_log_keys SQL_ON _ _ raw_on shaped_on Hrn Hsn) as Hon.
  fold log_off in Hoff. fold log_on in Hon.
  split; [exact Hoff|]. split; [exact Hon|].
  intros key.
  change (unionize_dicts [log_off; log_on])
    with (dict_update (dict_update [] log_off) log_on).
  rewrite dict_update_get by apply unionize_dicts_NoDup.
  rewrite dict_update_get by apply unionize_dicts_NoDup.
  destruct (dict_get key log_off) as [v|] eqn:Hv; [|destruct (dict_get key log_on); reflexivity].
  destruct (dict_get key log_on) as [w|] eqn:Hw; [|reflexivity].
  apply dict_get_Some_key in Hv, Hw.
  rewrite Forall_forall in Hoff, Hon.
  destruct (Hoff key Hv) as [k0 ->]. destruct (Hon _ Hw) as [k1 Heq].
  discriminate Heq.
Qed.
End forward_log.

(** ** The DDPO configuration *)

Section ddpo_config.
Import DDPOConfig.
Local Open Scope string_scope.

Lemma fields_NoDup : NoDup fields.*1.
Proof. apply (bool_decide_unpack _). vm_compute. exact I. Qed.

Lemma dict_get_fmap_default (kwargs : dict string value)
    (fs : list (string * value)) (name : string) (dflt : value) :
  NoDup fs.*1 -> (name, dflt) ∈ fs ->
  dict_get name ((fun f => (f.1, default f.2 (dict_get f.1 kwargs))) <$> fs)
  = Some (default dflt (dict_get name kwargs)).
Proof.
  induction fs as [|[n d] fs IH]; intros Hnd Hin.
  - apply elem_of_nil in Hin. contradiction.
  - rewrite fmap_cons in Hnd. apply NoDup_cons in Hnd as [Hn Hnd]. cbn [fst] in Hn.
    rewrite fmap_cons. cbn [dict_get fst snd].
    apply elem_of_cons in Hin as [Heq|Hin].
    + injection Heq as -> ->. rewrite bool_decide_eq_true_2 by reflexivity.
      reflexivity.
    + rewrite bool_decide_eq_false_2; [exact (IH Hnd Hin)|].
      intros ->. apply Hn. apply list_elem_of_fmap. exists (n, dflt). split; [reflexivity | exact Hin].
Qed.

(** X21: a keyword that is not one of the fields makes the
    initialiser raise [TypeError]; with known keywords it returns a
    configuration in which every field has the value of its keyword, or its
    default when there is none. *)
Theorem DDPOConfig_init_keywords (kwargs : dict string value) :
  (forall key, key ∈ kwargs.*1 -> key ∉ fields.*1 -> init kwargs = Raise TypeError)
  /\ (Forall (fun key => key ∈ fields.*1) kwargs.*1 ->
      exists config,
        init kwargs = Ok config
        /\ config.*1 = fields.*1
        /\ forall name dflt, (name, dflt) ∈ fields ->
             dict_get name config = Some (default dflt (dict_get name kwargs))).
Proof.
  unfold init. split.
  - intros key Hkey Hnot.
    destruct (forallb _ kwargs) eqn:Hall; [|reflexivity].
    rewrite forallb_forall in Hall.
    apply list_elem_of_fmap in Hkey as ([k v] & -> & Hkv).
    apply list_elem_of_In in Hkv. apply Hall in Hkv.
    apply bool_decide_eq_true in Hkv. contradiction.
  - intros Hall.
    assert (Hb : forallb (fun kv : string * value => bool_decide (kv.1 ∈ fields.*1)) kwargs = true).
    { apply forallb_forall. intros kv Hkv. apply bool_decide_eq_true.
      rewrite Forall_forall in Hall. apply Hall.
      apply list_elem_of_fmap. exists kv. split; [reflexivity|].
      apply list_elem_of_In, Hkv. }
    rewrite Hb. eexists. split; [reflexivity|]. split.
    + rewrite <- list_fmap_compose. apply list_fmap_ext. intros i [n d] _. reflexivity.
    + intros name dflt Hin. apply dict_get_fmap_default; [apply fields_NoDup | exact Hin].
Qed.
End ddpo_config.

(** ** The image logger *)

Section image_logger_properties.
Local Open Scope string_scope.
Context {Image Other : Type}.
Variable unsqueeze : Image -> Image.
Variable format_2f : R -> string.

Lemma length_dict_set {K A : Type} `{EqDecision K} (k : K) (v : A) (d : dict K A) :
  length (dict_set k v d) <= S (length d).
Proof.
  induction d as [|[k' v'] d IH]; simpl; [lia|].
  case_bool_decide; simpl; lia.
Qed.

Lemma image_outputs_loop_spec (images : list Image) (prompts : list string)
    (rewards : list R) (i : nat) (logged : dict string Image) :
  NoDup logged.*1 ->
  i + length images <= length prompts ->
  i + length images <= length rewards ->
  exists res,
    image_outputs_loop unsqueeze format_2f i images prompts rewards logged = Ok res
    /\ NoDup res.*1
    /\ length res <= length logged + length images
    /\ (forall k image prompt reward,
          images !! k = Some image ->
          prompts !! (i + k) = Some prompt ->
          rewards !! (i + k) = Some reward ->
          (forall j prompt' reward',
              k < j ->
              prompts !! (i + j) = Some prompt' ->
              rewards !! (i + j) = Some reward' ->
              j < length images ->
              image_key format_2f prompt' reward' ≠ image_key format_2f prompt reward) ->
          dict_get (image_key format_2f prompt reward) res = Some (unsqueeze image))
    /\ (forall key,
          (forall k prompt reward,
              k < length images ->
              prompts !! (i + k) = Some prompt ->
              rewards !! (i + k) = Some reward ->
              image_key format_2f prompt reward ≠ key) ->
          dict_get key res = dict_get key logged).
Proof.
  revert i logged. induction images as [|image images IH]; intros i logged Hnd Hp Hr.
  - exists logged. split; [reflexivity|]. split; [exact Hnd|]. split; [simpl; lia|].
    split; [intros k ? ? ? Hk; discriminate Hk | reflexivity].
  - simpl in Hp, Hr.
    destruct (lookup_lt_is_Some_2 prompts i) as [prompt Hprompt]; [lia|].
    destruct (lookup_lt_is_Some_2 rewards i) as [reward Hreward]; [lia|].
    destruct (IH (S i)
                (dict_set (image_key format_2f prompt reward) (unsqueeze image) logged))
      as (res & Heq & Hnd' & Hlen & Hlast & Hkeep);
      [apply dict_set_NoDup, Hnd | lia | lia |].
    exists res. split; [simpl; rewrite Hprompt, Hreward; exact Heq|].
    split; [exact Hnd'|]. split.
    { pose proof (length_dict_set (image_key format_2f prompt reward)
                    (unsqueeze image) logged). simpl. lia. }
    split.
    + intros [|k] img p r Himg Hpk Hrk Hlater.
      * rewrite Nat.add_0_r in Hpk, Hrk. simplify_eq/=.
        rewrite Hkeep; [apply dict_get_set_eq|].
        intros k p' r' Hk Hp' Hr'.
        apply (Hlater (S k) p' r');
          [ lia | rewrite <- Hp'; f_equal; lia | rewrite <- Hr'; f_equal; lia
          | simpl; lia ].
      * simpl in Himg.
        apply (Hlast k img p r Himg);
          [ rewrite <- Hpk; f_equal; lia | rewrite <- Hrk; f_equal; lia |].
        intros j p' r' Hj Hp' Hr' Hjl.
        apply (Hlater (S j) p' r');
          [ lia | rewrite <- Hp'; f_equal; lia | rewrite <- Hr'; f_equal; lia
          | simpl; lia ].
    + intros key Hfresh. rewrite Hkeep.
      * apply dict_get_set_ne. intros ->.
        apply (Hfresh 0 prompt reward); [simpl; lia | | | reflexivity];
          rewrite Nat.add_0_r; assumption.
      * intros k p' r' Hk Hp' Hr'.
        apply (Hfresh (S k) p' r');
          [ simpl; lia | rewrite <- Hp'; f_equal; lia | rewrite <- Hr'; f_equal; lia ].
Qed.

Lemma image_outputs_loop_index_error (images : list Image) (prompts : list string)
    (rewards : list R) (i : nat) (logged : dict string Image) :
  i <= length prompts -> i <= length rewards ->
  length prompts < i + length images \/ length rewards < i + length images ->
  image_outputs_loop unsqueeze format_2f i images prompts rewards logged
  = Raise IndexError.
Proof.
  revert i logged. induction images as [|image images IH]; intros i logged Hp Hr Hshort.
  - simpl in Hshort. lia.
  - simpl in Hshort. simpl.
    destruct (prompts !! i) as [prompt|] eqn:Hprompt; [|reflexivity].
    destruct (rewards !! i) as [reward|] eqn:Hreward; [|reflexivity].
    apply lookup_lt_Some in Hprompt, Hreward. apply IH; lia.
Qed.

(** X22: [image_outputs_logger] reads the last entry of [image_data] only.
    When it has a prompt and a reward for every image, it logs under every
    key the last image that has the key: images whose shortened prompt and
    formatted reward coincide replace each other.  An empty [image_data], or
    fewer prompts or rewards than images, is an [IndexError]. *)
Theorem image_outputs_logger_last_image_wins
    (earlier : list (list Image * list string * Other * list R))
    (images : list Image) (prompts : list string) (other : Other)
    (rewards : list R) (global_step : Z) :
  image_outputs_logger unsqueeze format_2f
    ([] : list (list Image * list string * Other * list R)) global_step
  = Raise IndexError
  /\ (length prompts < length images \/ length rewards < length images ->
      image_outputs_logger unsqueeze format_2f
        (earlier ++ [(images, prompts, other, rewards)]) global_step
      = Raise IndexError)
  /\ (length images <= length prompts -> length images <= length rewards ->
      exists logged,
        image_outputs_logger unsqueeze format_2f
          (earlier ++ [(images, prompts, other, rewards)]) global_step
        = Ok (logged, global_step)
        /\ NoDup logged.*1
        /\ length logged <= length images
        /\ forall i image prompt reward,
             images !! i = Some image ->
             prompts !! i = Some prompt ->
             rewards !! i = Some reward ->
             (forall j prompt' reward',
                 i < j ->
                 prompts !! j = Some prompt' ->
                 rewards !! j = Some reward' ->
                 j < length images ->
                 image_key format_2f prompt' reward'
                 ≠ image_key format_2f prompt reward) ->
             dict_get (image_key format_2f prompt reward) logged
             = Some (unsqueeze image)).
Proof.
  split; [reflexivity|]. unfold image_outputs_logger. rewrite last_snoc. split.
  - intros Hshort.
    rewrite image_outputs_loop_index_error; [reflexivity | lia | lia | simpl; lia].
  - intros Hp Hr.
    destruct (image_outputs_loop_spec images prompts rewards 0 [])
      as (res & Heq & Hnd & Hlen & Hlast & _);
      [constructor | simpl; lia | simpl; lia |].
    exists res. rewrite Heq. split; [reflexivity|]. split; [exact Hnd|].
    split; [simpl in Hlen; lia|]. exact Hlast.
Qed.
End image_logger_properties.

(** ** The dispatcher on a well-formed batch *)

Section dispatcher_returns.
Local Open Scope string_scope.
Variable entropy_from_logits : list (list (list R)) -> list (list R).
Variables B T V : nat.
Implicit Types (logits : list (list (list R))) (actions : list (list Z)).
Implicit Types (rewards : list R) (sl : list Z).

(** X23: on a well-formed batch with at least one row and one time step the
    dispatcher raises for none of the seven identifiers, whatever the
    coefficient and the margin arguments: the variant returns raw losses of
    shape [B, T] and the dispatcher returns their masked reduction. *)
Theorem soft_q_dispatch_returns_on_well_formed
    (implementation : string) logits (logits_ : list (list (list R)))
    actions rewards sl
    (coefficient margin_constant margin_coefficient : option R) :
  batch_ok B T V logits logits_ actions rewards sl ->
  1 <= B -> 1 <= T ->
  implementation ∈ implementations ->
  exists f raw_losses quantities_to_log loss_log,
    select_sql_loss_func entropy_from_logits implementation
      coefficient margin_constant margin_coefficient = Some f
    /\ f logits logits_ actions rewards sl = Ok (raw_losses, quantities_to_log)
    /\ shaped2 B T raw_losses
    /\ soft_q_loss_with_sparse_rewards entropy_from_logits implementation
         logits logits_ actions (RewardsTensor [B] rewards) sl
         coefficient margin_constant margin_coefficient
       = Ok (mask_and_reduce raw_losses sl false true, loss_log).
Proof.
  intros Hok HB HT Hin. pose proof Hok as [Hl Hl_ Ha Har Hr Hs Hsr].
  destruct (select_sql_loss_func_ok entropy_from_logits B T V implementation
              _ _ _ _ _ coefficient margin_constant margin_coefficient Hin Hok HT)
    as (f & raw & qlog & Hsel & Hf & Hshape).
  exists f, raw, qlog. eexists.
  split; [exact Hsel|]. split; [exact Hf|]. split; [exact Hshape|].
  unfold soft_q_loss_with_sparse_rewards.
  rewrite bool_decide_eq_false_2 by (intros Hn; exact (Hn Hin)).
  rewrite bool_decide_eq_false_2
    by (simpl; destruct Hl as [-> _]; intros [H|H]; congruence).
  rewrite Hsel.
  rewrite (bool_decide_eq_false_2 (shape3 logits ≠ shape3 logits_))
    by (rewrite (shape3_shaped B T V _ Hl), (shape3_shaped B T V _ Hl_) by lia; tauto).
  rewrite Hf. res_simpl. reflexivity.
Qed.
End dispatcher_returns.

(** * Worked inputs *)

Section worked_inputs.
Local Open Scope string_scope.
Local Open Scope R_scope.

(** A batch of one row, two time steps and two actions, of length 1. *)
Lemma one_row_batch_ok :
  batch_ok 1 2 2
    [[[0; 0]; [0; 0]]] [[[1; 2]; [3; 4]]] [[0%Z; 1%Z]] [5] [1%Z].
Proof.
  split; repeat (first [ split | constructor ]); unfold index_ok; simpl; lia.
Qed.

Lemma soft_q_v2_terminal_target_advantage_witness :
  batch_ok 1 2 2
    [[[0; 0]; [0; 0]]] [[[1; 2]; [3; 4]]] [[0%Z; 1%Z]] [5] [1%Z]
  /\ exists raw_losses quantities_to_log A_,
      soft_q_loss_with_sparse_rewards_2 (fun _ => [])
        [[[0; 0]; [0; 0]]] [[[1; 2]; [3; 4]]] [[0%Z; 1%Z]] [5] [1%Z]
      = Ok (raw_losses, quantities_to_log)
      /\ dict_get "A_" quantities_to_log = Some A_
      /\ elem2 A_ 0 0 = Some (5 - logsumexp [1; 2]).
Proof.
  split; [exact one_row_batch_ok|].
  apply (soft_q_v2_terminal_target_advantage (fun _ => []) 1 2 2
           _ _ _ _ _ 0%nat 5 [1; 2] one_row_batch_ok);
    reflexivity.
Defined.



(** C3 as the spec states it gives [c * forward + (1 - c) * reversed] for
    every input of [v2_v2r]; with a margin constant and a margin
    coefficient the raw loss differs from it. *)
Lemma soft_q_v2_v2r_margin_counterexample :
  exists forward reversed raw_losses log_f log_r log,
    soft_q_loss_with_sparse_rewards_2 (fun _ => [])
      [[[0; 0]]] [[[0; 0]]] [[0%Z]] [0] [1%Z] = Ok (forward, log_f)
    /\ soft_q_loss_with_sparse_rewards_2 (fun _ => [])
         [[[0; 0]]] [[[0; 0]]] [[0%Z]] [0] [1%Z] = Ok (reversed, log_r)
    /\ soft_q_loss_with_sparse_rewards_2_2_reversed (fun _ => [])
         [[[0; 0]]] [[[0; 0]]] [[0%Z]] [0] [1%Z]
         (Some (1 / 2)) (Some 1) (Some 1)
       = Ok (raw_losses, log)
    /\ raw_losses ≠ mix2 (1 / 2) forward reversed.
Proof.
  eexists _, _, _, _, _, _.
  split; [reflexivity|]. split; [reflexivity|]. split; [reflexivity|].
  intros H. cbv [mix2 add2 scale2 zip_with fmap list_fmap] in H.
  injection H as H. revert H.
  cbv [max_row add3 zip_with foldl put fst snd norm_index bool_decide
         decide_rel Z.to_nat length list_insert insert fmap list_fmap
         pick lookup list_lookup default id].
  simpl.
  rewrite (Rmax_right (0 + 0) (0 + 1 * 1)) by lra.
  intros H. lra.
Qed.

Lemma soft_q_reversed_combination_witness :
  exists forward_3 reversed_3 log_f3 log_r3 log,
    soft_q_loss_with_sparse_rewards_3
      [[[0; 0]; [0; 0]]] [[[1; 2]; [3; 4]]] [[0%Z; 1%Z]] [5] [1%Z] false
    = Ok (forward_3, log_f3)
    /\ soft_q_loss_with_sparse_rewards_3
         [[[1; 2]; [3; 4]]] [[[0; 0]; [0; 0]]] [[0%Z; 1%Z]] [5] [1%Z] false
       = Ok (reversed_3, log_r3)
    /\ soft_q_loss_with_sparse_rewards_3_3_reversed
         [[[0; 0]; [0; 0]]] [[[1; 2]; [3; 4]]] [[0%Z; 1%Z]] [5] [1%Z]
         (Some (1 / 4))
       = Ok (mix2 (1 / 4) forward_3 reversed_3, log).
Proof.
  destruct (proj1 (soft_q_reversed_combination (fun _ => [])
                     [[[0; 0]; [0; 0]]] [[[1; 2]; [3; 4]]] [[0%Z; 1%Z]] [5] [1%Z]
                     (1 / 4))
              _ _ _ _ eq_refl eq_refl)
    as [log H].
  eexists _, _, _, _, log.
  split; [reflexivity|]. split; [reflexivity|]. exact H.
Defined.

Lemma large_margin_classification_loss_formula_witness :
  shaped3 1 1 2 [[[3; 0]]]
  /\ exists raw_losses quantities_to_log,
      large_margin_classification_loss [[[3; 0]]] [[0%Z]] 1
      = Ok (raw_losses, quantities_to_log)
      /\ elem2 raw_losses 0 0 = Some 0.
Proof.
  assert (Hl : shaped3 1 1 2 [[[3; 0]]]).
  { repeat (first [ split | constructor ]). }
  assert (Ha : shaped2 1 1 [[0%Z]]).
  { repeat (first [ split | constructor ]). }
  assert (Hr : Forall (Forall (index_ok 2)) [[0%Z]]).
  { repeat constructor; simpl; lia. }
  split; [exact Hl|].
  destruct (large_margin_classification_loss_formula 1 1 2
              [[[3; 0]]] [[0%Z]] 1 Hl Ha Hr)
    as (raw & qlog & Heq & Hpos).
  exists raw, qlog. split; [exact Heq|].
  destruct (Hpos 0%nat 0%nat [3; 0] 0%Z eq_refl eq_refl) as [_ Hzero].
  apply Hzero. intros [|[|k]] x Hk Hx; simpl in *.
  - contradiction.
  - injection Hx as <-. lra.
  - discriminate Hx.
Defined.

Lemma step_copy_attribute_error_witness :
  SoftQLearningTrainer.step
    (fun self (_ : unit) (_ : Z) => Ok (self, tt))
    (SoftQLearningTrainer.init
       {| SoftQLearningTrainer.arg_model := [[1; 2]];
          SoftQLearningTrainer.arg_target_model := None;
          SoftQLearningTrainer.arg_sql_loss_impl := "v2_v2r";
          SoftQLearningTrainer.arg_target_update_method := Some "copy";
          SoftQLearningTrainer.arg_target_learning_rate := 1 / 1000;
          SoftQLearningTrainer.arg_mix_strategy := "alternate";
          SoftQLearningTrainer.arg_reward_shaping := false;
          SoftQLearningTrainer.arg_sql_loss_coefficients := None;
          SoftQLearningTrainer.arg_sql_loss_margin_constant := None;
          SoftQLearningTrainer.arg_sql_loss_margin_coefficient := None;
          SoftQLearningTrainer.arg_top_k := None;
          SoftQLearningTrainer.arg_top_p := None;
          SoftQLearningTrainer.arg_beam_width := None;
          SoftQLearningTrainer.arg_device := "cuda:0" |})
    tt 0
  = Raise AttributeError.
Proof.
  apply step_copy_attribute_error. reflexivity.
Defined.

(** Two rows, the second of length zero. *)
Lemma zero_length_batch_ok :
  batch_ok 2 2 2
    [[[0; 0]; [0; 0]]; [[1; 0]; [0; 1]]] [[[1; 2]; [3; 4]]; [[0; 0]; [0; 0]]]
    [[0%Z; 1%Z]; [1%Z; 0%Z]] [5; 7] [1%Z; 0%Z].
Proof.
  split; repeat (first [ split | constructor ]); unfold index_ok; simpl; lia.
Qed.

Lemma soft_q_zero_length_row_contributes_nothing_witness :
  exists raw_losses loss_log,
    soft_q_loss_with_sparse_rewards (fun _ => []) "v2_v2r_v3_v3r"
      [[[0; 0]; [0; 0]]; [[1; 0]; [0; 1]]] [[[1; 2]; [3; 4]]; [[0; 0]; [0; 0]]]
      [[0%Z; 1%Z]; [1%Z; 0%Z]] (RewardsTensor [2%nat] [5; 7]) [1%Z; 0%Z]
      (Some (1 / 2)) None None
    = Ok (mask_and_reduce raw_losses [1%Z; 0%Z] false true, loss_log)
    /\ mask_and_reduce raw_losses [1%Z; 0%Z] false true
       = Rsum (zip_with (reduce_row false true)
                 (delete 1%nat raw_losses) [1%Z]) / INR 2.
Proof.
  assert (Hin : "v2_v2r_v3_v3r" ∈ implementations).
  { apply (bool_decide_unpack _). reflexivity. }
  destruct (soft_q_zero_length_row_contributes_nothing (fun _ => []) 2 2 2
              "v2_v2r_v3_v3r" _ _ _ _ _ (Some (1 / 2)) None None 1%nat
              zero_length_batch_ok (le_S 1 1 (le_n 1)) Hin eq_refl)
    as (f & raw & qlog & log & _ & _ & Hloss & _ & _ & Hsum).
  exists raw, log. split; [exact Hloss | exact Hsum].
Defined.

Lemma nested_detach_and_clone_round_trip_witness :
  exists obj' σ',
    Nested.nested_detach_and_clone
      (Nested.PDict
         [(Nested.KeyStr "logits",
           Nested.PList [Nested.PTensor 0%nat; Nested.PInt 1]);
          (Nested.KeyStr "mask", Nested.PNone)])
      true false
      [{| Nested.st_device := Nested.Cuda; Nested.st_data := [1; 2] |}]
    = Ok (obj', σ')
    /\ Nested.contents σ' obj'
       = Nested.PDict
           [(Nested.KeyStr "logits",
             Nested.PList [Nested.PTensor (Some [1; 2]); Nested.PInt 1]);
            (Nested.KeyStr "mask", Nested.PNone)].
Proof.
  destruct (nested_detach_and_clone_round_trip
              (Nested.PDict
                 [(Nested.KeyStr "logits",
                   Nested.PList [Nested.PTensor 0%nat; Nested.PInt 1]);
                  (Nested.KeyStr "mask", Nested.PNone)])
              true
              [{| Nested.st_device := Nested.Cuda; Nested.st_data := [1; 2] |}])
    as (obj' & σ' & Hop & Hc & _).
  - reflexivity.
  - repeat constructor.
  - exists obj', σ'. split; [exact Hop|]. rewrite Hc. reflexivity.
Defined.
End worked_inputs.

(** * Further worked inputs *)

Section further_worked_inputs.
Local Open Scope string_scope.
Local Open Scope R_scope.

Lemma unionize_dicts_last_wins_witness :
  dict_get "V" (unionize_dicts [[("V", 1%Z)]; [("V", 2%Z); ("Q", 3%Z)]]) = Some 2%Z.
Proof.
  apply (unionize_dicts_last_wins [[("V", 1%Z)]; [("V", 2%Z); ("Q", 3%Z)]] "V" 2%Z).
  - apply (bool_decide_unpack _). vm_compute. exact I.
  - exists 1%nat, [("V", 2%Z); ("Q", 3%Z)]. split; [reflexivity|]. split; [reflexivity|].
    intros [|[|j]] d' Hj; [lia | lia | discriminate].
Defined.

Lemma add_prefix_to_dict_keys_inplace_renames_witness :
  add_prefix_to_dict_keys_inplace [("Q", 1%Z); ("V", 2%Z); ("A", 3%Z)] "0/" (Some ["V"])
  = [("V", 2%Z); ("0/Q", 1%Z); ("0/A", 3%Z)].
Proof.
  apply (add_prefix_to_dict_keys_inplace_renames
           [("Q", 1%Z); ("V", 2%Z); ("A", 3%Z)] "0/" (Some ["V"])).
  - apply (bool_decide_unpack _). vm_compute. exact I.
  - intros key key' Hkey _ Hkey' _.
    repeat (apply elem_of_cons in Hkey as [->|Hkey]);
      [ .. | apply elem_of_nil in Hkey; contradiction ];
      (repeat (apply elem_of_cons in Hkey' as [->|Hkey']);
       [ .. | apply elem_of_nil in Hkey'; contradiction ]);
      discriminate.
Defined.

Lemma two_steps_shaped3 : shaped3 1 2 2 [[[1; 2]; [3; 4]]].
Proof. repeat (first [ split | constructor ]). Qed.

Lemma gather_2d_on_last_dim_entries_witness :
  exists gathered,
    gather_2d_on_last_dim [[[1; 2]; [3; 4]]] [[0%Z; (-1)%Z]] = Ok gathered
    /\ elem2 gathered 0 1 = Some 4.
Proof.
  destruct (gather_2d_on_last_dim_entries 1 2 2 [[[1; 2]; [3; 4]]] [[0%Z; (-1)%Z]])
    as (gathered & Heq & _ & Hat).
  - exact two_steps_shaped3.
  - repeat (first [ split | constructor ]).
  - repeat constructor; unfold index_ok; simpl; lia.
  - exists gathered. split; [exact Heq|].
    destruct (Hat 0%nat 1%nat [3; 4] (-1)%Z eq_refl eq_refl) as (v & Hv & Hg).
    rewrite Hg, <- Hv. reflexivity.
Defined.

Lemma gather_2d_on_last_dim_index_error_witness :
  gather_2d_on_last_dim [[[1; 2]; [3; 4]]] [[0%Z; 2%Z]] = Raise IndexError.
Proof.
  apply (gather_2d_on_last_dim_index_error 1 2 2).
  - exact two_steps_shaped3.
  - repeat (first [ split | constructor ]).
  - intros H. inversion H as [|? ? H1 _]; subst.
    inversion H1 as [|? ? _ H2]; subst. inversion H2 as [|? ? H3 _]; subst.
    unfold index_ok in H3. simpl in H3. lia.
Defined.

Lemma soft_q_v1_target_witness :
  exists Q Q_ quantities_to_log,
    soft_q_loss_with_sparse_rewards_1
      [[[0; 0]; [0; 0]]; [[1; 0]; [0; 1]]] [[[1; 2]; [3; 4]]; [[0; 0]; [0; 0]]]
      [[0%Z; 1%Z]; [1%Z; 0%Z]] [5; 7] [1%Z; 0%Z]
    = Ok (mse_loss Q Q_, quantities_to_log)
    /\ elem2 Q_ 1 1 = Some 7.
Proof.
  destruct (soft_q_v1_target 2 2 2 _ _ _ _ _ 1%nat 1%nat 0%Z 7
              [logsumexp [0; 0]; logsumexp [0; 0]]
              zero_length_batch_ok eq_refl eq_refl eq_refl (le_n 2))
    as (Q & Q_ & qlog & Heq & _ & _ & Hat).
  exists Q, Q_, qlog. split; [exact Heq | exact Hat].
Defined.

Lemma soft_q_v2_target_witness :
  exists Q A_ quantities_to_log,
    soft_q_loss_with_sparse_rewards_2 (fun _ => [])
      [[[0; 0]; [0; 0]]; [[1; 0]; [0; 1]]] [[[1; 2]; [3; 4]]; [[0; 0]; [0; 0]]]
      [[0%Z; 1%Z]; [1%Z; 0%Z]] [5; 7] [1%Z; 0%Z]
    = Ok (mse_loss (sub2 Q (logsumexp_last [[[0; 0]; [0; 0]]; [[1; 0]; [0; 1]]])) A_,
          quantities_to_log)
    /\ elem2 A_ 0 1 = Some 0.
Proof.
  destruct (soft_q_v2_target (fun _ => []) 2 2 2 _ _ _ _ _ 0%nat 1%nat 1%Z 5
              [logsumexp [1; 2]; logsumexp [3; 4]]
              zero_length_batch_ok eq_refl eq_refl eq_refl (le_n 2))
    as (Q & A_ & qlog & Heq & _ & _ & Hat).
  exists Q, A_, qlog. split; [exact Heq | exact Hat].
Defined.

Lemma soft_q_terminal_index_error_witness :
  soft_q_loss_with_sparse_rewards_1
    [[[0; 0]; [0; 0]]] [[[1; 2]; [3; 4]]] [[0%Z; 1%Z]] [5] [3%Z]
  = Raise IndexError
  /\ soft_q_loss_with_sparse_rewards_2 (fun _ => [])
       [[[0; 0]; [0; 0]]] [[[1; 2]; [3; 4]]] [[0%Z; 1%Z]] [5] [3%Z]
     = Raise IndexError.
Proof.
  apply (soft_q_terminal_index_error (fun _ => []) 1 2 2).
  - repeat (first [ split | constructor ]).
  - exact two_steps_shaped3.
  - repeat (first [ split | constructor ]).
  - repeat constructor; unfold index_ok; simpl; lia.
  - reflexivity.
  - reflexivity.
  - intros H. inversion H as [|? ? H1 _]; subst. simpl in H1. lia.
Defined.


Lemma soft_q_raw_losses_nonnegative_witness :
  exists raw_losses quantities_to_log,
    soft_q_loss_with_sparse_rewards_2_2_reversed (fun _ => [])
      [[[0; 0]; [0; 0]]] [[[1; 2]; [3; 4]]] [[0%Z; 1%Z]] [5] [1%Z]
      (Some (1 / 2)) (Some 1) (Some 2)
    = Ok (raw_losses, quantities_to_log)
    /\ Forall (Forall (fun v => 0 <= v)) raw_losses.
Proof.
  eexists _, _. split; [reflexivity|].
  eapply (soft_q_raw_losses_nonnegative (fun _ => []) "v2_v2r"
            [[[0; 0]; [0; 0]]] [[[1; 2]; [3; 4]]] [[0%Z; 1%Z]] [5] [1%Z]
            (Some (1 / 2)) (Some 1) (Some 2)).
  - intros c [= <-]. lra.
  - intros m [= <-]. lra.
  - reflexivity.
  - reflexivity.
Defined.

Lemma large_margin_classification_loss_zero_iff_witness :
  exists raw_losses quantities_to_log v,
    large_margin_classification_loss [[[3; 2]]] [[0%Z]] 1
    = Ok (raw_losses, quantities_to_log)
    /\ elem2 raw_losses 0 0 = Some v /\ v = 0.
Proof.
  destruct (large_margin_classification_loss_zero_iff 1 1 2
              [[[3; 2]]] [[0%Z]] 1 0%nat 0%nat [3; 2] 0%Z)
    as (raw & qlog & v & m & Heq & Hv & Hm & _ & Hiff).
  - repeat (first [ split | constructor ]).
  - repeat (first [ split | constructor ]).
  - repeat constructor; unfold index_ok; simpl; lia.
  - reflexivity.
  - reflexivity.
  - exists raw, qlog, v. split; [exact Heq|]. split; [exact Hv|].
    apply Hiff. injection Hm as <-.
    intros [|[|k]] x Hk Hx; simpl in *.
    + contradiction.
    + injection Hx as <-. lra.
    + discriminate Hx.
Defined.

Lemma large_margin_classification_loss_index_error_witness :
  large_margin_classification_loss [[[3; 2]]] [[2%Z]] 1 = Raise IndexError.
Proof.
  apply (large_margin_classification_loss_index_error 1 1 2).
  - repeat (first [ split | constructor ]).
  - repeat (first [ split | constructor ]).
  - intros H. inversion H as [|? ? H1 _]; subst.
    inversion H1 as [|? ? H2 _]; subst.
    unfold index_ok in H2. simpl in H2. lia.
Defined.


Lemma sync_target_model_polyak_rate_one_witness :
  SoftQLearningTrainer.sync_target_model
    (SoftQLearningTrainer.init 
       {| SoftQLearningTrainer.arg_model := [[1; 2]];
          SoftQLearningTrainer.arg_target_model := Some [[3; 4]];
          SoftQLearningTrainer.arg_sql_loss_impl := "v2_v2r";
          SoftQLearningTrainer.arg_target_update_method := Some "polyak";
          SoftQLearningTrainer.arg_target_learning_rate := 1;
          SoftQLearningTrainer.arg_mix_strategy := "alternate";
          SoftQLearningTrainer.arg_reward_shaping := false;
          SoftQLearningTrainer.arg_sql_loss_coefficients := None;
          SoftQLearningTrainer.arg_sql_loss_margin_constant := None;
          SoftQLearningTrainer.arg_sql_loss_margin_coefficient := None;
          SoftQLearningTrainer.arg_top_k := None;
          SoftQLearningTrainer.arg_top_p := None;
          SoftQLearningTrainer.arg_beam_width := None;
          SoftQLearningTrainer.arg_device := "cuda:0" |}) "polyak"
  = SoftQLearningTrainer.sync_target_model
      (SoftQLearningTrainer.init 
       {| SoftQLearningTrainer.arg_model := [[1; 2]];
          SoftQLearningTrainer.arg_target_model := Some [[3; 4]];
          SoftQLearningTrainer.arg_sql_loss_impl := "v2_v2r";
          SoftQLearningTrainer.arg_target_update_method := Some "polyak";
          SoftQLearningTrainer.arg_target_learning_rate := 1;
          SoftQLearningTrainer.arg_mix_strategy := "alternate";
          SoftQLearningTrainer.arg_reward_shaping := false;
          SoftQLearningTrainer.arg_sql_loss_coefficients := None;
          SoftQLearningTrainer.arg_sql_loss_margin_constant := None;
          SoftQLearningTrainer.arg_sql_loss_margin_coefficient := None;
          SoftQLearningTrainer.arg_top_k := None;
          SoftQLearningTrainer.arg_top_p := None;
          SoftQLearningTrainer.arg_beam_width := None;
          SoftQLearningTrainer.arg_device := "cuda:0" |}) "copy".
Proof.
  apply (sync_target_model_polyak_rate_one
           (SoftQLearningTrainer.init 
       {| SoftQLearningTrainer.arg_model := [[1; 2]];
          SoftQLearningTrainer.arg_target_model := Some [[3; 4]];
          SoftQLearningTrainer.arg_sql_loss_impl := "v2_v2r";
          SoftQLearningTrainer.arg_target_update_method := Some "polyak";
          SoftQLearningTrainer.arg_target_learning_rate := 1;
          SoftQLearningTrainer.arg_mix_strategy := "alternate";
          SoftQLearningTrainer.arg_reward_shaping := false;
          SoftQLearningTrainer.arg_sql_loss_coefficients := None;
          SoftQLearningTrainer.arg_sql_loss_margin_constant := None;
          SoftQLearningTrainer.arg_sql_loss_margin_coefficient := None;
          SoftQLearningTrainer.arg_top_k := None;
          SoftQLearningTrainer.arg_top_p := None;
          SoftQLearningTrainer.arg_beam_width := None;
          SoftQLearningTrainer.arg_device := "cuda:0" |}) [[3; 4]] [[1; 2]]).
  - reflexivity.
  - reflexivity.
  - reflexivity.
  - repeat constructor.
Defined.


Lemma soft_q_dispatch_unused_arguments_witness :
  soft_q_loss_with_sparse_rewards (fun _ => []) "v3_v3r"
    [[[0; 0]; [0; 0]]] [[[1; 2]; [3; 4]]] [[0%Z; 1%Z]]
    (RewardsTensor [1%nat] [5]) [1%Z] (Some (1 / 2)) (Some 1) (Some 2)
  = soft_q_loss_with_sparse_rewards (fun _ => []) "v3_v3r"
      [[[0; 0]; [0; 0]]] [[[1; 2]; [3; 4]]] [[0%Z; 1%Z]]
      (RewardsTensor [1%nat] [5]) [1%Z] (Some (1 / 2)) None None.
Proof.
  apply (soft_q_dispatch_unused_arguments (fun _ => []) "v3_v3r").
  discriminate.
Defined.


Lemma nested_detach_and_clone_returns_iff_supported_witness :
  Nested.nested_detach_and_clone
    (Nested.PTuple [Nested.PTensor 0%nat; Nested.PNdarray 0%nat]) true false
    [{| Nested.st_device := Nested.Cuda; Nested.st_data := [1; 2] |}]
  = Raise TypeError
  \/ Nested.nested_detach_and_clone
       (Nested.PTuple [Nested.PTensor 0%nat; Nested.PNdarray 0%nat]) true false
       [{| Nested.st_device := Nested.Cuda; Nested.st_data := [1; 2] |}]
     = Raise NotImplementedError.
Proof.
  apply (nested_detach_and_clone_returns_iff_supported
           (Nested.PTuple [Nested.PTensor 0%nat; Nested.PNdarray 0%nat]) true false
           [{| Nested.st_device := Nested.Cuda; Nested.st_data := [1; 2] |}]).
  - repeat constructor.
  - reflexivity.
  - reflexivity.
Defined.

Lemma nested_detach_and_clone_to_cpu_witness :
  exists obj' σ',
    Nested.nested_detach_and_clone
      (Nested.PDict
         [(Nested.KeyStr "logits",
           Nested.PTuple [Nested.PTensor 0%nat; Nested.PInt 1])])
      true true
      [{| Nested.st_device := Nested.Cuda; Nested.st_data := [1; 2] |}]
    = Ok (obj', σ')
    /\ Nested.on_cpu σ' obj'.
Proof.
  destruct (nested_detach_and_clone_to_cpu
              (Nested.PDict
                 [(Nested.KeyStr "logits",
                   Nested.PTuple [Nested.PTensor 0%nat; Nested.PInt 1])])
              true
              [{| Nested.st_device := Nested.Cuda; Nested.st_data := [1; 2] |}])
    as (obj' & σ' & Hop & Hcpu & _).
  - reflexivity.
  - repeat constructor.
  - exists obj', σ'. split; [exact Hop | exact Hcpu].
Defined.

Lemma forward_SQL_logs_do_not_collide_witness :
  dict_get "SQL_OFF/loss"
    (unionize_dicts
       [SoftQLearningTrainer._forward_SQL_log SoftQLearningTrainer.SQL_OFF
          [("bleu", 1)] [("loss", 2)] 3 4;
        SoftQLearningTrainer._forward_SQL_log SoftQLearningTrainer.SQL_ON
          [("bleu", 5)] [("loss", 6)] 7 8])
  = Some 2.
Proof.
  destruct (forward_SQL_logs_do_not_collide
              [("bleu", 1)] [("loss", 2)] [("bleu", 5)] [("loss", 6)] 3 4 7 8)
    as (_ & _ & H).
  - repeat constructor; set_solver.
  - repeat constructor; set_solver.
  - repeat constructor; set_solver.
  - repeat constructor; set_solver.
  - rewrite H. reflexivity.
Defined.

(** The keywords of the call in the tuning script; [tracker_project_name],
    [log_with] and [project_kwargs] are not fields of the class. *)
Lemma DDPOConfig_init_keywords_witness :
  DDPOConfig.init
    [("num_epochs", DDPOConfig.VInt 200);
     ("train_gradient_accumulation_steps", DDPOConfig.VInt 1);
     ("sample_num_steps", DDPOConfig.VInt 50);
     ("sample_batch_size", DDPOConfig.VInt 6);
     ("train_batch_size", DDPOConfig.VInt 3);
     ("sample_num_batches_per_epoch", DDPOConfig.VInt 4);
     ("per_prompt_stat_tracking", DDPOConfig.VBool true);
     ("per_prompt_stat_tracking_buffer_size", DDPOConfig.VInt 32);
     ("tracker_project_name", DDPOConfig.VStr "stable_diffusion_training");
     ("log_with", DDPOConfig.VStr "wandb");
     ("project_kwargs", DDPOConfig.VOther)]
  = Raise TypeError
  /\ exists config,
       DDPOConfig.init
         [("num_epochs", DDPOConfig.VInt 200);
          ("train_gradient_accumulation_steps", DDPOConfig.VInt 1);
          ("per_prompt_stat_tracking_buffer_size", DDPOConfig.VInt 32);
          ("sample_num_batches_per_epoch", DDPOConfig.VInt 2);
          ("sample_batch_size", DDPOConfig.VInt 2)]
       = Ok config
       /\ dict_get "num_epochs" config = Some (DDPOConfig.VInt 200)
       /\ dict_get "seed" config = Some (DDPOConfig.VInt 42).
Proof.
  split.
  - apply (proj1 (DDPOConfig_init_keywords _) "tracker_project_name").
    + apply (bool_decide_unpack _). vm_compute. exact I.
    + apply (bool_decide_unpack _). vm_compute. exact I.
  - destruct (proj2 (DDPOConfig_init_keywords
                       [("num_epochs", DDPOConfig.VInt 200);
                        ("train_gradient_accumulation_steps", DDPOConfig.VInt 1);
                        ("per_prompt_stat_tracking_buffer_size", DDPOConfig.VInt 32);
                        ("sample_num_batches_per_epoch", DDPOConfig.VInt 2);
                        ("sample_batch_size", DDPOConfig.VInt 2)]))
      as (config & Heq & _ & Hget).
    + apply (bool_decide_unpack _). vm_compute. exact I.
    + exists config. split; [exact Heq|]. split.
      * apply (Hget "num_epochs" (DDPOConfig.VInt 100)).
        unfold DDPOConfig.fields.
        repeat (first [apply list_elem_of_here | apply list_elem_of_further]).
      * apply (Hget "seed" (DDPOConfig.VInt 42)).
        unfold DDPOConfig.fields.
        repeat (first [apply list_elem_of_here | apply list_elem_of_further]).
Defined.

Lemma image_outputs_logger_last_image_wins_witness :
  exists logged,
    image_outputs_logger (fun image : nat => image) (fun _ : R => "0.50")
      [([7%nat], ["ant"], tt, [1]); ([1%nat; 2%nat], ["cat"; "cat"], tt, [1 / 2; 1 / 2])]
      3
    = Ok (logged, 3%Z)
    /\ dict_get "cat | 0.50" logged = Some 2%nat.
Proof.
  destruct (image_outputs_logger_last_image_wins
              (fun image : nat => image) (fun _ : R => "0.50")
              [([7%nat], ["ant"], tt, [1])]
              [1%nat; 2%nat] ["cat"; "cat"] tt [1 / 2; 1 / 2] 3)
    as (_ & _ & H).
  destruct H as (logged & Heq & _ & _ & Hlast); [simpl; lia | simpl; lia |].
  exists logged. split; [exact Heq|].
  apply (Hlast 1%nat 2%nat "cat" (1 / 2) eq_refl eq_refl eq_refl).
  intros j p r Hj _ _ Hlen. simpl in Hlen. lia.
Defined.

Lemma soft_q_dispatch_returns_on_well_formed_witness :
  exists raw_losses loss_log,
    soft_q_loss_with_sparse_rewards (fun _ => []) "v1"
      [[[0; 0]; [0; 0]]] [[[1; 2]; [3; 4]]] [[0%Z; 1%Z]]
      (RewardsTensor [1%nat] [5]) [1%Z] None None None
    = Ok (mask_and_reduce raw_losses [1%Z] false true, loss_log).
Proof.
  assert (Hin : "v1" ∈ implementations).
  { apply (bool_decide_unpack _). reflexivity. }
  destruct (soft_q_dispatch_returns_on_well_formed (fun _ => []) 1 2 2
              "v1" _ _ _ _ _ None None None
              one_row_batch_ok (le_n 1) (le_S 1 1 (le_n 1)) Hin)
    as (f & raw & qlog & log & _ & _ & _ & Hloss).
  exists raw, log. exact Hloss.
Defined.
End further_worked_inputs.
